(** * californias-gold-scraper: a shallow embedding and its properties

    The scraper (two variants of one script: the later one with the
    episode resolver, and the earlier [index.js]) crawls a paginated feed,
    extracts the video sources of every linked page, renames each episode
    against the TVDB catalog and writes a shell script of download
    commands.

    Modelling choices, valid for the whole file:
    - a JavaScript string is the Rocq [string] of its UTF-8 bytes; the three
      non-ASCII characters the script mentions are spelled out below;
    - the network, the HTML/feed parsers and the npm libraries are the
      fields of one record [World]; every request is appended to a log kept
      in the program state, and a response may depend on how many requests
      were made before it;
    - [async] functions are state-and-exception passing functions: a
      rejected promise and a [throw] are both [Err];
    - the page objects shared between [CACHE.pages] and the crawl live in a
      heap and are passed around by location;
    - [console.log], [console.error] and [fs.writeFileSync] append to the
      state; [downloadVideos] and the [--single] mode, which only spawn
      [curl] or [wget], are left out. *)

From Stdlib Require Import ZArith QArith String Ascii List DecimalString Lia Sorted.
From stdpp Require Import gmap strings list.

(** ** Strings *)

(** U+2019 RIGHT SINGLE QUOTATION MARK, U+2013 EN DASH, U+2014 EM DASH. *)
Definition right_quote : string := String "226" (String "128" (String "153" "")).
Definition en_dash : string := String "226" (String "128" (String "147" "")).
Definition em_dash : string := String "226" (String "128" (String "148" "")).

(** [strip_prefix p s] is the rest of [s] after its prefix [p]. *)
Fixpoint strip_prefix (p s : string) : option string :=
  match p, s with
  | EmptyString, _ => Some s
  | String a p', String b s' => if Ascii.eqb a b then strip_prefix p' s' else None
  | String _ _, EmptyString => None
  end.

(** [s.startsWith(p)] *)
Definition startsWith (s p : string) : bool :=
  match strip_prefix p s with Some _ => true | None => false end.

Fixpoint replaceAll_go (fuel : nat) (pat repl s : string) : string :=
  match fuel with
  | O => s
  | S fuel' =>
      match strip_prefix pat s with
      | Some rest => repl +:+ replaceAll_go fuel' pat repl rest
      | None =>
          match s with
          | EmptyString => EmptyString
          | String c t => String c (replaceAll_go fuel' pat repl t)
          end
      end
  end.

(** [s.replace(/pat/g, repl)] for a literal, non-empty [pat]. *)
Definition replaceAll (pat repl s : string) : string :=
  replaceAll_go (S (String.length s)) pat repl s.

(** The first alternative that succeeds, in backtracking order. *)
Definition first_some {A B : Type} (f : A -> option B) (l : list A) : option B :=
  fold_right (fun a acc => match f a with Some b => Some b | None => acc end) None l.

(** [ ?]: a greedy optional space; the rests to try, in order. *)
Definition opt_space (s : string) : list string :=
  match s with
  | String " " r => [r; s]
  | _ => [s]
  end.

(** [[-–—]] *)
Definition strip_dash (s : string) : option string :=
  first_some (fun d => strip_prefix d s) ["-"; en_dash; em_dash].

Definition is_digit (c : ascii) : bool :=
  ((48 <=? nat_of_ascii c) && (nat_of_ascii c <=? 57))%nat.

(** [\d*] *)
Fixpoint strip_digits (s : string) : string :=
  match s with
  | EmptyString => EmptyString
  | String c t => if is_digit c then strip_digits t else s
  end.

(** [( \(\d+\))?], greedy: the rest after the group when it matches, else [s]. *)
Definition strip_number_suffix (s : string) : string :=
  match strip_prefix " (" s with
  | Some (String c t) =>
      if is_digit c then
        match strip_prefix ")" (strip_digits t) with
        | Some rest => rest
        | None => s
        end
      else s
  | _ => s
  end.

(** [ ?[-–—] ?] followed by the literal [lit], anchored at the head of [s]:
    the rest of [s] after the match. *)
Definition dashed_at (lit s : string) : option string :=
  first_some (fun s1 =>
    match strip_dash s1 with
    | None => None
    | Some s2 => first_some (fun s3 => strip_prefix lit s3) (opt_space s2)
    end) (opt_space s).

(** [new RegExp(" ?[-–—] ?" + showName + '( \\(\\d+\\))?')] anchored at
    the head of [s].  The show names of [SHOWS] hold letters, spaces and
    apostrophes only, so [showName] is a literal. *)
Definition showNamePattern_at (showName s : string) : option string :=
  match dashed_at showName s with
  | Some rest => Some (strip_number_suffix rest)
  | None => None
  end.

(** [s.replace(regex, repl)] without the [g] flag: the leftmost match of
    the anchored matcher [match_at] is replaced. *)
Fixpoint replaceLeftmost (match_at : string -> option string) (repl s : string) : string :=
  match match_at s with
  | Some rest => repl +:+ rest
  | None =>
      match s with
      | EmptyString => EmptyString
      | String c t => String c (replaceLeftmost match_at repl t)
      end
  end.

(** [s.replace(showNamePattern, '')] *)
Definition removeShowName (showName s : string) : string :=
  replaceLeftmost (showNamePattern_at showName) "" s.

(** The first occurrence of [pat] in [s]: the text after it. *)
Fixpoint find_first (pat s : string) : option string :=
  match strip_prefix pat s with
  | Some rest => Some rest
  | None =>
      match s with
      | EmptyString => None
      | String _ t => find_first pat t
      end
  end.

(** The last occurrence of [pat] in [s]: the text before it. *)
Fixpoint find_last (pat s : string) : option string :=
  match s with
  | EmptyString => if startsWith EmptyString pat then Some EmptyString else None
  | String c t =>
      match find_last pat t with
      | Some before => Some (String c before)
      | None => if startsWith s pat then Some EmptyString else None
      end
  end.

(** [/var jwConfig = ({[\s\S]*}); \/\/ end config/m]: the braces are
    literal; the match starts at the leftmost ["var jwConfig = {"] and the
    greedy [[\s\S]*] runs to the last ["}; // end config"] after it. *)
Definition jw_open : string := "var jwConfig = {".
Definition jw_close : string := "}; // end config".

(** [content.match(configRegex)], reduced to its capture group 1. *)
Definition configMatch (content : string) : option string :=
  match find_first jw_open content with
  | None => None
  | Some body =>
      match find_last jw_close body with
      | None => None
      | Some inner => Some ("{" +:+ inner +:+ "}")
      end
  end.

(** [s.replace(/pat/, repl)] for a literal [pat]: the first occurrence only. *)
Definition replaceFirst (pat repl s : string) : string :=
  replaceLeftmost (strip_prefix pat) repl s.

(** [array.join(sep)] *)
Fixpoint join (sep : string) (l : list string) : string :=
  match l with
  | [] => ""
  | [x] => x
  | x :: l' => x +:+ sep +:+ join sep l'
  end.

Definition string_of_Z (z : Z) : string := NilZero.string_of_int (Z.to_int z).
Definition string_of_nat (n : nat) : string := NilZero.string_of_uint (Nat.to_uint n).

(** ** Data *)

(** A JavaScript number that holds an integer, or [NaN]. *)
Inductive number := NaN | Num (z : Z).

Definition number_add (a b : number) : number :=
  match a, b with
  | Num x, Num y => Num (x + y)
  | _, _ => NaN
  end.

Inductive Quality := HD | SD.

Definition quality_label (q : Quality) : string :=
  match q with HD => "HD" | SD => "SD" end.

Record Video := { src : string; label : string; size : number }.

(** [page.videos]: an object with at most the keys [HD] and [SD]. *)
Record Videos := { videos_HD : option Video; videos_SD : option Video }.

Definition no_videos : Videos := {| videos_HD := None; videos_SD := None |}.

Definition get_video (q : Quality) (v : Videos) : option Video :=
  match q with HD => videos_HD v | SD => videos_SD v end.

Definition set_video (q : Quality) (x : Video) (v : Videos) : Videos :=
  match q with
  | HD => {| videos_HD := Some x; videos_SD := videos_SD v |}
  | SD => {| videos_HD := videos_HD v; videos_SD := Some x |}
  end.

(** The page object; [subtitles], [show] and [renamed] are [None] while the
    property is absent or [undefined]. *)
Record Page := {
  pageUrl : string;
  sourceUrl : string;
  title : string;
  videos : Videos;
  subtitles : option string;
  show : option string;
  renamed : option string;
}.

Definition set_videos (v : Videos) (p : Page) : Page :=
  {| pageUrl := pageUrl p; sourceUrl := sourceUrl p; title := title p; videos := v;
     subtitles := subtitles p; show := show p; renamed := renamed p |}.

Definition set_subtitles (s : option string) (p : Page) : Page :=
  {| pageUrl := pageUrl p; sourceUrl := sourceUrl p; title := title p; videos := videos p;
     subtitles := s; show := show p; renamed := renamed p |}.

Definition set_show (s : string) (p : Page) : Page :=
  {| pageUrl := pageUrl p; sourceUrl := sourceUrl p; title := title p; videos := videos p;
     subtitles := subtitles p; show := Some s; renamed := renamed p |}.

Definition set_renamed (s : string) (p : Page) : Page :=
  {| pageUrl := pageUrl p; sourceUrl := sourceUrl p; title := title p; videos := videos p;
     subtitles := subtitles p; show := show p; renamed := Some s |}.

(** A TVDB episode; [episodeName] is [None] for [null]. *)
Record Episode := {
  episodeName : option string;
  airedSeason : Z;
  airedEpisodeNumber : Z;
}.

(** An entry of [SHOWS]. *)
Record Show := { name : string; tvdb_id : option Z }.

(** The parsed JW Player configuration, as far as the script reads it. *)
Record Source := {
  source_type : option string;
  file : option string;
  width : option Z;
}.

Record PlaylistItem := { sources : option (list Source) }.

(** [config.playlist]: no such key, a falsy value, or an array. *)
Inductive Playlist :=
| PlaylistAbsent
| PlaylistFalsy
| PlaylistItems (items : list PlaylistItem).

Record JWConfig := { playlist : Playlist }.

(** What the cheerio selectors of [getPageVideos] find in a page:
    [article > div.post_content > h1 > a], the [src] of every
    [iframe[src^="https://vhost"]] and of every
    [script[src^="//content.jwplatform.com/players/"]]. *)
Record PageDocument := {
  doc_title : string;
  doc_iframes : list string;
  doc_jwVideo : list string;
}.

(** The attributes of a [video > source] element. *)
Record VideoAttributes := { attr_src : string; attr_label : option string }.

(** What [getVideosFromIframe] selects: [video > source] and the [src] of
    every [video > track]. *)
Record IframeDocument := {
  doc_sources : list VideoAttributes;
  doc_tracks : list string;
}.

Inductive exn :=
| Thrown (msg : string)      (* [throw '...'] and [reject('...')]: a string *)
| TypeError
| SyntaxError
| RequestError
| FeedError (msg : string).

(** The events of the FeedParser stream, in the order they are emitted. *)
Inductive FeedEvent :=
| EvError (msg : string)
| EvMeta (meta_title : string)
| EvReadable (links : list string)
| EvEnd.

Inductive Request :=
| GET (url : string)
| HEAD (url : string)
| FEED (url : string)
| TVDB (id : Z).

(** The collaborators.  A request function takes the number of requests made
    before it; [None] is a rejected promise. *)
Record World := {
  fetchPage : nat -> string -> option PageDocument;
  fetchIframe : nat -> string -> option IframeDocument;
  fetchScript : nat -> string -> option string;
  headRequest : nat -> string -> option (gmap string string);
  fetchFeed : nat -> string -> list FeedEvent;
  getEpisodesBySeriesId : nat -> Z -> option (list Episode);
  JSON_parse : string -> option JWConfig;
  parseInt : string -> number;
  sanitize : string -> string;
  (** [FuzzySet(names).get(query)]: [None] for [null], else (score, name)
      pairs; a score is the exact value of the double. *)
  FuzzySet_get : list string -> string -> option (list (Q * string));
  localeCompare : string -> string -> Z;
  shellEscape : list string -> string;
  basename : string -> string;
  humanize_fileSize : number -> string;
}.

Inductive File :=
| CacheFile (pages : gmap string Page) (tvdb : gmap Z (list Episode))
| ScriptFile (lines : list string).

(** The program state: the heap of page objects, [CACHE], the [fuzzyset]
    memo of [SHOWS], and the observable effects. *)
Record State := {
  heap : list Page;
  CACHE_pages : gmap string nat;
  CACHE_tvdb : gmap Z (list Episode);
  fuzzysets : gmap string (list string);
  requests : list Request;
  console : list string;
  console_errors : list exn;
  files : gmap string File;
}.

Definition set_heap (h : list Page) (st : State) : State :=
  {| heap := h; CACHE_pages := CACHE_pages st; CACHE_tvdb := CACHE_tvdb st;
     fuzzysets := fuzzysets st; requests := requests st; console := console st;
     console_errors := console_errors st; files := files st |}.

Definition set_CACHE_pages (c : gmap string nat) (st : State) : State :=
  {| heap := heap st; CACHE_pages := c; CACHE_tvdb := CACHE_tvdb st;
     fuzzysets := fuzzysets st; requests := requests st; console := console st;
     console_errors := console_errors st; files := files st |}.

Definition set_CACHE_tvdb (c : gmap Z (list Episode)) (st : State) : State :=
  {| heap := heap st; CACHE_pages := CACHE_pages st; CACHE_tvdb := c;
     fuzzysets := fuzzysets st; requests := requests st; console := console st;
     console_errors := console_errors st; files := files st |}.

Definition set_fuzzysets (f : gmap string (list string)) (st : State) : State :=
  {| heap := heap st; CACHE_pages := CACHE_pages st; CACHE_tvdb := CACHE_tvdb st;
     fuzzysets := f; requests := requests st; console := console st;
     console_errors := console_errors st; files := files st |}.

Definition set_requests (r : list Request) (st : State) : State :=
  {| heap := heap st; CACHE_pages := CACHE_pages st; CACHE_tvdb := CACHE_tvdb st;
     fuzzysets := fuzzysets st; requests := r; console := console st;
     console_errors := console_errors st; files := files st |}.

Definition set_console (c : list string) (st : State) : State :=
  {| heap := heap st; CACHE_pages := CACHE_pages st; CACHE_tvdb := CACHE_tvdb st;
     fuzzysets := fuzzysets st; requests := requests st; console := c;
     console_errors := console_errors st; files := files st |}.

Definition set_console_errors (c : list exn) (st : State) : State :=
  {| heap := heap st; CACHE_pages := CACHE_pages st; CACHE_tvdb := CACHE_tvdb st;
     fuzzysets := fuzzysets st; requests := requests st; console := console st;
     console_errors := c; files := files st |}.

Definition set_files (f : gmap string File) (st : State) : State :=
  {| heap := heap st; CACHE_pages := CACHE_pages st; CACHE_tvdb := CACHE_tvdb st;
     fuzzysets := fuzzysets st; requests := requests st; console := console st;
     console_errors := console_errors st; files := f |}.

(** ** The monad of [async] code *)

Inductive Result (A : Type) := Ok (a : A) | Err (e : exn).
Arguments Ok {A} a.
Arguments Err {A} e.

Definition M (A : Type) : Type := State -> Result A * State.

Definition ret {A : Type} (a : A) : M A := fun st => (Ok a, st).

Definition throw {A : Type} (e : exn) : M A := fun st => (Err e, st).

Definition bind {A B : Type} (m : M A) (f : A -> M B) : M B :=
  fun st =>
    match m st with
    | (Ok a, st') => f a st'
    | (Err e, st') => (Err e, st')
    end.

Notation "x <- m ;; k" := (bind m (fun x => k))
  (at level 100, m at next level, right associativity).
Notation "m ;;; k" := (bind m (fun _ => k))
  (at level 100, right associativity).

Definition lift {A : Type} (r : Result A) : M A := fun st => (r, st).

(** One network round trip: logged, then answered by the world. *)
Definition request {A : Type} (r : Request) (respond : nat -> option A) : M A :=
  fun st =>
    let st' := set_requests (requests st ++ [r]) st in
    match respond (length (requests st)) with
    | Some a => (Ok a, st')
    | None => (Err RequestError, st')
    end.

Definition console_log (line : string) : M unit :=
  fun st => (Ok tt, set_console (console st ++ [line]) st).

Definition console_error (e : exn) : M unit :=
  fun st => (Ok tt, set_console_errors (console_errors st ++ [e]) st).

(** A fresh object on the heap. *)
Definition alloc (p : Page) : M nat :=
  fun st => (Ok (length (heap st)), set_heap (heap st ++ [p]) st).

(** Reading and writing through a location; a location always comes from
    [alloc], the [TypeError] stands for the [undefined] of a missing one. *)
Definition read_page (l : nat) : M Page :=
  fun st =>
    match heap st !! l with
    | Some p => (Ok p, st)
    | None => (Err TypeError, st)
    end.

Definition update_page (l : nat) (f : Page -> Page) : M unit :=
  fun st =>
    match heap st !! l with
    | Some p => (Ok tt, set_heap (<[l := f p]> (heap st)) st)
    | None => (Err TypeError, st)
    end.

(** [for]-[of] with an effect per element. *)
Fixpoint mapM {A B : Type} (f : A -> M B) (l : list A) : M (list B) :=
  match l with
  | [] => ret []
  | a :: l' => b <- f a;; bs <- mapM f l';; ret (b :: bs)
  end.

(** ** Constants of the script *)

Definition dquote : string := String "034" "".
(** U+2192 RIGHTWARDS ARROW *)
Definition right_arrow : string := String "226" (String "134" (String "146" "")).

Definition SHOWS : gmap string Show := list_to_map [
  ("alaska-week", {| name := "Alaska Week"; tvdb_id := None |});
  ("california-missions", {| name := "California Missions"; tvdb_id := None |});
  ("californias-communities", {| name := "California's Communities"; tvdb_id := None |});
  ("californias-gold", {| name := "California's Gold"; tvdb_id := Some 279999%Z |});
  ("californias-golden-coast", {| name := "California's Golden Coast"; tvdb_id := Some 282164%Z |});
  ("californias-golden-fairs", {| name := "California's Golden Fairs"; tvdb_id := Some 281267%Z |});
  ("californias-golden-parks", {| name := "California's Golden Parks"; tvdb_id := Some 282166%Z |});
  ("californias-green", {| name := "California's Green"; tvdb_id := None |});
  ("californias-water", {| name := "California's Water"; tvdb_id := None |});
  ("crossroads", {| name := "Crossroads"; tvdb_id := None |});
  ("downtown", {| name := "Downtown"; tvdb_id := None |});
  ("our-neighborhoods", {| name := "Our Neighborhoods"; tvdb_id := None |});
  ("palm-springs-week", {| name := "Palm Springs Week"; tvdb_id := None |});
  ("road-trip", {| name := "Road Trip"; tvdb_id := None |});
  ("specials", {| name := "Specials"; tvdb_id := None |});
  ("the-bench", {| name := "The Bench"; tvdb_id := None |});
  ("visiting", {| name := "Visiting"; tvdb_id := None |})
].

Definition categoryFeedUrl (showName : string) : string :=
  "https://blogs.chapman.edu/huell-howser-archives/category/" +:+ showName +:+ "/feed/atom/".

Definition feedPageUrl (feedUrl : string) (pageNumber : nat) : string :=
  feedUrl +:+ "?paged=" +:+ string_of_nat pageNumber.

(** The double nearest to the literal [0.7], exactly. *)
Definition confidence : Q := 3152519739159347 # 4503599627370496.

(** [x < y] on the doubles of value [x] and [y]. *)
Definition Qlt_bool (x y : Q) : bool := negb (Qle_bool y x).

(** [array.sort(compare)]: a stable sort; the element [x] is placed before
    the first [y] with [compare(x, y) < 0]. *)
Fixpoint insert_sorted {A : Type} (compare : A -> A -> Z) (x : A) (l : list A) : list A :=
  match l with
  | [] => [x]
  | y :: l' => if (compare x y <? 0)%Z then x :: l else y :: insert_sorted compare x l'
  end.

Definition sort {A : Type} (compare : A -> A -> Z) (l : list A) : list A :=
  fold_left (fun acc x => insert_sorted compare x acc) l [].

(** The callbacks of [getFeedPageLinks] run over the events of the stream;
    the promise keeps its first settlement.  [None]: it never settles. *)
Fixpoint runFeed (events : list FeedEvent) (links : list string)
  : option (Result (list string)) :=
  match events with
  | [] => None
  | EvError msg :: _ => Some (Err (FeedError msg))
  | EvMeta meta_title :: rest =>
      if startsWith meta_title "Page not found"
      then Some (Err (Thrown "Page not found"))
      else runFeed rest links
  | EvReadable items :: rest => runFeed rest (links ++ items)
  | EvEnd :: _ => Some (Ok links)
  end.

(** ** The script with the episode resolver *)

Section Scraper.

Variable W : World.

Definition getFileSize (url : string) : M number :=
  headers <- request (HEAD url) (fun n => headRequest W n url);;
  match headers !! "content-length" with
  | None => ret (Num 0)
  | Some length => ret (parseInt W length)
  end.

Definition getJWConfig (content : string) : Result JWConfig :=
  match configMatch content with
  | None => Err TypeError                      (* [configMatch[1]] of [null] *)
  | Some text =>
      match JSON_parse W text with
      | Some config => Ok config
      | None => Err SyntaxError
      end
  end.

Definition is_hls (source : Source) : bool :=
  match source_type source with
  | Some t => String.eqb t "hls"
  | None => false
  end.

Definition has_width (w : Z) (source : Source) : bool :=
  match width source with
  | Some x => (x =? w)%Z
  | None => false
  end.

(** ['https:' + source.file] *)
Definition source_url (source : Source) : string :=
  "https:" +:+ match file source with Some f => f | None => "undefined" end.

(** The [for] loop of [getVideosFromJWPlayer] over the reversed sources. *)
Fixpoint scanSources (l : list Source) (vs : Videos) : M Videos :=
  match l with
  | [] => ret vs
  | source :: rest =>
      if is_hls source then scanSources rest vs
      else
        size <- getFileSize (source_url source);;
        let video := {| src := source_url source;
                        label := if has_width 720 source then "HD" else "SD";
                        size := size |} in
        if has_width 720 source then scanSources rest (set_video HD video vs)
        else if has_width 480 source then ret (set_video SD video vs)
        else scanSources rest vs
  end.

Definition getVideosFromJWPlayer (title pageUrl sourceUrl : string) : M Page :=
  response <- request (GET sourceUrl) (fun n => fetchScript W n sourceUrl);;
  config <- lift (getJWConfig response);;
  match playlist config with
  | PlaylistAbsent => throw (Thrown "No playlist found!")
  | PlaylistFalsy => throw (Thrown "Playlist empty!")
  | PlaylistItems [] => throw TypeError       (* [config.playlist[0]] is [undefined] *)
  | PlaylistItems (first :: _) =>
      match sources first with
      | None => throw TypeError
      | Some srcs =>
          vs <- scanSources (rev srcs) no_videos;;
          ret {| pageUrl := pageUrl; sourceUrl := sourceUrl; title := title;
                 videos := vs; subtitles := None; show := None; renamed := None |}
      end
  end.

Definition has_label (quality : Quality) (v : VideoAttributes) : bool :=
  match attr_label v with
  | Some l => String.eqb l (quality_label quality)
  | None => false
  end.

Definition getIframeVideosOfQuality (videoAttributes : list VideoAttributes)
    (sourceUrl : string) (vs : Videos) (quality : Quality) : M Videos :=
  match List.filter (has_label quality) videoAttributes with
  | _ :: _ :: _ =>
      throw (Thrown ("More than one " +:+ quality_label quality +:+ " video found: " +:+ sourceUrl))
  | [v] =>
      size <- getFileSize (attr_src v);;
      ret (set_video quality
             {| src := attr_src v; label := quality_label quality; size := size |} vs)
  | [] => ret vs
  end.

Definition getVideosFromIframe (title pageUrl sourceUrl : string) : M Page :=
  response <- request (GET sourceUrl) (fun n => fetchIframe W n sourceUrl);;
  let videoAttributes := doc_sources response in
  let subtitles := doc_tracks response in
  vs <- getIframeVideosOfQuality videoAttributes sourceUrl no_videos SD;;
  vs <- getIframeVideosOfQuality videoAttributes sourceUrl vs HD;;
  ret {| pageUrl := pageUrl; sourceUrl := sourceUrl; title := title;
         videos := vs; subtitles := head subtitles; show := None; renamed := None |}.

(** [CACHE.pages[pageUrl] = page] *)
Definition cache_page (pageUrl : string) (l : nat) : M unit :=
  fun st => (Ok tt, set_CACHE_pages (<[pageUrl := l]> (CACHE_pages st)) st).

Definition getPageVideos (pageUrl : string) : M nat :=
  fun st =>
    match CACHE_pages st !! pageUrl with
    | Some l => (Ok l, st)
    | None =>
        (response <- request (GET pageUrl) (fun n => fetchPage W n pageUrl);;
         let title := doc_title response in
         match doc_iframes response with
         | [iframeUrl] =>
             page <- getVideosFromIframe title pageUrl iframeUrl;;
             l <- alloc page;;
             cache_page pageUrl l;;;
             ret l
         | _ :: _ :: _ =>
             throw (Thrown ("Found more than one matching iframe: " +:+ pageUrl))
         | [] =>
             match doc_jwVideo response with
             | [jwSrc] =>
                 page <- getVideosFromJWPlayer title pageUrl ("https:" +:+ jwSrc);;
                 l <- alloc page;;
                 cache_page pageUrl l;;;
                 ret l
             | _ :: _ :: _ =>
                 throw (Thrown ("Found more than one JW Player <video> tag! " +:+ pageUrl))
             | [] =>
                 throw (Thrown ("Couldn't find a JW Player <video> tag! " +:+ pageUrl))
             end
         end) st
    end.

Definition getTVDBEpisodes (seasonId : Z) : M (list Episode) :=
  fun st =>
    match CACHE_tvdb st !! seasonId with
    | Some episodes => (Ok episodes, st)
    | None =>
        (response <- request (TVDB seasonId) (fun n => getEpisodesBySeriesId W n seasonId);;
         (fun st' => (Ok tt, set_CACHE_tvdb (<[seasonId := response]> (CACHE_tvdb st')) st'));;;
         ret response) st
    end.

Definition episodePadding (number : Z) : string :=
  if (number <? 10)%Z then "0" +:+ string_of_Z number else string_of_Z number.

(** [(e) => e.episodeName]: neither [null] nor empty. *)
Definition has_name (e : Episode) : bool :=
  match episodeName e with
  | Some n => negb (String.eqb n "")
  | None => false
  end.

Definition name_of (e : Episode) : string :=
  match episodeName e with Some n => n | None => "" end.

(** [SHOWS[page.show].fuzzyset], built on the first use. *)
Definition fuzzyset (showKey : string) (episodeNames : list string) : M (list string) :=
  fun st =>
    match fuzzysets st !! showKey with
    | Some names => (Ok names, st)
    | None => (Ok episodeNames, set_fuzzysets (<[showKey := episodeNames]> (fuzzysets st)) st)
    end.

(** The episode number token and the episode name of a catalog match. *)
Definition episodeToken (e : Episode) : string :=
  ".S" +:+ episodePadding (airedSeason e) +:+ "E" +:+ episodePadding (airedEpisodeNumber e) +:+ ".".

(** The last lines of [renameEpisode]. *)
Definition assembleFileName (showKey showName episodeNumber episodeName : string) : string :=
  let outputPath := "videos/" +:+ showKey +:+ "/" in
  let show := replaceAll " " "." showName in
  let episodeName := replaceAll "&" "and" (replaceAll "'" "" (replaceAll " " "." episodeName)) in
  let fileName := sanitize W (replaceAll "'" "" show +:+ episodeNumber +:+ episodeName) in
  outputPath +:+ fileName +:+ ".mp4".

(** [page.title] without the show name suffix. *)
Definition scrapedEpisodeName (showName title : string) : string :=
  let normalizedQuotes := replaceAll right_quote "'" title in
  removeShowName showName normalizedQuotes.

Definition renameEpisode (page : Page) : M string :=
  match show page with
  | None => throw TypeError
  | Some showKey =>
      match SHOWS !! showKey with
      | None => throw TypeError
      | Some s =>
          let showName := name s in
          let episodeName := scrapedEpisodeName showName (title page) in
          match tvdb_id s with
          | None => ret (assembleFileName showKey showName "." episodeName)
          | Some id =>
              episodes <- getTVDBEpisodes id;;
              let episodes := List.filter has_name episodes in
              names <- fuzzyset showKey (map name_of episodes);;
              match FuzzySet_get W names episodeName with
              | Some fuzzyMatch =>
                  match fuzzyMatch with
                  | [] => throw TypeError
                  | firstMatch :: _ =>
                      found <-
                        (if Qlt_bool (fst firstMatch) confidence then
                           console_log ("Low confidence for " +:+ episodeName);;;
                           ret (List.find (fun e => startsWith (name_of e) episodeName) episodes)
                         else
                           let matchName := snd firstMatch in
                           ret (List.find (fun e => String.eqb (name_of e) matchName) episodes));;
                      match found with
                      | Some e =>
                          console_log ("Matched: " +:+ episodeName +:+ " " +:+ right_arrow
                                       +:+ " " +:+ name_of e);;;
                          ret (assembleFileName showKey showName (episodeToken e) (name_of e))
                      | None =>
                          console_log ("Couldn't find a matching episode for " +:+ episodeName);;;
                          ret (assembleFileName showKey showName "." episodeName)
                      end
                  end
              | None =>
                  console_log ("Couldn't find a matching episode for " +:+ episodeName);;;
                  ret (assembleFileName showKey showName "." episodeName)
              end
          end
      end
  end.

(** ['HD' in page.videos ? 'HD' : 'SD'] *)
Definition best_quality (p : Page) : Quality :=
  match videos_HD (videos p) with Some _ => HD | None => SD end.

(** [page.videos[quality]]; reading a property of [undefined] is a [TypeError]. *)
Definition best_video (p : Page) : Result Video :=
  match get_video (best_quality p) (videos p) with
  | Some v => Ok v
  | None => Err TypeError
  end.

Definition renamed_of (p : Page) : Result string :=
  match renamed p with Some r => Ok r | None => Err TypeError end.

(** [page.renamed] is set wherever the script formats parameters. *)
Definition formatWgetParameters (page : Page) : Result (list string) :=
  match best_video page, renamed_of page with
  | Ok video, Ok r => Ok [src video; "--no-check-certificate"; "-nc"; "-O"; r]
  | Err e, _ => Err e
  | _, Err e => Err e
  end.

Definition formatCurlParameters (page : Page) : Result (list string) :=
  match best_video page, renamed_of page with
  | Ok video, Ok r => Ok [src video; "--create-dirs"; "-k"; "-o"; r]
  | Err e, _ => Err e
  | _, Err e => Err e
  end.

(** [SHOWS[showName].feedUrl] is [categoryFeedUrl(showName)], set for every
    show when the script starts. *)
Definition getFeedPageLinks (showName : string) (pageNumber : nat)
  : State -> option (Result (list string) * State) :=
  fun st =>
    match SHOWS !! showName with
    | None => Some (Err TypeError, st)        (* [SHOWS[showName].feedUrl] *)
    | Some _ =>
        let url := feedPageUrl (categoryFeedUrl showName) pageNumber in
        match runFeed (fetchFeed W (length (requests st)) url) [] with
        | Some r => Some (r, set_requests (requests st ++ [FEED url]) st)
        | None => None
        end
    end.

(** The local variables [totalSize] and [videos] of [crawlCategory]; they
    outlive the exception that ends the loop. *)
Record Crawl := { totalSize : number; crawled : list nat }.

(** The body of the [for] loop over the links of one feed page: the page
    object and the size that is added to [totalSize]. *)
Definition crawlLink (showName link : string) : M (nat * number) :=
  l <- getPageVideos link;;
  update_page l (set_show showName);;;
  page <- read_page l;;
  r <- renameEpisode page;;
  update_page l (set_renamed r);;;
  video <- lift (best_video page);;
  console_log ("Adding " +:+ r +:+ ": " +:+ humanize_fileSize W (size video));;;
  ret (l, size video).

Fixpoint crawlLinks (showName : string) (links : list string) (c : Crawl) (st : State)
  : option exn * Crawl * State :=
  match links with
  | [] => (None, c, st)
  | link :: rest =>
      match crawlLink showName link st with
      | (Err e, st') => (Some e, c, st')
      | (Ok (l, sz), st') =>
          crawlLinks showName rest
            {| totalSize := number_add (totalSize c) sz; crawled := crawled c ++ [l] |} st'
      end
  end.

(** [while (true)] inside the [try]: the exception that ends it, with the
    locals and the state at that point.  [None]: [fuel] iterations were not
    enough, or a feed promise never settles. *)
Fixpoint crawlLoop (fuel : nat) (showName : string) (pageNumber : nat) (c : Crawl)
    (st : State) : option (exn * Crawl * State) :=
  match fuel with
  | O => None
  | S fuel' =>
      let st1 := set_console (console st ++ ["Page " +:+ string_of_nat pageNumber]) st in
      match getFeedPageLinks showName pageNumber st1 with
      | None => None
      | Some (Err e, st2) => Some (e, c, st2)
      | Some (Ok links, st2) =>
          match crawlLinks showName links c st2 with
          | (Some e, c', st3) => Some (e, c', st3)
          | (None, c', st3) => crawlLoop fuel' showName (S pageNumber) c' st3
          end
      end
  end.

Definition is_page_not_found (e : exn) : bool :=
  match e with
  | Thrown msg => String.eqb msg "Page not found"
  | _ => false
  end.

(** [fs.writeFileSync(path, data)] *)
Definition writeFile (path : string) (data : File) : M unit :=
  fun st => (Ok tt, set_files (<[path := data]> (files st)) st).

(** [JSON.stringify(CACHE)]: the cached objects as they are now. *)
Definition cacheContents (st : State) : File :=
  CacheFile (omap (fun l => heap st !! l) (CACHE_pages st)) (CACHE_tvdb st).

(** [if (page.subtitles)] *)
Definition truthy (s : option string) : bool :=
  match s with
  | Some x => negb (String.eqb x "")
  | None => false
  end.

Definition ffmpegArguments (video : Video) (subs renamed : string) : list string :=
  ["-hide_banner"; "-n"; "-i"; src video; "-fix_sub_duration"; "-i"; subs;
   "-map"; "0:v"; "-map"; "0:a"; "-c"; "copy"; "-map"; "1";
   "-c:s:0"; "mov_text"; "-metadata:s:s:0"; "language=eng";
   "-disposition:s:0"; "default"; "-metadata:s:v:0"; "handler=English";
   "-metadata:s:a:0"; "handler=English"; "-metadata:s:s:0"; "handler=English";
   renamed].

(** The two commands pushed for the page at [index]. *)
Definition pageCommands (total index : nat) (page : Page) : Result (list string) :=
  match renamed_of page with
  | Err e => Err e
  | Ok r =>
      let echo := "echo " +:+ dquote +:+ "[" +:+ string_of_nat (index + 1) +:+ "/"
                  +:+ string_of_nat total +:+ "]: " +:+ basename W r +:+ dquote in
      if truthy (subtitles page) then
        match best_video page with
        | Err e => Err e
        | Ok video =>
            Ok [echo; "ffmpeg " +:+ shellEscape W
                        (ffmpegArguments video (default "" (subtitles page)) r)]
        end
      else
        match formatCurlParameters page with
        | Err e => Err e
        | Ok args => Ok [echo; "curl " +:+ shellEscape W args]
        end
  end.

Fixpoint manifest (total index : nat) (pages : list Page) : Result (list string) :=
  match pages with
  | [] => Ok []
  | page :: rest =>
      match pageCommands total index page with
      | Err e => Err e
      | Ok cs =>
          match manifest total (S index) rest with
          | Err e => Err e
          | Ok more => Ok (cs ++ more)
          end
      end
  end.

(** [(a, b) => a.renamed.localeCompare(b.renamed)] *)
Definition compareRenamed (a b : string * Page) : Z :=
  localeCompare W (fst a) (fst b).

(** [crawlCategory] from its [catch] on. *)
Definition finishCrawl (showName : string) (e : exn) (c : Crawl) : M unit :=
  (if is_page_not_found e then console_log "Reached the end of the feed."
   else console_error e);;;
  (fun st => writeFile "cache.json" (cacheContents st) st);;;
  console_log ("Total size: " +:+ humanize_fileSize W (totalSize c));;;
  named <- mapM (fun l => page <- read_page l;;
                          r <- lift (renamed_of page);;
                          ret (r, page)) (crawled c);;
  let videos := map snd (sort compareRenamed named) in
  commands <- lift (manifest (length videos) 0 videos);;
  writeFile ("download-" +:+ showName +:+ ".sh") (ScriptFile ("set -e" :: commands)).

Definition crawlCategory (fuel : nat) (showName : string) (st : State)
  : option (Result unit * State) :=
  match crawlLoop fuel showName 1 {| totalSize := Num 0; crawled := [] |} st with
  | None => None
  | Some (e, c, st1) => Some (finishCrawl showName e c st1)
  end.

End Scraper.

(** ** The earlier script, [index.js]

    [getFileSize], [getJWConfig], [getVideosFromJWPlayer],
    [getIframeVideosOfQuality] are the same text in both scripts; the earlier
    one has no subtitles, no resolver, keeps the pages directly in [CACHE]
    and orders the manifest by episode number. *)

Definition take_digits (s : string) : string :=
  substring 0 (String.length s - String.length (strip_digits s)) s.

(** [/\((\d+\))$/] anchored at the head of [s]: the capture group 1. *)
Definition episodeNumber_at (s : string) : option string :=
  match s with
  | String "(" (String c t as r) =>
      if is_digit c then
        match strip_digits r with
        | ")" => Some (take_digits r +:+ ")")
        | _ => None
        end
      else None
  | _ => None
  end.

(** [title.match(/\((\d+\))$/)], reduced to its capture group 1. *)
Fixpoint episodeNumberMatch (s : string) : option string :=
  match episodeNumber_at s with
  | Some g => Some g
  | None =>
      match s with
      | EmptyString => None
      | String _ t => episodeNumberMatch t
      end
  end.

Definition number_sub (a b : number) : number :=
  match a, b with
  | Num x, Num y => Num (x - y)
  | _, _ => NaN
  end.

(** What [sort] makes of the value of a comparator: [NaN] counts as [0]. *)
Definition compare_value (n : number) : Z :=
  match n with Num z => z | NaN => 0%Z end.

Module Legacy.
Section Scraper.

Variable W : World.

Definition SHOWS : list string := [
  "alaska-week"; "california-missions"; "californias-communities";
  "californias-gold"; "californias-golden-coast"; "californias-golden-fairs";
  "californias-golden-parks"; "californias-green"; "californias-water";
  "crossroads"; "downtown"; "our-neighborhoods"; "palm-springs-week";
  "road-trip"; "specials"; "the-bench"; "visiting"
].

(** [SHOW_FEED_URLS[showName]], as the string it becomes in a template. *)
Definition SHOW_FEED_URLS (showName : string) : string :=
  if existsb (String.eqb showName) SHOWS then categoryFeedUrl showName else "undefined".

Definition getVideosFromIframe (title pageUrl sourceUrl : string) : M Page :=
  response <- request (GET sourceUrl) (fun n => fetchIframe W n sourceUrl);;
  let videoAttributes := doc_sources response in
  vs <- getIframeVideosOfQuality W videoAttributes sourceUrl no_videos SD;;
  vs <- getIframeVideosOfQuality W videoAttributes sourceUrl vs HD;;
  ret {| pageUrl := pageUrl; sourceUrl := sourceUrl; title := title;
         videos := vs; subtitles := None; show := None; renamed := None |}.

Definition getPageVideos (pageUrl : string) : M nat :=
  fun st =>
    match CACHE_pages st !! pageUrl with
    | Some l => (Ok l, st)
    | None =>
        (response <- request (GET pageUrl) (fun n => fetchPage W n pageUrl);;
         let title := doc_title response in
         match doc_iframes response with
         | [iframeUrl] =>
             page <- getVideosFromIframe title pageUrl iframeUrl;;
             l <- alloc page;;
             cache_page pageUrl l;;;
             ret l
         | _ :: _ :: _ =>
             throw (Thrown ("Found more than one matching iframe: " +:+ pageUrl))
         | [] =>
             match doc_jwVideo response with
             | [jwSrc] =>
                 page <- getVideosFromJWPlayer W title pageUrl ("https:" +:+ jwSrc);;
                 l <- alloc page;;
                 cache_page pageUrl l;;;
                 ret l
             | _ :: _ :: _ =>
                 throw (Thrown ("Found more than one JW Player <video> tag! " +:+ pageUrl))
             | [] =>
                 throw (Thrown ("Couldn't find a JW Player <video> tag! " +:+ pageUrl))
             end
         end) st
    end.

(** The file name [formatWgetParameters] builds from the title. *)
Definition fileName (page : Page) : string :=
  let bareName :=
    replaceLeftmost (dashed_at ("California" +:+ right_quote +:+ "s Gold"))
                    " - California's Gold" (title page) in
  let title := replaceFirst right_quote "'" bareName in
  "videos/" +:+ sanitize W title +:+ ".mp4".

Definition formatWgetParameters (page : Page) : Result (list string) :=
  match best_video page with
  | Ok video => Ok [src video; "--no-check-certificate"; "-nc"; "-O"; fileName page]
  | Err e => Err e
  end.

Definition getFeedPageLinks (showName : string) (pageNumber : nat)
  : State -> option (Result (list string) * State) :=
  fun st =>
    let url := feedPageUrl (SHOW_FEED_URLS showName) pageNumber in
    match runFeed (fetchFeed W (length (requests st)) url) [] with
    | Some r => Some (r, set_requests (requests st ++ [FEED url]) st)
    | None => None
    end.

Definition crawlLink (link : string) : M (nat * number) :=
  l <- getPageVideos link;;
  page <- read_page l;;
  video <- lift (best_video page);;
  console_log ("Adding " +:+ title page +:+ ": " +:+ humanize_fileSize W (size video));;;
  ret (l, size video).

Fixpoint crawlLinks (links : list string) (c : Crawl) (st : State)
  : option exn * Crawl * State :=
  match links with
  | [] => (None, c, st)
  | link :: rest =>
      match crawlLink link st with
      | (Err e, st') => (Some e, c, st')
      | (Ok (l, sz), st') =>
          crawlLinks rest
            {| totalSize := number_add (totalSize c) sz; crawled := crawled c ++ [l] |} st'
      end
  end.

Fixpoint crawlLoop (fuel : nat) (showName : string) (pageNumber : nat) (c : Crawl)
    (st : State) : option (exn * Crawl * State) :=
  match fuel with
  | O => None
  | S fuel' =>
      let st1 := set_console (console st ++ ["Page " +:+ string_of_nat pageNumber]) st in
      match getFeedPageLinks showName pageNumber st1 with
      | None => None
      | Some (Err e, st2) => Some (e, c, st2)
      | Some (Ok links, st2) =>
          match crawlLinks links c st2 with
          | (Some e, c', st3) => Some (e, c', st3)
          | (None, c', st3) => crawlLoop fuel' showName (S pageNumber) c' st3
          end
      end
  end.

(** The comparator of [videos.sort]: episodes without a number first, the
    others by their number. *)
Definition compareEpisodes (a b : Page) : Z :=
  match episodeNumberMatch (title a) with
  | None => (-1)%Z
  | Some aMatch =>
      match episodeNumberMatch (title b) with
      | None => 1%Z
      | Some bMatch => compare_value (number_sub (parseInt W aMatch) (parseInt W bMatch))
      end
  end.

Fixpoint commandsOf (pages : list Page) : Result (list string) :=
  match pages with
  | [] => Ok []
  | page :: rest =>
      match formatWgetParameters page with
      | Err e => Err e
      | Ok args =>
          match commandsOf rest with
          | Err e => Err e
          | Ok more => Ok (("wget " +:+ join " " args) :: more)
          end
      end
  end.

Definition finishCrawl (showName : string) (e : exn) (c : Crawl) : M unit :=
  (if is_page_not_found e then console_log "Reached the end of the feed."
   else console_error e);;;
  console_log ("Total size: " +:+ humanize_fileSize W (totalSize c));;;
  pages <- mapM read_page (crawled c);;
  commands <- lift (commandsOf (sort compareEpisodes pages));;
  writeFile ("download-" +:+ showName +:+ ".sh") (ScriptFile commands).

Definition crawlCategory (fuel : nat) (showName : string) (st : State)
  : option (Result unit * State) :=
  match crawlLoop fuel showName 1 {| totalSize := Num 0; crawled := [] |} st with
  | None => None
  | Some (e, c, st1) => Some (finishCrawl showName e c st1)
  end.

End Scraper.
End Legacy.

(** ** Sample collaborators, for the concrete runs *)

Module Sample.

Fixpoint digits_value (s : string) (acc : Z) : Z :=
  match s with
  | EmptyString => acc
  | String c t =>
      if is_digit c then digits_value t (acc * 10 + Z.of_nat (nat_of_ascii c - 48))%Z
      else acc
  end.

(** [parseInt] on a string that starts with decimal digits, [NaN] otherwise. *)
Definition parseInt_dec (s : string) : number :=
  match s with
  | String c _ => if is_digit c then Num (digits_value s 0) else NaN
  | EmptyString => NaN
  end.

(** sanitize-filename restricted to the characters it always removes. *)
Definition illegal (c : ascii) : bool :=
  existsb (Nat.eqb (nat_of_ascii c)) [47; 63; 60; 62; 92; 58; 42; 124; 34]%nat.

Fixpoint sanitize_chars (s : string) : string :=
  match s with
  | EmptyString => EmptyString
  | String c t => if illegal c then sanitize_chars t else String c (sanitize_chars t)
  end.

(** Comparison by bytes, which is how [localeCompare] orders two strings
    that first differ in two letters of the same case. *)
Definition localeCompare_bytes (a b : string) : Z :=
  match String.compare a b with
  | Lt => (-1)%Z
  | Eq => 0%Z
  | Gt => 1%Z
  end.

(** shell-escape on arguments that need no quoting. *)
Definition shellEscape_plain (args : list string) : string := join " " args.

Fixpoint after_last_slash (s : string) : option string :=
  match s with
  | EmptyString => None
  | String c t =>
      match after_last_slash t with
      | Some r => Some r
      | None => if Ascii.eqb c "/" then Some t else None
      end
  end.

Definition basename_posix (s : string) : string :=
  match after_last_slash s with Some r => r | None => s end.

Definition humanize_bytes (n : number) : string :=
  match n with
  | Num z => string_of_Z z +:+ " B"
  | NaN => "NaN"
  end.

(** A fuzzy set that knows exact matches only. *)
Definition FuzzySet_exact (names : list string) (query : string) : option (list (Q * string)) :=
  if existsb (String.eqb query) names then Some [(1%Q, query)] else None.

(** A world from its network and its JSON parser. *)
Definition world
    (pages : nat -> string -> option PageDocument)
    (iframes : nat -> string -> option IframeDocument)
    (scripts : nat -> string -> option string)
    (heads : nat -> string -> option (gmap string string))
    (feeds : nat -> string -> list FeedEvent)
    (catalog : nat -> Z -> option (list Episode))
    (json : string -> option JWConfig) : World :=
  {| fetchPage := pages; fetchIframe := iframes; fetchScript := scripts;
     headRequest := heads; fetchFeed := feeds; getEpisodesBySeriesId := catalog;
     JSON_parse := json; parseInt := parseInt_dec; sanitize := sanitize_chars;
     FuzzySet_get := FuzzySet_exact; localeCompare := localeCompare_bytes;
     shellEscape := shellEscape_plain; basename := basename_posix;
     humanize_fileSize := humanize_bytes |}.

(** The same world with another fuzzy set. *)
Definition with_fuzzy (fuzzy : list string -> string -> option (list (Q * string)))
    (w : World) : World :=
  {| fetchPage := fetchPage w; fetchIframe := fetchIframe w; fetchScript := fetchScript w;
     headRequest := headRequest w; fetchFeed := fetchFeed w;
     getEpisodesBySeriesId := getEpisodesBySeriesId w;
     JSON_parse := JSON_parse w; parseInt := parseInt w; sanitize := sanitize w;
     FuzzySet_get := fuzzy; localeCompare := localeCompare w;
     shellEscape := shellEscape w; basename := basename w;
     humanize_fileSize := humanize_fileSize w |}.

Definition no_page : nat -> string -> option PageDocument := fun _ _ => None.
Definition no_iframe : nat -> string -> option IframeDocument := fun _ _ => None.
Definition no_script : nat -> string -> option string := fun _ _ => None.
Definition no_head : nat -> string -> option (gmap string string) := fun _ _ => None.
Definition no_feed : nat -> string -> list FeedEvent := fun _ _ => [EvMeta "Page not found"].
Definition no_catalog : nat -> Z -> option (list Episode) := fun _ _ => None.
Definition no_json : string -> option JWConfig := fun _ => None.

(** The state of a fresh process with an empty [cache.json]. *)
Definition start : State :=
  {| heap := []; CACHE_pages := ∅; CACHE_tvdb := ∅; fuzzysets := ∅;
     requests := []; console := []; console_errors := []; files := ∅ |}.

(** Every probe answers with a [content-length] of 1024. *)
Definition sized : nat -> string -> option (gmap string string) :=
  fun _ _ => Some {[ "content-length" := "1024" ]}.

(** Every probe answers without a [content-length]. *)
Definition unsized : nat -> string -> option (gmap string string) :=
  fun _ _ => Some ∅.

End Sample.

(** * The vocabulary of the statements and the sample inputs *)

(** The script content holds the two markers of the configuration. *)
Definition has_markers (content : string) : Prop :=
  exists pre mid post, content = pre +:+ jw_open +:+ mid +:+ jw_close +:+ post.

(** [logged rs st]: the state [st] after the requests [rs], and nothing else. *)
Definition logged (rs : list Request) (st : State) : State :=
  set_requests (requests st ++ rs) st.

(** A computation whose only effect is on the request log. *)
Definition only_logs {A : Type} (m : M A) : Prop :=
  forall st, exists rs, snd (m st) = logged rs st.

Definition probe_world (heads : nat -> string -> option (gmap string string)) : World :=
  Sample.world Sample.no_page Sample.no_iframe Sample.no_script heads
               Sample.no_feed Sample.no_catalog Sample.no_json.

Definition markerless_world : World :=
  Sample.world
    (fun _ url => Some {| doc_title := "Old Faithful"; doc_iframes := [];
                          doc_jwVideo := ["//content.jwplatform.com/players/abc.js"] |})
    Sample.no_iframe
    (fun _ _ => Some "var jwConfig = null; // end config")
    Sample.no_head Sample.no_feed Sample.no_catalog Sample.no_json.

(** What [getPageVideos] does with an extracted page: a new object, stored
    under the page URL, and returned. *)
Definition store (pageUrl : string) (page : Page) : M nat :=
  l <- alloc page;; cache_page pageUrl l;;; ret l.

(** A page with one iframe and one player script, an iframe document with
    one SD source, and probes that answer with a size. *)
Definition both_markers_doc : PageDocument :=
  {| doc_title := "Old Faithful";
     doc_iframes := ["https://vhost.chapman.edu/embed/112"];
     doc_jwVideo := ["//content.jwplatform.com/players/abc.js"] |}.

Definition both_markers_world : World :=
  Sample.world
    (fun _ _ => Some both_markers_doc)
    (fun _ _ => Some {| doc_sources := [{| attr_src := "https://vhost.chapman.edu/112_sd.mp4";
                                           attr_label := Some "SD" |}];
                        doc_tracks := [] |})
    Sample.no_script Sample.sized Sample.no_feed Sample.no_catalog Sample.no_json.

Definition both_markers_page : Page :=
  {| pageUrl := "https://blogs.chapman.edu/old-faithful/";
     sourceUrl := "https://vhost.chapman.edu/embed/112";
     title := "Old Faithful";
     videos := {| videos_HD := None;
                  videos_SD := Some {| src := "https://vhost.chapman.edu/112_sd.mp4";
                                       label := "SD"; size := Num 1024 |} |};
     subtitles := None; show := None; renamed := None |}.

Definition both_markers_state : State :=
  {| heap := [both_markers_page];
     CACHE_pages := {[ "https://blogs.chapman.edu/old-faithful/" := 0 ]};
     CACHE_tvdb := ∅; fuzzysets := ∅;
     requests := [GET "https://blogs.chapman.edu/old-faithful/";
                  GET "https://vhost.chapman.edu/embed/112";
                  HEAD "https://vhost.chapman.edu/112_sd.mp4"];
     console := []; console_errors := []; files := ∅ |}.

Definition neither_doc : PageDocument :=
  {| doc_title := "Old Faithful"; doc_iframes := []; doc_jwVideo := [] |}.

Definition neither_world : World :=
  Sample.world (fun _ _ => Some neither_doc) Sample.no_iframe Sample.no_script
               Sample.no_head Sample.no_feed Sample.no_catalog Sample.no_json.

(** The sources that end the scan and the sources that make the HD video. *)
Definition ends_scan (s : Source) : bool := negb (is_hls s) && has_width 480 s.

Definition makes_HD (s : Source) : bool := negb (is_hls s) && has_width 720 s.

(** The probes of a run of sources: one for every source that is not hls. *)
Definition probes (l : list Source) : list Request :=
  map (fun s => HEAD (source_url s)) (List.filter (fun s => negb (is_hls s)) l).

(** Every probe of a source of [l] is answered. *)
Definition probes_answered (W : World) (l : list Source) : Prop :=
  forall n s, In s l -> is_hls s = false -> headRequest W n (source_url s) <> None.

(** A player script whose sources are, in the order of the file: an hls
    stream, a 320 wide, a 480 wide and a 720 wide video. *)
Definition source_hls : Source :=
  {| source_type := Some "hls"; file := Some "//content.jwplatform.com/manifests/abc.m3u8";
     width := None |}.

Definition source_320 : Source :=
  {| source_type := Some "video/mp4"; file := Some "//content.jwplatform.com/videos/abc-320.mp4";
     width := Some 320%Z |}.

Definition source_480 : Source :=
  {| source_type := Some "video/mp4"; file := Some "//content.jwplatform.com/videos/abc-480.mp4";
     width := Some 480%Z |}.

Definition source_720 : Source :=
  {| source_type := Some "video/mp4"; file := Some "//content.jwplatform.com/videos/abc-720.mp4";
     width := Some 720%Z |}.

Definition player_world (srcs : list Source) : World :=
  Sample.world Sample.no_page Sample.no_iframe
    (fun _ _ => Some "var jwConfig = {}; // end config")
    Sample.sized Sample.no_feed Sample.no_catalog
    (fun _ => Some {| playlist := PlaylistItems [{| sources := Some srcs |}] |}).

(** The file name for a catalog episode, or for none. *)
Definition resolvedName (W : World) (showKey showName episodeName : string)
    (found : option Episode) : string :=
  match found with
  | Some e => assembleFileName W showKey showName (episodeToken e) (name_of e)
  | None => assembleFileName W showKey showName "." episodeName
  end.

(** The line logged for a catalog episode, or for none. *)
Definition resolvedLine (episodeName : string) (found : option Episode) : string :=
  match found with
  | Some e => "Matched: " +:+ episodeName +:+ " " +:+ right_arrow +:+ " " +:+ name_of e
  | None => "Couldn't find a matching episode for " +:+ episodeName
  end.

Definition said (lines : list string) (st : State) : State :=
  set_console (console st ++ lines) st.

(** The catalog of the series [id] is at hand: cached, or answered now. *)
Definition catalog_at (W : World) (id : Z) (st : State) (episodes0 : list Episode) : Prop :=
  CACHE_tvdb st !! id = Some episodes0 \/
  (CACHE_tvdb st !! id = None /\
   getEpisodesBySeriesId W (length (requests st)) id = Some episodes0).

(** The names the fuzzy set of a show is asked with: those it was built
    from, or else the names of the catalog. *)
Definition index_names (st : State) (showKey : string) (episodes : list Episode)
  : list string :=
  match fuzzysets st !! showKey with
  | Some names => names
  | None => map name_of episodes
  end.

(** A catalog with two episodes whose names start alike. *)
Definition old_faithful_inn : Episode :=
  {| episodeName := Some "Old Faithful Inn"; airedSeason := 1; airedEpisodeNumber := 5 |}.

Definition old_faithful : Episode :=
  {| episodeName := Some "Old Faithful"; airedSeason := 2; airedEpisodeNumber := 12 |}.

Definition unnamed_episode : Episode :=
  {| episodeName := None; airedSeason := 3; airedEpisodeNumber := 1 |}.

Definition gold_catalog : list Episode := [unnamed_episode; old_faithful_inn; old_faithful].

(** The double nearest to 0.6999, exactly. *)
Definition score_6999 : Q := 1576034689598305 # 2251799813685248.

(** A world whose fuzzy set answers every query with "Old Faithful" at the
    given score. *)
Definition catalog_world (score : Q) : World :=
  Sample.with_fuzzy (fun _ _ => Some [(score, "Old Faithful")])
    (Sample.world Sample.no_page Sample.no_iframe Sample.no_script Sample.no_head
       Sample.no_feed (fun _ _ => Some gold_catalog) Sample.no_json).

Definition old_faithful_page : Page :=
  {| pageUrl := "https://blogs.chapman.edu/old-faithful/";
     sourceUrl := "https://vhost.chapman.edu/embed/112";
     title := "Old Faithful " +:+ en_dash +:+ " California's Gold (112)";
     videos := {| videos_HD := None;
                  videos_SD := Some {| src := "https://vhost.chapman.edu/112_sd.mp4";
                                       label := "SD"; size := Num 1024 |} |};
     subtitles := None; show := Some "californias-gold"; renamed := None |}.

(** The title-only name: the placeholder [.] for the episode number. *)
Definition titleOnlyName (W : World) (showKey : string) (s : Show) (page : Page) : string :=
  assembleFileName W showKey (name s) "." (scrapedEpisodeName (name s) (title page)).

Definition downtown_page : Page :=
  {| pageUrl := "https://blogs.chapman.edu/downtown/";
     sourceUrl := "https://vhost.chapman.edu/embed/7";
     title := "Angels Flight " +:+ em_dash +:+ " Downtown";
     videos := no_videos; subtitles := None; show := Some "downtown"; renamed := None |}.

(** A show with a [tvdb_id], nothing cached, and a catalog that does not
    answer: [renameEpisode] fails. *)
Definition offline_world : World :=
  Sample.world Sample.no_page Sample.no_iframe Sample.no_script Sample.no_head
    Sample.no_feed Sample.no_catalog Sample.no_json.

(** An event that leaves the promise of [getFeedPageLinks] pending. *)
Definition quiet (ev : FeedEvent) : bool :=
  match ev with
  | EvReadable _ => true
  | EvMeta t => negb (startsWith t "Page not found")
  | EvError _ | EvEnd => false
  end.

(** The URL of the feed page [n] of a show, and the line logged for it. *)
Definition feedPage (showName : string) (n : nat) : string :=
  feedPageUrl (categoryFeedUrl showName) n.

Definition pageLine (n : nat) : string := "Page " +:+ string_of_nat n.

(** The state after the feed pages [n], ..., [n + k - 1] were asked for and
    none of them had a link. *)
Definition paged (showName : string) (n k : nat) (st : State) : State :=
  said (map pageLine (seq n k)) (logged (map (fun i => FEED (feedPage showName i)) (seq n k)) st).

(** A page the manifest can be written for: it has its file name and a video
    of the better quality. *)
Definition good (p : Page) : Prop :=
  is_Some (renamed p) /\ is_Some (get_video (best_quality p) (videos p)).

(** Every good page of the heap of [st] is a good page of the heap of [st']. *)
Definition keeps_good (st st' : State) : Prop :=
  forall l p, heap st !! l = Some p -> good p ->
    exists p', heap st' !! l = Some p' /\ good p'.

(** A computation that leaves the heap as it is. *)
Definition same_heap {A : Type} (m : M A) : Prop :=
  forall st, heap (snd (m st)) = heap st.

(** A computation that keeps the good pages. *)
Definition preserves {A : Type} (m : M A) : Prop :=
  forall st, keeps_good st (snd (m st)).

(** The pages crawled so far are good pages of the heap. *)
Definition crawl_inv (c : Crawl) (st : State) : Prop :=
  Forall (fun l => exists p, heap st !! l = Some p /\ good p) (crawled c).

(** The pages of the locations [ls] with their file names, read from the
    heap [h]. *)
Fixpoint named_of (h : list Page) (ls : list nat) : Result (list (string * Page)) :=
  match ls with
  | [] => Ok []
  | l :: ls' =>
      match h !! l with
      | None => Err TypeError
      | Some p =>
          match renamed p with
          | None => Err TypeError
          | Some r =>
              match named_of h ls' with
              | Ok rest => Ok ((r, p) :: rest)
              | Err e => Err e
              end
          end
      end
  end.

(** [page.renamed] of the page object at [l]. *)
Definition read_named (l : nat) : M (string * Page) :=
  page <- read_page l;; r <- lift (renamed_of page);; ret (r, page).

(** The state after the [catch] of [crawlCategory]. *)
Definition caught (e : exn) (st : State) : State :=
  if is_page_not_found e then said ["Reached the end of the feed."] st
  else set_console_errors (console_errors st ++ [e]) st.

(** The state before the pages are sorted: the cache is written and the
    total size logged. *)
Definition flushed (W : World) (e : exn) (c : Crawl) (st : State) : State :=
  said ["Total size: " +:+ humanize_fileSize W (totalSize c)]
    (set_files (<["cache.json" := cacheContents (caught e st)]> (files (caught e st)))
       (caught e st)).

Definition scriptName (showName : string) : string := "download-" +:+ showName +:+ ".sh".

Definition fresh_crawl : Crawl := {| totalSize := Num 0; crawled := [] |}.

(** A show whose first feed page has no link and whose second is the
    "Page not found" page. *)
Definition short_feed : nat -> string -> list FeedEvent :=
  fun _ url =>
    if String.eqb url "https://blogs.chapman.edu/huell-howser-archives/category/downtown/feed/atom/?paged=1"
    then [EvMeta "Downtown"; EvEnd]
    else [EvMeta "Page not found"; EvEnd].

Definition short_world : World :=
  Sample.world Sample.no_page Sample.no_iframe Sample.no_script Sample.no_head
    short_feed Sample.no_catalog Sample.no_json.

(** [b] does not come before [a] in the order of the comparator. *)
Definition not_after {A : Type} (cmp : A -> A -> Z) (a b : A) : Prop := (0 <= cmp b a)%Z.

(** A feed of three posts, in the order Bravo, Alpha, Charlie. *)
Definition post (k : string) : string := "https://blogs.chapman.edu/huell-howser-archives/" +:+ k +:+ "/".

Definition three_feed : nat -> string -> list FeedEvent :=
  fun _ url =>
    if String.eqb url (feedPageUrl (categoryFeedUrl "downtown") 1)
    then [EvMeta "Downtown"; EvReadable [post "bravo"; post "alpha"]; EvReadable [post "charlie"]; EvEnd]
    else [EvMeta "Page not found"; EvEnd].

Definition three_pages (suffix : string -> string) : nat -> string -> option PageDocument :=
  fun _ url =>
    let t := if String.eqb url (post "alpha") then "Alpha"
             else if String.eqb url (post "bravo") then "Bravo" else "Charlie" in
    Some {| doc_title := suffix t;
            doc_iframes := ["https://vhost.chapman.edu/embed/" +:+ t]; doc_jwVideo := [] |}.

Definition three_iframes : nat -> string -> option IframeDocument :=
  fun _ url =>
    Some {| doc_sources := [{| attr_src := url +:+ ".mp4"; attr_label := Some "SD" |}];
            doc_tracks := [] |}.

Definition three_world (suffix : string -> string) : World :=
  Sample.world (three_pages suffix) three_iframes Sample.no_script Sample.sized
    three_feed Sample.no_catalog Sample.no_json.

Definition downtown_world : World :=
  three_world (fun t => t +:+ " " +:+ em_dash +:+ " Downtown").

Definition numbered (t : string) : string :=
  t +:+ (if String.eqb t "Alpha" then " (2)" else if String.eqb t "Bravo" then " (3)" else " (1)").

(** The state in which the loop of the three-post crawl ends. *)
Definition downtown_end : State :=
  Eval vm_compute in
    match crawlLoop downtown_world 5 "downtown" 1 fresh_crawl Sample.start with
    | Some (_, _, st) => st
    | None => Sample.start
    end.

Definition echo_line (i : string) (file : string) : string :=
  "echo " +:+ dquote +:+ "[" +:+ i +:+ "/3]: " +:+ file +:+ dquote.

Definition downtown_script : list string :=
  ["set -e";
   echo_line "1" "Downtown.Alpha.mp4";
   "curl https://vhost.chapman.edu/embed/Alpha.mp4 --create-dirs -k -o videos/downtown/Downtown.Alpha.mp4";
   echo_line "2" "Downtown.Bravo.mp4";
   "curl https://vhost.chapman.edu/embed/Bravo.mp4 --create-dirs -k -o videos/downtown/Downtown.Bravo.mp4";
   echo_line "3" "Downtown.Charlie.mp4";
   "curl https://vhost.chapman.edu/embed/Charlie.mp4 --create-dirs -k -o videos/downtown/Downtown.Charlie.mp4"].

Definition downtown_page_of (t : string) : Page :=
  {| pageUrl := "https://blogs.chapman.edu/huell-howser-archives/"
                +:+ (if String.eqb t "Alpha" then "alpha"
                     else if String.eqb t "Bravo" then "bravo" else "charlie") +:+ "/";
     sourceUrl := "https://vhost.chapman.edu/embed/" +:+ t;
     title := t +:+ " " +:+ em_dash +:+ " Downtown";
     videos := {| videos_HD := None;
                  videos_SD := Some {| src := "https://vhost.chapman.edu/embed/" +:+ t +:+ ".mp4";
                                       label := "SD"; size := Num 1024 |} |};
     subtitles := None; show := Some "downtown";
     renamed := Some ("videos/downtown/Downtown." +:+ t +:+ ".mp4") |}.

(** ** Further vocabulary and sample inputs *)

(** The links of the readable events of a stream, in the order they come. *)
Definition links_of (events : list FeedEvent) : list string :=
  flat_map (fun ev => match ev with EvReadable items => items | _ => [] end) events.

(** [pat] occurs in [s]. *)
Definition occurs (pat s : string) : Prop :=
  exists pre post, s = pre +:+ pat +:+ post.

(** The video [v] was made from the source [s] for the quality [q]. *)
Definition made_from (q : Quality) (s : Source) (v : Video) : Prop :=
  is_hls s = false /\
  has_width (match q with HD => 720 | SD => 480 end)%Z s = true /\
  src v = source_url s /\ label v = quality_label q.

(** Every video of [vs'] is one of [vs] or was made from a source of [l]. *)
Definition videos_from (l : list Source) (vs vs' : Videos) : Prop :=
  forall q v, get_video q vs' = Some v ->
    get_video q vs = Some v \/ exists s, In s l /\ made_from q s v.

(** The page and the state of a run of [getVideosFromJWPlayer] on the sample
    player script. *)
Definition player_page : Page :=
  Eval vm_compute in
    match fst (getVideosFromJWPlayer
                 (player_world [source_hls; source_320; source_480; source_720])
                 "Old Faithful" "https://blogs.chapman.edu/old-faithful/"
                 "https://content.jwplatform.com/players/abc.js" Sample.start) with
    | Ok p => p
    | Err _ => both_markers_page
    end.

Definition player_state : State :=
  Eval vm_compute in
    snd (getVideosFromJWPlayer
           (player_world [source_hls; source_320; source_480; source_720])
           "Old Faithful" "https://blogs.chapman.edu/old-faithful/"
           "https://content.jwplatform.com/players/abc.js" Sample.start).

(** The page [p'] is the page [p], but for its [show] and its [renamed]. *)
Definition same_content (p p' : Page) : Prop :=
  pageUrl p' = pageUrl p /\ sourceUrl p' = sourceUrl p /\ title p' = title p /\
  videos p' = videos p /\ subtitles p' = subtitles p.

(** From [st] to [st'] the store has only grown: every cached page and every
    cached catalog is still cached, and every page object is still there
    with the same content. *)
Definition extends (st st' : State) : Prop :=
  (forall url l, CACHE_pages st !! url = Some l -> CACHE_pages st' !! url = Some l) /\
  (forall id episodes, CACHE_tvdb st !! id = Some episodes ->
     CACHE_tvdb st' !! id = Some episodes) /\
  (forall l p, heap st !! l = Some p ->
     exists p', heap st' !! l = Some p' /\ same_content p p').

(** Every entry of [CACHE.pages] is a page object whose [pageUrl] is its key. *)
Definition cache_wf (st : State) : Prop :=
  forall url l, CACHE_pages st !! url = Some l ->
    exists p, heap st !! l = Some p /\ pageUrl p = url.

(** The store has only grown and is still well formed if it was. *)
Definition grows (st st' : State) : Prop :=
  extends st st' /\ (cache_wf st -> cache_wf st').

(** A computation under which the store only grows. *)
Definition growing {A : Type} (m : M A) : Prop :=
  forall st, grows st (snd (m st)).

(** The state in which the three-post crawl returns. *)
Definition downtown_done : State :=
  Eval vm_compute in
    match crawlCategory downtown_world 5 "downtown" Sample.start with
    | Some (_, st) => st
    | None => Sample.start
    end.

(** The state of the three-post crawl when the links of its first feed page
    are read, and when they are crawled. *)
Definition downtown_links_read : State :=
  logged [FEED (feedPage "downtown" 1)] (said [pageLine 1] Sample.start).

Definition downtown_links_done : State :=
  Eval vm_compute in
    snd (crawlLinks downtown_world "downtown" [post "bravo"; post "alpha"; post "charlie"]
           fresh_crawl downtown_links_read).

(** The size of the video that the manifest downloads for the page object
    at [l]. *)
Definition size_at (st : State) (l : nat) : number :=
  match heap st !! l with
  | Some p => match best_video p with Ok v => size v | Err _ => NaN end
  | None => NaN
  end.

(** [totalSize += size], from [0], over the sizes in their order. *)
Definition sum_sizes (sizes : list number) : number := fold_left number_add sizes (Num 0).

(** [totalSize] is the sum of the sizes of the pages crawled so far, which
    are on the heap. *)
Definition total_inv (c : Crawl) (st : State) : Prop :=
  totalSize c = sum_sizes (map (size_at st) (crawled c)) /\
  Forall (fun l => is_Some (heap st !! l)) (crawled c).

(** Posts whose player document has one source, without a label. *)
Definition bare_iframes : nat -> string -> option IframeDocument :=
  fun _ url =>
    Some {| doc_sources := [{| attr_src := url +:+ ".mp4"; attr_label := None |}];
            doc_tracks := [] |}.

Definition bare_world : World :=
  Sample.world (three_pages (fun t => t)) bare_iframes Sample.no_script Sample.sized
    three_feed Sample.no_catalog Sample.no_json.

(** The state after [getPageVideos] of the post Alpha, from the start. *)
Definition bare_state : State :=
  Eval vm_compute in snd (getPageVideos bare_world (post "alpha") Sample.start).

(** An episode name without a hyphen, without the byte that starts the two
    dashes, and that does not end in a space. *)
Fixpoint plain_name (e : string) : bool :=
  match e with
  | EmptyString => true
  | String c t =>
      negb (Ascii.eqb c "-") && negb (Ascii.eqb c "226") &&
      (negb (Ascii.eqb c " ") || negb (String.eqb t "")) && plain_name t
  end.

(** [\d*] matches the whole of [s]. *)
Fixpoint all_digits (s : string) : bool :=
  match s with
  | EmptyString => true
  | String c t => is_digit c && all_digits t
  end.

(** The character [d] occurs in [s]. *)
Fixpoint has_char (d : ascii) (s : string) : bool :=
  match s with
  | EmptyString => false
  | String c t => Ascii.eqb c d || has_char d t
  end.

(** The page of Old Faithful as the site titles it, with a typographic
    apostrophe in the show name. *)
Definition old_faithful_site_page : Page :=
  {| pageUrl := "https://blogs.chapman.edu/old-faithful/";
     sourceUrl := "https://vhost.chapman.edu/embed/112";
     title := "Old Faithful" +:+ " " +:+ en_dash +:+ " "
              +:+ ("California" +:+ right_quote +:+ "s Gold") +:+ " (112)";
     videos := {| videos_HD := None;
                  videos_SD := Some {| src := "https://vhost.chapman.edu/112_sd.mp4";
                                       label := "SD"; size := Num 1024 |} |};
     subtitles := None; show := None; renamed := None |}.

(** The videos [vs] are those of the attribute list [attrs]: for each
    quality, the only source labelled with it, or none when there is none. *)
Definition videos_of (attrs : list VideoAttributes) (vs : Videos) : Prop :=
  forall q,
    match get_video q vs with
    | Some v =>
        exists a, List.filter (has_label q) attrs = [a] /\
                  src v = attr_src a /\ label v = quality_label q
    | None => List.filter (has_label q) attrs = []
    end.

(** * Properties *)

(** ** Strings *)

Lemma app_nil_s (s : string) : "" +:+ s = s.
Proof. reflexivity. Qed.

Lemma app_cons_s (a : ascii) (s t : string) : String a s +:+ t = String a (s +:+ t).
Proof. reflexivity. Qed.

Lemma strip_prefix_Some p s r : strip_prefix p s = Some r <-> s = p +:+ r.
Proof.
  revert s; induction p as [|a p IH]; intros s; simpl.
  - rewrite app_nil_s. split; congruence.
  - rewrite app_cons_s. destruct s as [|b s]; [split; discriminate|].
    destruct (Ascii.eqb_spec a b) as [->|Hne].
    + rewrite IH. split; congruence.
    + split; [discriminate | congruence].
Qed.

Lemma strip_prefix_app p r : strip_prefix p (p +:+ r) = Some r.
Proof. now apply strip_prefix_Some. Qed.

Lemma app_assoc_s (a b c : string) : (a +:+ b) +:+ c = a +:+ (b +:+ c).
Proof. induction a as [|x a IH]; [reflexivity|]. rewrite !app_cons_s. now rewrite IH. Qed.

Lemma find_first_Some pat s r :
  find_first pat s = Some r -> exists pre, s = pre +:+ pat +:+ r.
Proof.
  induction s as [|c s IH]; simpl.
  - destruct (strip_prefix pat "") eqn:E; [|discriminate].
    intros [= ->]. apply strip_prefix_Some in E. now exists "".
  - destruct (strip_prefix pat (String c s)) eqn:E.
    + intros [= ->]. apply strip_prefix_Some in E. now exists "".
    + intros H. destruct (IH H) as [pre ->]. now exists (String c pre).
Qed.

Lemma startsWith_true s p : startsWith s p = true -> exists r, s = p +:+ r.
Proof.
  unfold startsWith. destruct (strip_prefix p s) eqn:E; [|discriminate].
  intros _. apply strip_prefix_Some in E. eauto.
Qed.

Lemma find_last_Some pat s b :
  find_last pat s = Some b -> exists post, s = b +:+ pat +:+ post.
Proof.
  revert b; induction s as [|c s IH]; intros b; simpl.
  - destruct (startsWith "" pat) eqn:E; [|discriminate].
    intros [= <-]. now apply startsWith_true in E.
  - destruct (find_last pat s) as [b'|].
    + intros [= <-]. destruct (IH b' eq_refl) as [post ->]. now exists post.
    + destruct (startsWith (String c s) pat) eqn:E; [|discriminate].
      intros [= <-]. now apply startsWith_true in E.
Qed.

Lemma configMatch_Some content g : configMatch content = Some g -> has_markers content.
Proof.
  unfold configMatch.
  destruct (find_first jw_open content) as [body|] eqn:E1; [|discriminate].
  destruct (find_last jw_close body) as [inner|] eqn:E2; [|discriminate].
  intros _. apply find_first_Some in E1 as [pre ->].
  apply find_last_Some in E2 as [post ->]. now exists pre, inner, post.
Qed.

Lemma configMatch_None content : ~ has_markers content -> configMatch content = None.
Proof.
  intros H. destruct (configMatch content) eqn:E; [|reflexivity].
  now apply configMatch_Some in E.
Qed.

Example configMatch_ex :
  configMatch "x; var jwConfig = {a: {}}; // end config {}}; // end config z"
  = Some "{a: {}}; // end config {}}".
Proof. reflexivity. Qed.

Example removeShowName_ex :
  removeShowName "Downtown" "A - B -Downtown (12x) (3)" = "A - B (12x) (3)".
Proof. reflexivity. Qed.

Lemma length_app_s (a b : string) :
  String.length (a +:+ b) = String.length a + String.length b.
Proof. induction a as [|x a IH]; [reflexivity|]. rewrite app_cons_s. simpl. now rewrite IH. Qed.

Lemma suffix_split (a b c d : string) :
  a +:+ b = c +:+ d -> String.length d <= String.length b -> exists x, b = x +:+ d.
Proof.
  revert c; induction a as [|k a IH]; intros c.
  - rewrite app_nil_s. intros -> _. now exists c.
  - destruct c as [|k' c].
    + rewrite app_nil_s, app_cons_s. intros <-. simpl. rewrite length_app_s. lia.
    + rewrite !app_cons_s. intros [= _ H] Hl. exact (IH c H Hl).
Qed.

Lemma find_first_eq pat s :
  find_first pat s =
  match strip_prefix pat s with
  | Some rest => Some rest
  | None => match s with EmptyString => None | String _ t => find_first pat t end
  end.
Proof. now destruct s. Qed.

Lemma find_first_complete pat pre r :
  exists x, find_first pat (pre +:+ pat +:+ r) = Some (x +:+ r).
Proof.
  induction pre as [|c pre IH].
  - rewrite app_nil_s. exists "". now rewrite find_first_eq, strip_prefix_app.
  - rewrite app_cons_s, find_first_eq.
    destruct (strip_prefix pat (String c (pre +:+ pat +:+ r))) as [rest|] eqn:E; [|exact IH].
    apply strip_prefix_Some in E.
    assert (H : String c pre +:+ (pat +:+ r) = pat +:+ rest) by (now rewrite app_cons_s).
    assert (H' : (String c pre +:+ pat) +:+ r = pat +:+ rest) by (now rewrite app_assoc_s).
    symmetry in H'. apply suffix_split in H' as [x ->]; [now exists x|].
    apply (f_equal String.length) in H. rewrite !length_app_s in H. simpl in H. lia.
Qed.

Lemma find_last_starts pat s : startsWith s pat = true -> find_last pat s <> None.
Proof.
  intros H. destruct s as [|c s]; simpl.
  - now rewrite H.
  - destruct (find_last pat s); [discriminate|]. now rewrite H.
Qed.

Lemma startsWith_app p r : startsWith (p +:+ r) p = true.
Proof. unfold startsWith. now rewrite strip_prefix_app. Qed.

Lemma find_last_complete pat mid post : find_last pat (mid +:+ pat +:+ post) <> None.
Proof.
  induction mid as [|c mid IH].
  - rewrite app_nil_s. apply find_last_starts, startsWith_app.
  - rewrite app_cons_s. simpl. now destruct (find_last pat (mid +:+ pat +:+ post)).
Qed.

Lemma configMatch_complete content : has_markers content -> configMatch content <> None.
Proof.
  intros (pre & mid & post & ->). unfold configMatch.
  destruct (find_first_complete jw_open pre (mid +:+ jw_close +:+ post)) as [x ->].
  rewrite <- app_assoc_s.
  destruct (find_last jw_close ((x +:+ mid) +:+ jw_close +:+ post)) eqn:E; [discriminate|].
  now apply find_last_complete in E.
Qed.

(** The regular expression matches exactly the contents with the markers. *)
Lemma configMatch_None_iff content : configMatch content = None <-> ~ has_markers content.
Proof.
  split.
  - intros H Hm. now apply configMatch_complete in Hm.
  - apply configMatch_None.
Qed.

(** ** The monad *)

Lemma bind_Ok {A B : Type} (m : M A) (f : A -> M B) st b st' :
  bind m f st = (Ok b, st') ->
  exists a st1, m st = (Ok a, st1) /\ f a st1 = (Ok b, st').
Proof.
  unfold bind. destruct (m st) as [[a|e] st1]; [eauto | discriminate].
Qed.

Lemma bind_Err {A B : Type} (m : M A) (f : A -> M B) st e st' :
  bind m f st = (Err e, st') ->
  m st = (Err e, st') \/ exists a st1, m st = (Ok a, st1) /\ f a st1 = (Err e, st').
Proof.
  unfold bind. destruct (m st) as [[a|e0] st1]; [eauto | intros [= -> ->]; auto].
Qed.

Lemma logged_nil st : logged [] st = st.
Proof. destruct st; unfold logged, set_requests; simpl. now rewrite app_nil_r. Qed.

Lemma logged_app a b st : logged b (logged a st) = logged (a ++ b) st.
Proof. destruct st; unfold logged, set_requests; simpl. now rewrite app_assoc. Qed.

Lemma logged_cons r rs st : logged (r :: rs) st = logged rs (logged [r] st).
Proof. now rewrite logged_app. Qed.

Lemma requests_logged rs st : requests (logged rs st) = requests st ++ rs.
Proof. reflexivity. Qed.

Lemma length_requests_logged r st :
  length (requests (logged [r] st)) = S (length (requests st)).
Proof. rewrite requests_logged, length_app. simpl. lia. Qed.

Lemma request_eq {A : Type} r (respond : nat -> option A) st :
  request r respond st =
  (match respond (length (requests st)) with
   | Some a => Ok a
   | None => Err RequestError
   end, logged [r] st).
Proof. unfold request. now destruct (respond (length (requests st))). Qed.

Lemma only_logs_ret {A : Type} (a : A) : only_logs (ret a).
Proof. intros st. exists []. now rewrite logged_nil. Qed.

Lemma only_logs_throw {A : Type} (e : exn) : only_logs (@throw A e).
Proof. intros st. exists []. now rewrite logged_nil. Qed.

Lemma only_logs_lift {A : Type} (r : Result A) : only_logs (lift r).
Proof. intros st. exists []. now rewrite logged_nil. Qed.

Lemma only_logs_request {A : Type} r (respond : nat -> option A) :
  only_logs (request r respond).
Proof.
  intros st. exists [r]. unfold request.
  now destruct (respond (length (requests st))).
Qed.

Lemma only_logs_bind {A B : Type} (m : M A) (f : A -> M B) :
  only_logs m -> (forall a, only_logs (f a)) -> only_logs (bind m f).
Proof.
  intros Hm Hf st. unfold bind. destruct (Hm st) as [rs Hrs].
  destruct (m st) as [[a|e] st1]; simpl in Hrs; subst st1.
  - destruct (Hf a (logged rs st)) as [rs' Hrs']. exists (rs ++ rs').
    now rewrite Hrs', logged_app.
  - now exists rs.
Qed.

Section Logs.
Variable W : World.

Lemma getFileSize_logs url st :
  snd (getFileSize W url st) = logged [HEAD url] st.
Proof.
  unfold getFileSize, bind, request.
  destruct (headRequest W (length (requests st)) url) as [headers|]; [|reflexivity].
  now destruct (headers !! "content-length").
Qed.

Lemma getFileSize_only_logs url : only_logs (getFileSize W url).
Proof. intros st. exists [HEAD url]. apply getFileSize_logs. Qed.

Lemma scanSources_only_logs l vs : only_logs (scanSources W l vs).
Proof.
  revert vs; induction l as [|source rest IH]; intros vs; simpl.
  - apply only_logs_ret.
  - destruct (is_hls source); [apply IH|].
    apply only_logs_bind; [apply getFileSize_only_logs|intros sz].
    destruct (has_width 720 source); [apply IH|].
    destruct (has_width 480 source); [apply only_logs_ret | apply IH].
Qed.

Lemma getVideosFromJWPlayer_only_logs t p s : only_logs (getVideosFromJWPlayer W t p s).
Proof.
  unfold getVideosFromJWPlayer.
  apply only_logs_bind; [apply only_logs_request|intros response].
  apply only_logs_bind; [apply only_logs_lift|intros config].
  destruct (playlist config) as [| |[|first items]]; try apply only_logs_throw.
  destruct (sources first); [|apply only_logs_throw].
  apply only_logs_bind; [apply scanSources_only_logs|intros vs; apply only_logs_ret].
Qed.

Lemma getIframeVideosOfQuality_only_logs a s vs q :
  only_logs (getIframeVideosOfQuality W a s vs q).
Proof.
  unfold getIframeVideosOfQuality.
  destruct (List.filter (has_label q) a) as [|v [|v' l]].
  - apply only_logs_ret.
  - apply only_logs_bind; [apply getFileSize_only_logs|intros; apply only_logs_ret].
  - apply only_logs_throw.
Qed.

Lemma getVideosFromIframe_only_logs t p s : only_logs (getVideosFromIframe W t p s).
Proof.
  unfold getVideosFromIframe.
  apply only_logs_bind; [apply only_logs_request|intros response].
  apply only_logs_bind; [apply getIframeVideosOfQuality_only_logs|intros vs].
  apply only_logs_bind; [apply getIframeVideosOfQuality_only_logs|intros vs'].
  apply only_logs_ret.
Qed.

Lemma Legacy_getVideosFromIframe_only_logs t p s :
  only_logs (Legacy.getVideosFromIframe W t p s).
Proof.
  unfold Legacy.getVideosFromIframe.
  apply only_logs_bind; [apply only_logs_request|intros response].
  apply only_logs_bind; [apply getIframeVideosOfQuality_only_logs|intros vs].
  apply only_logs_bind; [apply getIframeVideosOfQuality_only_logs|intros vs'].
  apply only_logs_ret.
Qed.

End Logs.

(** ** The size probe *)

(** C8.  When the HEAD request is answered, [getFileSize] returns 0 if the
    response has no [content-length] header and [parseInt] of the header if
    it has one; in both cases the call succeeds and makes that one request. *)
Theorem getFileSize_content_length (W : World) (url : string) (st : State)
    (headers : gmap string string) :
  headRequest W (length (requests st)) url = Some headers ->
  (headers !! "content-length" = None ->
   getFileSize W url st = (Ok (Num 0), logged [HEAD url] st)) /\
  (forall length, headers !! "content-length" = Some length ->
   getFileSize W url st = (Ok (parseInt W length), logged [HEAD url] st)).
Proof.
  intros H. unfold getFileSize, bind, request. rewrite H.
  split; [intros -> | intros v ->]; reflexivity.
Qed.

Lemma getFileSize_content_length_witness :
  getFileSize (probe_world Sample.unsized) "https://vhost/a.mp4" Sample.start
  = (Ok (Num 0), logged [HEAD "https://vhost/a.mp4"] Sample.start)
  /\ getFileSize (probe_world Sample.sized) "https://vhost/a.mp4" Sample.start
  = (Ok (Num 1024), logged [HEAD "https://vhost/a.mp4"] Sample.start).
Proof.
  split.
  - apply (proj1 (getFileSize_content_length (probe_world Sample.unsized)
                    "https://vhost/a.mp4" Sample.start ∅ eq_refl)).
    reflexivity.
  - apply (proj2 (getFileSize_content_length (probe_world Sample.sized)
                    "https://vhost/a.mp4" Sample.start
                    {[ "content-length" := "1024" ]} eq_refl) "1024").
    reflexivity.
Defined.

(** ** The player configuration *)

(** C10.  On a script content without the two markers [getJWConfig] ends in
    the [TypeError] of indexing [null]; [getVideosFromJWPlayer] and
    [getPageVideos] pass it on as it is: it is none of the strings the
    extractor throws, and nothing is cached. *)
Theorem getJWConfig_without_markers (W : World) (content : string) :
  ~ has_markers content ->
  getJWConfig W content = Err TypeError /\
  (forall title pageUrl sourceUrl st,
     fetchScript W (length (requests st)) sourceUrl = Some content ->
     getVideosFromJWPlayer W title pageUrl sourceUrl st
     = (Err TypeError, logged [GET sourceUrl] st)) /\
  (forall pageUrl jwSrc doc st,
     CACHE_pages st !! pageUrl = None ->
     fetchPage W (length (requests st)) pageUrl = Some doc ->
     doc_iframes doc = [] ->
     doc_jwVideo doc = [jwSrc] ->
     fetchScript W (S (length (requests st))) ("https:" +:+ jwSrc) = Some content ->
     getPageVideos W pageUrl st
     = (Err TypeError, logged [GET pageUrl; GET ("https:" +:+ jwSrc)] st)).
Proof.
  intros Hm. apply configMatch_None in Hm.
  assert (Hc : getJWConfig W content = Err TypeError) by (unfold getJWConfig; now rewrite Hm).
  assert (Hjw : forall title pageUrl sourceUrl st,
     fetchScript W (length (requests st)) sourceUrl = Some content ->
     getVideosFromJWPlayer W title pageUrl sourceUrl st
     = (Err TypeError, logged [GET sourceUrl] st)).
  { intros t p s st Hs. unfold getVideosFromJWPlayer, bind, lift.
    now rewrite request_eq, Hs, Hc. }
  repeat split; [exact Hc | exact Hjw |].
  intros pageUrl jwSrc doc st Hmiss Hpage Hif Hjs Hs.
  unfold getPageVideos. rewrite Hmiss. unfold bind at 1.
  rewrite request_eq, Hpage, Hif, Hjs. unfold bind at 1.
  rewrite Hjw.
  - now rewrite logged_app.
  - now rewrite length_requests_logged.
Qed.

Lemma getJWConfig_without_markers_witness :
  ~ has_markers "var jwConfig = null; // end config" /\
  getPageVideos markerless_world "https://blogs.chapman.edu/old-faithful/" Sample.start
  = (Err TypeError,
     logged [GET "https://blogs.chapman.edu/old-faithful/";
             GET "https://content.jwplatform.com/players/abc.js"] Sample.start).
Proof.
  assert (H : ~ has_markers "var jwConfig = null; // end config")
    by (apply configMatch_None_iff; reflexivity).
  split; [exact H|].
  apply (proj2 (proj2 (getJWConfig_without_markers markerless_world _ H))
           "https://blogs.chapman.edu/old-faithful/"
           "//content.jwplatform.com/players/abc.js"
           {| doc_title := "Old Faithful"; doc_iframes := [];
              doc_jwVideo := ["//content.jwplatform.com/players/abc.js"] |});
    reflexivity.
Defined.

(** ** The page cache *)

Lemma store_eq pageUrl page st :
  store pageUrl page st =
  (Ok (length (heap st)),
   set_CACHE_pages (<[pageUrl := length (heap st)]> (CACHE_pages st))
     (set_heap (heap st ++ [page]) st)).
Proof. reflexivity. Qed.

Section Cache.
Variable W : World.

Lemma getPageVideos_miss pageUrl st :
  CACHE_pages st !! pageUrl = None ->
  getPageVideos W pageUrl st =
  (response <- request (GET pageUrl) (fun n => fetchPage W n pageUrl);;
   match doc_iframes response with
   | [iframeUrl] =>
       page <- getVideosFromIframe W (doc_title response) pageUrl iframeUrl;;
       store pageUrl page
   | _ :: _ :: _ => throw (Thrown ("Found more than one matching iframe: " +:+ pageUrl))
   | [] =>
       match doc_jwVideo response with
       | [jwSrc] =>
           page <- getVideosFromJWPlayer W (doc_title response) pageUrl ("https:" +:+ jwSrc);;
           store pageUrl page
       | _ :: _ :: _ =>
           throw (Thrown ("Found more than one JW Player <video> tag! " +:+ pageUrl))
       | [] => throw (Thrown ("Couldn't find a JW Player <video> tag! " +:+ pageUrl))
       end
   end) st.
Proof. intros H. unfold getPageVideos. now rewrite H. Qed.

Lemma Legacy_getPageVideos_miss pageUrl st :
  CACHE_pages st !! pageUrl = None ->
  Legacy.getPageVideos W pageUrl st =
  (response <- request (GET pageUrl) (fun n => fetchPage W n pageUrl);;
   match doc_iframes response with
   | [iframeUrl] =>
       page <- Legacy.getVideosFromIframe W (doc_title response) pageUrl iframeUrl;;
       store pageUrl page
   | _ :: _ :: _ => throw (Thrown ("Found more than one matching iframe: " +:+ pageUrl))
   | [] =>
       match doc_jwVideo response with
       | [jwSrc] =>
           page <- getVideosFromJWPlayer W (doc_title response) pageUrl ("https:" +:+ jwSrc);;
           store pageUrl page
       | _ :: _ :: _ =>
           throw (Thrown ("Found more than one JW Player <video> tag! " +:+ pageUrl))
       | [] => throw (Thrown ("Couldn't find a JW Player <video> tag! " +:+ pageUrl))
       end
   end) st.
Proof. intros H. unfold Legacy.getPageVideos. now rewrite H. Qed.

(** An extraction followed by [store]: a failure is a failure of the
    extraction, a success has stored the page. *)
Lemma extract_store_Err (m : M Page) pageUrl st e st' :
  only_logs m -> (page <- m;; store pageUrl page) st = (Err e, st') ->
  exists rs, st' = logged rs st.
Proof.
  intros Hm H. apply bind_Err in H as [H | (page & st1 & _ & H)].
  - destruct (Hm st) as [rs Hrs]. rewrite H in Hrs. now exists rs.
  - now rewrite store_eq in H.
Qed.

Lemma extract_store_Ok (m : M Page) pageUrl st l st' :
  (page <- m;; store pageUrl page) st = (Ok l, st') ->
  CACHE_pages st' !! pageUrl = Some l.
Proof.
  intros H. apply bind_Ok in H as (page & st1 & _ & H).
  rewrite store_eq in H. injection H as <- <-. simpl. apply lookup_insert_eq.
Qed.

Lemma getPageVideos_Err pageUrl st e st' :
  getPageVideos W pageUrl st = (Err e, st') -> exists rs, st' = logged rs st.
Proof.
  destruct (CACHE_pages st !! pageUrl) as [l|] eqn:Hc.
  { unfold getPageVideos. now rewrite Hc. }
  rewrite (getPageVideos_miss _ _ Hc). intros H.
  apply bind_Err in H as [H | (doc & st1 & Hr & H)].
  - rewrite request_eq in H. injection H as _ <-. now exists [GET pageUrl].
  - rewrite request_eq in Hr. injection Hr as _ <-.
    assert (Hk : exists rs, st' = logged rs (logged [GET pageUrl] st)).
    { destruct (doc_iframes doc) as [|iframeUrl [|? ?]].
      - destruct (doc_jwVideo doc) as [|jwSrc [|? ?]].
        + injection H as _ <-. exists []. now rewrite logged_nil.
        + eapply extract_store_Err; [apply getVideosFromJWPlayer_only_logs | exact H].
        + injection H as _ <-. exists []. now rewrite logged_nil.
      - eapply extract_store_Err; [apply getVideosFromIframe_only_logs | exact H].
      - injection H as _ <-. exists []. now rewrite logged_nil. }
    destruct Hk as [rs ->]. rewrite logged_app. eauto.
Qed.

Lemma Legacy_getPageVideos_Err pageUrl st e st' :
  Legacy.getPageVideos W pageUrl st = (Err e, st') -> exists rs, st' = logged rs st.
Proof.
  destruct (CACHE_pages st !! pageUrl) as [l|] eqn:Hc.
  { unfold Legacy.getPageVideos. now rewrite Hc. }
  rewrite (Legacy_getPageVideos_miss _ _ Hc). intros H.
  apply bind_Err in H as [H | (doc & st1 & Hr & H)].
  - rewrite request_eq in H. injection H as _ <-. now exists [GET pageUrl].
  - rewrite request_eq in Hr. injection Hr as _ <-.
    assert (Hk : exists rs, st' = logged rs (logged [GET pageUrl] st)).
    { destruct (doc_iframes doc) as [|iframeUrl [|? ?]].
      - destruct (doc_jwVideo doc) as [|jwSrc [|? ?]].
        + injection H as _ <-. exists []. now rewrite logged_nil.
        + eapply extract_store_Err; [apply getVideosFromJWPlayer_only_logs | exact H].
        + injection H as _ <-. exists []. now rewrite logged_nil.
      - eapply extract_store_Err; [apply Legacy_getVideosFromIframe_only_logs | exact H].
      - injection H as _ <-. exists []. now rewrite logged_nil. }
    destruct Hk as [rs ->]. rewrite logged_app. eauto.
Qed.

Lemma getPageVideos_Ok pageUrl st l st' :
  getPageVideos W pageUrl st = (Ok l, st') -> CACHE_pages st' !! pageUrl = Some l.
Proof.
  destruct (CACHE_pages st !! pageUrl) as [l0|] eqn:Hc.
  { unfold getPageVideos. rewrite Hc. now intros [= <- <-]. }
  rewrite (getPageVideos_miss _ _ Hc). intros H.
  apply bind_Ok in H as (doc & st1 & _ & H).
  destruct (doc_iframes doc) as [|iframeUrl [|? ?]]; [|now apply extract_store_Ok in H|discriminate].
  destruct (doc_jwVideo doc) as [|jwSrc [|? ?]]; [discriminate|now apply extract_store_Ok in H|discriminate].
Qed.

Lemma Legacy_getPageVideos_Ok pageUrl st l st' :
  Legacy.getPageVideos W pageUrl st = (Ok l, st') -> CACHE_pages st' !! pageUrl = Some l.
Proof.
  destruct (CACHE_pages st !! pageUrl) as [l0|] eqn:Hc.
  { unfold Legacy.getPageVideos. rewrite Hc. now intros [= <- <-]. }
  rewrite (Legacy_getPageVideos_miss _ _ Hc). intros H.
  apply bind_Ok in H as (doc & st1 & _ & H).
  destruct (doc_iframes doc) as [|iframeUrl [|? ?]]; [|now apply extract_store_Ok in H|discriminate].
  destruct (doc_jwVideo doc) as [|jwSrc [|? ?]]; [discriminate|now apply extract_store_Ok in H|discriminate].
Qed.

End Cache.

(** C9.  After [getPageVideos] has returned a page object for a URL, the
    cache holds that object under the URL, and a second call returns the
    same object and leaves the whole state, request log included, as it
    was.  The same holds for the script without the resolver. *)
Theorem getPageVideos_idempotent (W : World) (pageUrl : string) :
  (forall st l st1,
     getPageVideos W pageUrl st = (Ok l, st1) ->
     CACHE_pages st1 !! pageUrl = Some l /\
     getPageVideos W pageUrl st1 = (Ok l, st1)) /\
  (forall st l st1,
     Legacy.getPageVideos W pageUrl st = (Ok l, st1) ->
     CACHE_pages st1 !! pageUrl = Some l /\
     Legacy.getPageVideos W pageUrl st1 = (Ok l, st1)).
Proof.
  split; intros st l st1 H.
  - apply getPageVideos_Ok in H. split; [exact H|].
    unfold getPageVideos. now rewrite H.
  - apply Legacy_getPageVideos_Ok in H. split; [exact H|].
    unfold Legacy.getPageVideos. now rewrite H.
Qed.

Lemma getPageVideos_both_markers_run :
  getPageVideos both_markers_world "https://blogs.chapman.edu/old-faithful/" Sample.start
  = (Ok 0, both_markers_state).
Proof. vm_compute. reflexivity. Qed.

Lemma getPageVideos_idempotent_witness :
  CACHE_pages both_markers_state !! "https://blogs.chapman.edu/old-faithful/" = Some 0 /\
  getPageVideos both_markers_world "https://blogs.chapman.edu/old-faithful/" both_markers_state
  = (Ok 0, both_markers_state).
Proof.
  apply (proj1 (getPageVideos_idempotent both_markers_world
                  "https://blogs.chapman.edu/old-faithful/") Sample.start).
  exact getPageVideos_both_markers_run.
Defined.

(** C1, as the script has it.  On a page that is not cached and can be
    fetched: without an iframe and without a player script the extractor
    throws its "Couldn't find" string; with more than one iframe it throws
    "Found more than one matching iframe"; with exactly one iframe it
    extracts from that iframe, whatever player scripts the page has.  Every
    failure of [getPageVideos] leaves the heap and the cache untouched: the
    state differs by logged requests only.  The script without the resolver
    agrees. *)
Theorem getPageVideos_markers (W : World) (pageUrl : string) (st : State)
    (doc : PageDocument) :
  CACHE_pages st !! pageUrl = None ->
  fetchPage W (length (requests st)) pageUrl = Some doc ->
  (doc_iframes doc = [] -> doc_jwVideo doc = [] ->
   getPageVideos W pageUrl st
   = (Err (Thrown ("Couldn't find a JW Player <video> tag! " +:+ pageUrl)),
      logged [GET pageUrl] st) /\
   Legacy.getPageVideos W pageUrl st = getPageVideos W pageUrl st) /\
  (2 <= length (doc_iframes doc) ->
   getPageVideos W pageUrl st
   = (Err (Thrown ("Found more than one matching iframe: " +:+ pageUrl)),
      logged [GET pageUrl] st) /\
   Legacy.getPageVideos W pageUrl st = getPageVideos W pageUrl st) /\
  (forall iframeUrl, doc_iframes doc = [iframeUrl] ->
   getPageVideos W pageUrl st
   = (page <- getVideosFromIframe W (doc_title doc) pageUrl iframeUrl;;
      store pageUrl page) (logged [GET pageUrl] st) /\
   Legacy.getPageVideos W pageUrl st
   = (page <- Legacy.getVideosFromIframe W (doc_title doc) pageUrl iframeUrl;;
      store pageUrl page) (logged [GET pageUrl] st)) /\
  (forall e st',
     getPageVideos W pageUrl st = (Err e, st') \/
     Legacy.getPageVideos W pageUrl st = (Err e, st') ->
     exists rs, st' = logged rs st /\
       heap st' = heap st /\ CACHE_pages st' = CACHE_pages st).
Proof.
  intros Hmiss Hdoc.
  assert (Hm := getPageVideos_miss W _ _ Hmiss).
  assert (Hl := Legacy_getPageVideos_miss W _ _ Hmiss).
  unfold bind at 1 in Hm. unfold bind at 1 in Hl.
  rewrite request_eq, Hdoc in Hm. rewrite request_eq, Hdoc in Hl.
  split; [|split; [|split]].
  - intros Hi Hj. rewrite Hl, Hm, Hi, Hj. now split.
  - intros Hi. rewrite Hl, Hm.
    destruct (doc_iframes doc) as [|? [|? ?]]; simpl in Hi; try lia. now split.
  - intros iframeUrl Hi. rewrite Hl, Hm, Hi. now split.
  - intros e st' [H|H];
      [apply getPageVideos_Err in H | apply Legacy_getPageVideos_Err in H];
      destruct H as [rs ->]; exists rs; repeat split.
Qed.

Lemma getPageVideos_markers_witness :
  getPageVideos neither_world "https://blogs.chapman.edu/old-faithful/" Sample.start
  = (Err (Thrown "Couldn't find a JW Player <video> tag! https://blogs.chapman.edu/old-faithful/"),
     logged [GET "https://blogs.chapman.edu/old-faithful/"] Sample.start).
Proof.
  apply (proj1 (proj1 (getPageVideos_markers neither_world
                         "https://blogs.chapman.edu/old-faithful/" Sample.start
                         neither_doc eq_refl eq_refl) eq_refl eq_refl)).
Defined.

(** A page with both markers is extracted through its iframe and cached. *)
Lemma getPageVideos_both_markers_counterexample :
  fetchPage both_markers_world 0 "https://blogs.chapman.edu/old-faithful/"
  = Some both_markers_doc /\
  length (doc_iframes both_markers_doc) = 1 /\
  length (doc_jwVideo both_markers_doc) = 1 /\
  getPageVideos both_markers_world "https://blogs.chapman.edu/old-faithful/" Sample.start
  = (Ok 0, both_markers_state) /\
  CACHE_pages both_markers_state !! "https://blogs.chapman.edu/old-faithful/" = Some 0 /\
  heap both_markers_state !! 0 = Some both_markers_page.
Proof. vm_compute. repeat split. Qed.

(** ** The scan of the player sources *)

Lemma has_width_480_720 s : has_width 480 s = true -> has_width 720 s = false.
Proof. unfold has_width. destruct (width s); [lia | reflexivity]. Qed.

Section Scan.
Variable W : World.

Lemma getFileSize_answered url st :
  headRequest W (length (requests st)) url <> None ->
  exists size, getFileSize W url st = (Ok size, logged [HEAD url] st).
Proof.
  intros H. unfold getFileSize, bind. rewrite request_eq.
  destruct (headRequest W (length (requests st)) url) as [headers|]; [|congruence].
  destruct (headers !! "content-length"); eauto.
Qed.

Lemma scanSources_stop pre s post vs st :
  ends_scan s = true ->
  scanSources W (pre ++ s :: post) vs st = scanSources W (pre ++ [s]) vs st.
Proof.
  unfold ends_scan. intros [Hh Hw]%andb_prop.
  apply negb_true_iff in Hh. assert (H7 := has_width_480_720 _ Hw).
  revert vs st; induction pre as [|x pre IH]; intros vs st; simpl.
  - now rewrite Hh, Hw, H7.
  - destruct (is_hls x); [apply IH|]. unfold bind.
    destruct (getFileSize W (source_url x) st) as [[size|e] st1]; [|reflexivity].
    destruct (has_width 720 x); [apply IH|].
    destruct (has_width 480 x); [reflexivity | apply IH].
Qed.

Lemma scanSources_prefix pre rest vs st :
  forallb (fun s => negb (ends_scan s)) pre = true ->
  probes_answered W pre ->
  exists vs',
    scanSources W (pre ++ rest) vs st = scanSources W rest vs' (logged (probes pre) st) /\
    videos_SD vs' = videos_SD vs /\
    (videos_HD vs <> None -> videos_HD vs' <> None) /\
    (existsb makes_HD pre = true -> videos_HD vs' <> None) /\
    (existsb makes_HD pre = false -> videos_HD vs' = videos_HD vs).
Proof.
  revert vs st; induction pre as [|x pre IH]; intros vs st Hpre Hans.
  - exists vs. simpl. rewrite logged_nil. repeat split; auto; discriminate.
  - simpl in Hpre. apply andb_prop in Hpre as [Hx Hpre].
    assert (Hans' : probes_answered W pre) by (intros n s Hs; apply Hans; now right).
    unfold ends_scan in Hx. unfold probes, makes_HD. simpl.
    destruct (is_hls x) eqn:Hh; simpl.
    + destruct (IH vs st Hpre Hans') as (vs' & -> & ? & ? & ? & ?). exists vs'. auto.
    + simpl in Hx. apply negb_true_iff in Hx.
      destruct (getFileSize_answered (source_url x) st) as [size Hsz].
      { apply Hans; [now left | exact Hh]. }
      unfold bind. rewrite Hsz, Hx.
      destruct (has_width 720 x); simpl.
      * destruct (IH (set_video HD {| src := source_url x; label := "HD"; size := size |} vs)
                     (logged [HEAD (source_url x)] st) Hpre Hans') as (vs' & Heq & H1 & H2 & H3 & H4).
        exists vs'. split; [etransitivity; [exact Heq|]; now rewrite logged_app|].
        repeat split; auto; discriminate.
      * destruct (IH vs (logged [HEAD (source_url x)] st) Hpre Hans') as (vs' & Heq & H1 & H2 & H3 & H4).
        exists vs'. split; [etransitivity; [exact Heq|]; now rewrite logged_app|]. repeat split; auto.
Qed.

Lemma scanSources_last s vs st :
  ends_scan s = true -> headRequest W (length (requests st)) (source_url s) <> None ->
  exists size,
    scanSources W [s] vs st
    = (Ok (set_video SD {| src := source_url s; label := "SD"; size := size |} vs),
       logged [HEAD (source_url s)] st).
Proof.
  unfold ends_scan. intros [Hh Hw]%andb_prop Hans. apply negb_true_iff in Hh.
  destruct (getFileSize_answered _ _ Hans) as [size Hsz]. exists size.
  simpl. rewrite Hh. unfold bind. now rewrite Hsz, Hw, (has_width_480_720 _ Hw).
Qed.

Lemma probes_app a b : probes (a ++ b) = probes a ++ probes b.
Proof. unfold probes. now rewrite List.filter_app, map_app. Qed.

End Scan.

(** C2, as the script has it.  [getVideosFromJWPlayer] scans the reversed
    source list of the first playlist entry and skips the hls sources.  The
    first source that is not hls and is 480 wide ends the scan: the sources
    after it play no part in the result and are never probed.  When the
    probes are answered, the page then has the SD descriptor of that
    source, and it has an HD descriptor exactly when a source that is not
    hls and is 720 wide comes before it in the reversed list. *)
Theorem getVideosFromJWPlayer_scan (W : World) (title pageUrl sourceUrl content : string)
    (st : State) (config : JWConfig) (first : PlaylistItem) (items : list PlaylistItem)
    (srcs pre post : list Source) (s : Source) :
  fetchScript W (length (requests st)) sourceUrl = Some content ->
  getJWConfig W content = Ok config ->
  playlist config = PlaylistItems (first :: items) ->
  sources first = Some srcs ->
  rev srcs = pre ++ s :: post ->
  ends_scan s = true ->
  getVideosFromJWPlayer W title pageUrl sourceUrl st
  = (vs <- scanSources W (pre ++ [s]) no_videos;;
     ret {| pageUrl := pageUrl; sourceUrl := sourceUrl; title := title;
            videos := vs; subtitles := None; show := None; renamed := None |})
      (logged [GET sourceUrl] st)
  /\
  (forallb (fun x => negb (ends_scan x)) pre = true ->
   probes_answered W (pre ++ [s]) ->
   exists page sz,
     getVideosFromJWPlayer W title pageUrl sourceUrl st
     = (Ok page, logged (GET sourceUrl :: probes (pre ++ [s])) st) /\
     videos_SD (videos page) = Some {| src := source_url s; label := "SD"; size := sz |} /\
     (existsb makes_HD pre = true -> videos_HD (videos page) <> None) /\
     (existsb makes_HD pre = false -> videos_HD (videos page) = None)).
Proof.
  intros Hs Hc Hp Hsrc Hrev Hend.
  assert (Heq : getVideosFromJWPlayer W title pageUrl sourceUrl st
    = (vs <- scanSources W (pre ++ [s]) no_videos;;
       ret {| pageUrl := pageUrl; sourceUrl := sourceUrl; title := title;
              videos := vs; subtitles := None; show := None; renamed := None |})
        (logged [GET sourceUrl] st)).
  { unfold getVideosFromJWPlayer. unfold bind at 1. rewrite request_eq, Hs.
    unfold bind at 1. unfold lift. rewrite Hc, Hp, Hsrc, Hrev.
    unfold bind. now rewrite scanSources_stop. }
  split; [exact Heq|].
  intros Hpre Hans. rewrite Heq. unfold bind.
  destruct (scanSources_prefix W pre [s] no_videos (logged [GET sourceUrl] st) Hpre)
    as (vs' & -> & H1 & _ & H3 & H4).
  { intros n x Hx. apply Hans, in_or_app. now left. }
  destruct (scanSources_last W s vs' (logged (probes pre) (logged [GET sourceUrl] st)) Hend)
    as [sz ->].
  { apply Hans; [apply in_or_app; right; now left|].
    unfold ends_scan in Hend. apply andb_prop in Hend as [Hh _]. now apply negb_true_iff in Hh. }
  eexists _, sz. split.
  { unfold ret. f_equal. rewrite !logged_app, probes_app. simpl. f_equal. f_equal.
    unfold probes. simpl. unfold ends_scan in Hend. apply andb_prop in Hend as [Hh _].
    now rewrite Hh. }
  split; [reflexivity|split].
  - simpl. exact H3.
  - simpl. intros H. now rewrite (H4 H).
Qed.

Lemma getVideosFromJWPlayer_scan_witness :
  exists page sz,
    getVideosFromJWPlayer (player_world [source_hls; source_320; source_480; source_720])
      "Old Faithful" "https://blogs.chapman.edu/old-faithful/"
      "https://content.jwplatform.com/players/abc.js" Sample.start
    = (Ok page,
       logged [GET "https://content.jwplatform.com/players/abc.js";
               HEAD "https://content.jwplatform.com/videos/abc-720.mp4";
               HEAD "https://content.jwplatform.com/videos/abc-480.mp4"] Sample.start) /\
    videos_SD (videos page)
    = Some {| src := "https://content.jwplatform.com/videos/abc-480.mp4";
              label := "SD"; size := sz |} /\
    videos_HD (videos page) <> None.
Proof.
  destruct (proj2 (getVideosFromJWPlayer_scan
                     (player_world [source_hls; source_320; source_480; source_720])
                     "Old Faithful" "https://blogs.chapman.edu/old-faithful/"
                     "https://content.jwplatform.com/players/abc.js"
                     "var jwConfig = {}; // end config" Sample.start
                     {| playlist := PlaylistItems
                          [{| sources := Some [source_hls; source_320; source_480; source_720] |}] |}
                     {| sources := Some [source_hls; source_320; source_480; source_720] |} []
                     [source_hls; source_320; source_480; source_720]
                     [source_720] [source_320; source_hls] source_480
                     eq_refl eq_refl eq_refl eq_refl eq_refl eq_refl) eq_refl)
    as (page & sz & H1 & H2 & H3 & _).
  - intros n s _ _. discriminate.
  - exists page, sz. split; [exact H1|]. split; [exact H2|]. now apply H3.
Defined.

(** The HD source first in the file: the scan meets the 480 wide source
    first and stops, and the page has no HD descriptor. *)
Lemma getVideosFromJWPlayer_order_counterexample :
  In source_720 [source_720; source_480] /\ In source_480 [source_720; source_480] /\
  exists page st',
    getVideosFromJWPlayer (player_world [source_720; source_480])
      "Old Faithful" "https://blogs.chapman.edu/old-faithful/"
      "https://content.jwplatform.com/players/abc.js" Sample.start
    = (Ok page, st') /\
    videos_HD (videos page) = None /\
    requests st' = [GET "https://content.jwplatform.com/players/abc.js";
                    HEAD "https://content.jwplatform.com/videos/abc-480.mp4"].
Proof.
  split; [now left|]. split; [right; now left|].
  eexists _, _. split; [vm_compute; reflexivity|]. split; reflexivity.
Qed.

(** ** The episode resolver *)

Section Resolver.
Variable W : World.

(** How [renameEpisode] continues once the catalog and the fuzzy set of a
    show with a [tvdb_id] are at hand. *)
Lemma renameEpisode_catalog page st showKey s id episodes0 st1 names st2 :
  show page = Some showKey ->
  SHOWS !! showKey = Some s ->
  tvdb_id s = Some id ->
  getTVDBEpisodes W id st = (Ok episodes0, st1) ->
  fuzzyset showKey (map name_of (List.filter has_name episodes0)) st1 = (Ok names, st2) ->
  let episodes := List.filter has_name episodes0 in
  let episodeName := scrapedEpisodeName (name s) (title page) in
  renameEpisode W page st =
  match FuzzySet_get W names episodeName with
  | None =>
      (Ok (resolvedName W showKey (name s) episodeName None),
       said [resolvedLine episodeName None] st2)
  | Some [] => (Err TypeError, st2)
  | Some (firstMatch :: _) =>
      if Qlt_bool (fst firstMatch) confidence then
        let found := List.find (fun e => startsWith (name_of e) episodeName) episodes in
        (Ok (resolvedName W showKey (name s) episodeName found),
         said ["Low confidence for " +:+ episodeName; resolvedLine episodeName found] st2)
      else
        let found := List.find (fun e => String.eqb (name_of e) (snd firstMatch)) episodes in
        (Ok (resolvedName W showKey (name s) episodeName found),
         said [resolvedLine episodeName found] st2)
  end.
Proof.
  intros Hshow Hs Hid Hcat Hfz episodes episodeName.
  unfold renameEpisode. rewrite Hshow, Hs, Hid.
  unfold bind at 1. rewrite Hcat. unfold bind at 1. rewrite Hfz.
  fold episodes. fold episodeName.
  destruct (FuzzySet_get W names episodeName) as [[|firstMatch rest]|]; try reflexivity.
  destruct (Qlt_bool (fst firstMatch) confidence).
  - destruct (List.find _ episodes);
      unfold bind, console_log, ret, said, set_console; simpl;
      now rewrite <- app_assoc.
  - destruct (List.find _ episodes); reflexivity.
Qed.

End Resolver.

Section Resolved.
Variable W : World.

Lemma getTVDBEpisodes_at id st episodes0 :
  catalog_at W id st episodes0 ->
  exists st1, getTVDBEpisodes W id st = (Ok episodes0, st1) /\ fuzzysets st1 = fuzzysets st.
Proof.
  unfold getTVDBEpisodes. intros [H | [H1 H2]].
  - rewrite H. eauto.
  - rewrite H1. unfold bind at 1. rewrite request_eq, H2. eexists. split; reflexivity.
Qed.

Lemma fuzzyset_names showKey episodes st1 :
  exists st2,
    fuzzyset showKey (map name_of episodes) st1 = (Ok (index_names st1 showKey episodes), st2).
Proof.
  unfold fuzzyset, index_names. destruct (fuzzysets st1 !! showKey); eauto.
Qed.

(** [renameEpisode] for a show with a [tvdb_id] whose catalog is at hand. *)
Lemma renameEpisode_resolved page st showKey s id episodes0 :
  show page = Some showKey ->
  SHOWS !! showKey = Some s ->
  tvdb_id s = Some id ->
  catalog_at W id st episodes0 ->
  let episodes := List.filter has_name episodes0 in
  let episodeName := scrapedEpisodeName (name s) (title page) in
  exists st2,
    renameEpisode W page st =
    match FuzzySet_get W (index_names st showKey episodes) episodeName with
    | None =>
        (Ok (resolvedName W showKey (name s) episodeName None),
         said [resolvedLine episodeName None] st2)
    | Some [] => (Err TypeError, st2)
    | Some (firstMatch :: _) =>
        if Qlt_bool (fst firstMatch) confidence then
          let found := List.find (fun e => startsWith (name_of e) episodeName) episodes in
          (Ok (resolvedName W showKey (name s) episodeName found),
           said ["Low confidence for " +:+ episodeName; resolvedLine episodeName found] st2)
        else
          let found := List.find (fun e => String.eqb (name_of e) (snd firstMatch)) episodes in
          (Ok (resolvedName W showKey (name s) episodeName found),
           said [resolvedLine episodeName found] st2)
    end.
Proof.
  intros Hshow Hs Hid Hcat episodes episodeName.
  destruct (getTVDBEpisodes_at _ _ _ Hcat) as (st1 & H1 & Hf).
  destruct (fuzzyset_names showKey episodes st1) as [st2 H2].
  exists st2. rewrite (renameEpisode_catalog W _ _ _ _ _ _ _ _ _ Hshow Hs Hid H1 H2).
  fold episodes. fold episodeName. unfold index_names. now rewrite Hf.
Qed.

End Resolved.

Lemma Qlt_bool_false x y : (y <= x)%Q -> Qlt_bool x y = false.
Proof. intros H. unfold Qlt_bool. apply Qle_bool_iff in H. now rewrite H. Qed.

Lemma Qlt_bool_true x y : (x < y)%Q -> Qlt_bool x y = true.
Proof.
  intros H. unfold Qlt_bool. destruct (Qle_bool y x) eqn:E; [|reflexivity].
  apply Qle_bool_iff in E. now apply Qlt_not_le in H.
Qed.

(** C3.  With the catalog at hand and a first fuzzy candidate of score
    [score] and name [matchName]: a score of at least 0.7 resolves to the
    first catalog episode named [matchName], a score below 0.7 to the first
    catalog episode whose name starts with the scraped episode name. *)
Theorem renameEpisode_confidence (W : World) (page : Page) (st : State)
    (showKey : string) (s : Show) (id : Z) (episodes0 : list Episode)
    (score : Q) (matchName : string) (rest : list (Q * string)) :
  show page = Some showKey ->
  SHOWS !! showKey = Some s ->
  tvdb_id s = Some id ->
  catalog_at W id st episodes0 ->
  let episodes := List.filter has_name episodes0 in
  let episodeName := scrapedEpisodeName (name s) (title page) in
  FuzzySet_get W (index_names st showKey episodes) episodeName
  = Some ((score, matchName) :: rest) ->
  ((confidence <= score)%Q ->
   fst (renameEpisode W page st)
   = Ok (resolvedName W showKey (name s) episodeName
           (List.find (fun e => String.eqb (name_of e) matchName) episodes))) /\
  ((score < confidence)%Q ->
   fst (renameEpisode W page st)
   = Ok (resolvedName W showKey (name s) episodeName
           (List.find (fun e => startsWith (name_of e) episodeName) episodes))).
Proof.
  intros Hshow Hs Hid Hcat episodes episodeName Hfz.
  destruct (renameEpisode_resolved W _ _ _ _ _ _ Hshow Hs Hid Hcat) as [st2 ->].
  fold episodes. fold episodeName. rewrite Hfz.
  change (fst (score, matchName)) with score.
  change (snd (score, matchName)) with matchName.
  split; intros Hq.
  - now rewrite (Qlt_bool_false _ _ Hq).
  - now rewrite (Qlt_bool_true _ _ Hq).
Qed.

Lemma renameEpisode_confidence_witness :
  fst (renameEpisode (catalog_world confidence) old_faithful_page Sample.start)
  = Ok "videos/californias-gold/Californias.Gold.S02E12.Old.Faithful.mp4" /\
  fst (renameEpisode (catalog_world score_6999) old_faithful_page Sample.start)
  = Ok "videos/californias-gold/Californias.Gold.S01E05.Old.Faithful.Inn.mp4".
Proof.
  split.
  - refine (proj1 (renameEpisode_confidence (catalog_world confidence) old_faithful_page
                     Sample.start "californias-gold"
                     {| name := "California's Gold"; tvdb_id := Some 279999%Z |} 279999
                     gold_catalog confidence "Old Faithful" []
                     eq_refl eq_refl eq_refl (or_intror (conj eq_refl eq_refl)) eq_refl) _).
    unfold Qle, confidence. simpl. lia.
  - refine (proj2 (renameEpisode_confidence (catalog_world score_6999) old_faithful_page
                     Sample.start "californias-gold"
                     {| name := "California's Gold"; tvdb_id := Some 279999%Z |} 279999
                     gold_catalog score_6999 "Old Faithful" []
                     eq_refl eq_refl eq_refl (or_intror (conj eq_refl eq_refl)) eq_refl) _).
    unfold Qlt, confidence, score_6999. simpl. lia.
Defined.

(** C4, as the script has it.  For a page of a show of [SHOWS],
    [renameEpisode] returns a file name when the show has no [tvdb_id], and
    when the catalog is at hand and the fuzzy set answers with [null] or a
    candidate; a lookup miss (no candidate, or no catalog episode for the
    candidate) gives the title-only name.  A catalog request that fails is
    not caught: it is the result of [renameEpisode]. *)
Theorem renameEpisode_best_effort (W : World) (page : Page) (st : State)
    (showKey : string) (s : Show) :
  show page = Some showKey ->
  SHOWS !! showKey = Some s ->
  (tvdb_id s = None ->
   renameEpisode W page st = (Ok (titleOnlyName W showKey s page), st)) /\
  (forall id episodes0,
     tvdb_id s = Some id ->
     catalog_at W id st episodes0 ->
     let episodes := List.filter has_name episodes0 in
     let episodeName := scrapedEpisodeName (name s) (title page) in
     let answer := FuzzySet_get W (index_names st showKey episodes) episodeName in
     answer <> Some [] ->
     (exists fileName, fst (renameEpisode W page st) = Ok fileName) /\
     (answer = None -> fst (renameEpisode W page st) = Ok (titleOnlyName W showKey s page)) /\
     (forall score matchName rest,
        answer = Some ((score, matchName) :: rest) ->
        (if Qlt_bool score confidence
         then List.find (fun e => startsWith (name_of e) episodeName) episodes
         else List.find (fun e => String.eqb (name_of e) matchName) episodes) = None ->
        fst (renameEpisode W page st) = Ok (titleOnlyName W showKey s page))) /\
  (forall id,
     tvdb_id s = Some id ->
     CACHE_tvdb st !! id = None ->
     getEpisodesBySeriesId W (length (requests st)) id = None ->
     renameEpisode W page st = (Err RequestError, logged [TVDB id] st)).
Proof.
  intros Hshow Hs. split; [|split].
  - intros Hid. unfold renameEpisode. now rewrite Hshow, Hs, Hid.
  - intros id episodes0 Hid Hcat episodes episodeName answer Hne.
    destruct (renameEpisode_resolved W _ _ _ _ _ _ Hshow Hs Hid Hcat) as [st2 ->].
    fold episodes. fold episodeName. fold answer.
    destruct answer as [[|[score matchName] rest]|]; [congruence| |].
    + change (fst (score, matchName)) with score.
      change (snd (score, matchName)) with matchName.
      split; [|split; [discriminate|]].
      * destruct (Qlt_bool score confidence); eauto.
      * intros ? ? ? [= <- <- <-].
        destruct (Qlt_bool score confidence); now intros ->.
    + split; [eauto|]. split; [reflexivity | discriminate].
  - intros id Hid Hc Hreq. unfold renameEpisode. rewrite Hshow, Hs, Hid.
    unfold bind at 1. unfold getTVDBEpisodes. rewrite Hc. unfold bind at 1.
    now rewrite request_eq, Hreq.
Qed.

Lemma renameEpisode_best_effort_witness :
  renameEpisode (catalog_world confidence) downtown_page Sample.start
  = (Ok "videos/downtown/Downtown.Angels.Flight.mp4", Sample.start).
Proof.
  apply (proj1 (renameEpisode_best_effort (catalog_world confidence) downtown_page
                  Sample.start "downtown" {| name := "Downtown"; tvdb_id := None |}
                  eq_refl eq_refl) eq_refl).
Defined.

Lemma renameEpisode_offline_counterexample :
  SHOWS !! "californias-gold" = Some {| name := "California's Gold"; tvdb_id := Some 279999%Z |} /\
  getEpisodesBySeriesId offline_world 0 279999 = None /\
  renameEpisode offline_world old_faithful_page Sample.start
  = (Err RequestError, logged [TVDB 279999] Sample.start).
Proof. repeat split. Qed.

(** C5.  The page titled "Old Faithful – California's Gold (112)" of the
    show [californias-gold], with the catalog at hand, a first fuzzy
    candidate "Old Faithful" and a catalog match named "Old Faithful" of
    season 2, episode 12, is renamed to
    [videos/californias-gold/Californias.Gold.S02E12.Old.Faithful.mp4],
    given that the sanitizer leaves that name as it is. *)
Theorem renameEpisode_old_faithful (W : World) (page : Page) (st : State)
    (episodes0 : list Episode) (score : Q) (rest : list (Q * string)) (e : Episode) :
  show page = Some "californias-gold" ->
  title page = "Old Faithful " +:+ en_dash +:+ " California's Gold (112)" ->
  catalog_at W 279999 st episodes0 ->
  let episodes := List.filter has_name episodes0 in
  FuzzySet_get W (index_names st "californias-gold" episodes) "Old Faithful"
  = Some ((score, "Old Faithful") :: rest) ->
  (if Qlt_bool score confidence
   then List.find (fun e => startsWith (name_of e) "Old Faithful") episodes
   else List.find (fun e => String.eqb (name_of e) "Old Faithful") episodes) = Some e ->
  episodeName e = Some "Old Faithful" ->
  airedSeason e = 2%Z ->
  airedEpisodeNumber e = 12%Z ->
  sanitize W "Californias.Gold.S02E12.Old.Faithful" = "Californias.Gold.S02E12.Old.Faithful" ->
  fst (renameEpisode W page st)
  = Ok "videos/californias-gold/Californias.Gold.S02E12.Old.Faithful.mp4".
Proof.
  intros Hshow Htitle Hcat episodes Hfz Hfound Hname Hseason Hnumber Hsan.
  destruct (renameEpisode_resolved W page st "californias-gold"
              {| name := "California's Gold"; tvdb_id := Some 279999%Z |} 279999 episodes0
              Hshow eq_refl eq_refl Hcat) as [st2 ->].
  fold episodes. simpl name. rewrite Htitle.
  change (scrapedEpisodeName "California's Gold"
            ("Old Faithful " +:+ en_dash +:+ " California's Gold (112)"))
    with "Old Faithful".
  rewrite Hfz. change (fst (score, "Old Faithful")) with score.
  change (snd (score, "Old Faithful")) with "Old Faithful".
  assert (Hres : resolvedName W "californias-gold" "California's Gold" "Old Faithful" (Some e)
                 = "videos/californias-gold/Californias.Gold.S02E12.Old.Faithful.mp4").
  { unfold resolvedName, assembleFileName, episodeToken, name_of.
    rewrite Hname, Hseason, Hnumber.
    change (replaceAll "'" "" (replaceAll " " "." "California's Gold")
            +:+ (".S" +:+ episodePadding 2 +:+ "E" +:+ episodePadding 12 +:+ ".")
            +:+ replaceAll "&" "and" (replaceAll "'" "" (replaceAll " " "." "Old Faithful")))
      with "Californias.Gold.S02E12.Old.Faithful".
    now rewrite Hsan. }
  destruct (Qlt_bool score confidence); rewrite Hfound; cbv zeta; now rewrite Hres.
Qed.

Lemma renameEpisode_old_faithful_witness :
  fst (renameEpisode (catalog_world confidence) old_faithful_page Sample.start)
  = Ok "videos/californias-gold/Californias.Gold.S02E12.Old.Faithful.mp4".
Proof.
  apply (renameEpisode_old_faithful (catalog_world confidence) old_faithful_page
           Sample.start gold_catalog confidence [] old_faithful
           eq_refl eq_refl (or_intror (conj eq_refl eq_refl)) eq_refl eq_refl
           eq_refl eq_refl eq_refl eq_refl).
Defined.

(** ** The crawl loop *)

Lemma runFeed_not_found pre t post links :
  forallb quiet pre = true ->
  startsWith t "Page not found" = true ->
  runFeed (pre ++ EvMeta t :: post) links = Some (Err (Thrown "Page not found")).
Proof.
  intros Hq Ht. revert links; induction pre as [|ev pre IH]; intros links; simpl.
  - now rewrite Ht.
  - simpl in Hq. apply andb_prop in Hq as [Hev Hq].
    destruct ev as [msg|t'|items|]; simpl in Hev; try discriminate.
    + apply negb_true_iff in Hev. rewrite Hev. now apply IH.
    + now apply IH.
Qed.

Lemma said_logged lines rs st : said lines (logged rs st) = logged rs (said lines st).
Proof. reflexivity. Qed.

Lemma said_app a b st : said b (said a st) = said (a ++ b) st.
Proof. destruct st; unfold said, set_console; simpl. now rewrite app_assoc. Qed.

Lemma said_nil st : said [] st = st.
Proof. destruct st; unfold said, set_console; simpl. now rewrite app_nil_r. Qed.

Section Crawl.
Variable W : World.
Variable showName : string.
Variable s : Show.
Hypothesis known : SHOWS !! showName = Some s.

Lemma getFeedPageLinks_eq n st :
  getFeedPageLinks W showName n st =
  match runFeed (fetchFeed W (length (requests st)) (feedPage showName n)) [] with
  | Some r => Some (r, logged [FEED (feedPage showName n)] st)
  | None => None
  end.
Proof. unfold getFeedPageLinks. now rewrite known. Qed.

Lemma crawlLoop_S fuel n c st :
  crawlLoop W (S fuel) showName n c st =
  match getFeedPageLinks W showName n (said [pageLine n] st) with
  | None => None
  | Some (Err e, st2) => Some (e, c, st2)
  | Some (Ok links, st2) =>
      match crawlLinks W showName links c st2 with
      | (Some e, c', st3) => Some (e, c', st3)
      | (None, c', st3) => crawlLoop W fuel showName (S n) c' st3
      end
  end.
Proof. reflexivity. Qed.

Lemma crawlLoop_not_found fuel n c st pre t post :
  fetchFeed W (length (requests st)) (feedPage showName n) = pre ++ EvMeta t :: post ->
  forallb quiet pre = true ->
  startsWith t "Page not found" = true ->
  crawlLoop W (S fuel) showName n c st
  = Some (Thrown "Page not found", c, paged showName n 1 st).
Proof.
  intros Hev Hq Ht. rewrite crawlLoop_S, getFeedPageLinks_eq.
  change (requests (said [pageLine n] st)) with (requests st).
  now rewrite Hev, (runFeed_not_found _ _ _ _ Hq Ht).
Qed.

Lemma crawlLoop_empty_page fuel n c st :
  runFeed (fetchFeed W (length (requests st)) (feedPage showName n)) [] = Some (Ok []) ->
  crawlLoop W (S fuel) showName n c st
  = crawlLoop W fuel showName (S n) c (paged showName n 1 st).
Proof.
  intros Hev. rewrite crawlLoop_S, getFeedPageLinks_eq.
  change (requests (said [pageLine n] st)) with (requests st).
  now rewrite Hev.
Qed.

Lemma paged_S n k st :
  paged showName (S n) k (paged showName n 1 st) = paged showName n (S k) st.
Proof.
  unfold paged. rewrite said_logged, said_app, <- said_logged, logged_app. reflexivity.
Qed.

(** [k] pages without a link, whenever they are asked for: the loop is at
    page [n + k] after [k] rounds. *)
Lemma crawlLoop_empty_pages k : forall fuel n c st,
  (forall i m, n <= i < n + k ->
     runFeed (fetchFeed W m (feedPage showName i)) [] = Some (Ok [])) ->
  crawlLoop W (k + fuel) showName n c st
  = crawlLoop W fuel showName (n + k) c (paged showName n k st).
Proof.
  induction k as [|k IH]; intros fuel n c st Hempty.
  - unfold paged. simpl. now rewrite logged_nil, said_nil, Nat.add_0_r.
  - change (S k + fuel) with (S (k + fuel)).
    rewrite crawlLoop_empty_page by (apply Hempty; lia).
    rewrite IH by (intros i m Hi; apply Hempty; lia).
    rewrite paged_S. now replace (S n + k) with (n + S k) by lia.
Qed.

(** Pages without a link for ever: no number of rounds ends the loop. *)
Lemma crawlLoop_unbounded fuel : forall n c st,
  (forall i m, runFeed (fetchFeed W m (feedPage showName i)) [] = Some (Ok [])) ->
  crawlLoop W fuel showName n c st = None.
Proof.
  induction fuel as [|fuel IH]; intros n c st Hempty; [reflexivity|].
  rewrite crawlLoop_empty_page by apply Hempty. now apply IH.
Qed.

End Crawl.

(** ** The pages of a crawl *)

Lemma keeps_good_refl st : keeps_good st st.
Proof. intros l p H Hg. eauto. Qed.

Lemma keeps_good_trans st1 st2 st3 :
  keeps_good st1 st2 -> keeps_good st2 st3 -> keeps_good st1 st3.
Proof.
  intros H12 H23 l p H Hg. destruct (H12 l p H Hg) as (p' & H' & Hg'). eauto.
Qed.

Lemma keeps_good_heap st st' : heap st' = heap st -> keeps_good st st'.
Proof. intros E l p H Hg. rewrite E. eauto. Qed.

Lemma same_heap_bind {A B : Type} (m : M A) (f : A -> M B) :
  same_heap m -> (forall a, same_heap (f a)) -> same_heap (bind m f).
Proof.
  intros Hm Hf st. unfold bind. specialize (Hm st).
  destruct (m st) as [[a|e] st1]; simpl in Hm; [|exact Hm].
  now rewrite Hf.
Qed.

Lemma only_logs_same_heap {A : Type} (m : M A) : only_logs m -> same_heap m.
Proof. intros H st. destruct (H st) as [rs ->]. reflexivity. Qed.

Lemma same_heap_ret {A : Type} (a : A) : same_heap (ret a).
Proof. intros st. reflexivity. Qed.

Lemma same_heap_console_log line : same_heap (console_log line).
Proof. intros st. reflexivity. Qed.

Section Heap.
Variable W : World.

Lemma getTVDBEpisodes_same_heap id : same_heap (getTVDBEpisodes W id).
Proof.
  intros st. unfold getTVDBEpisodes. destruct (CACHE_tvdb st !! id); [reflexivity|].
  unfold bind. rewrite request_eq.
  now destruct (getEpisodesBySeriesId W (length (requests st)) id).
Qed.

Lemma fuzzyset_same_heap k names : same_heap (fuzzyset k names).
Proof. intros st. unfold fuzzyset. now destruct (fuzzysets st !! k). Qed.

Lemma renameEpisode_same_heap page : same_heap (renameEpisode W page).
Proof.
  unfold renameEpisode.
  destruct (show page) as [showKey|]; [|apply only_logs_same_heap, only_logs_throw].
  destruct (SHOWS !! showKey) as [s|]; [|apply only_logs_same_heap, only_logs_throw].
  destruct (tvdb_id s) as [id|]; [|apply same_heap_ret].
  apply same_heap_bind; [apply getTVDBEpisodes_same_heap|intros episodes].
  apply same_heap_bind; [apply fuzzyset_same_heap|intros names].
  destruct (FuzzySet_get W names _) as [[|firstMatch rest]|].
  - apply only_logs_same_heap, only_logs_throw.
  - apply same_heap_bind.
    + destruct (Qlt_bool (fst firstMatch) confidence); [|apply same_heap_ret].
      apply same_heap_bind; [apply same_heap_console_log|intros; apply same_heap_ret].
    + intros [e|]; (apply same_heap_bind;
        [apply same_heap_console_log|intros; apply same_heap_ret]).
  - apply same_heap_bind; [apply same_heap_console_log|intros; apply same_heap_ret].
Qed.

Lemma store_keeps_good pageUrl page st : keeps_good st (snd (store pageUrl page st)).
Proof.
  rewrite store_eq. intros l p H Hg. simpl. exists p. split; [|exact Hg].
  now apply lookup_app_l_Some.
Qed.

Lemma getPageVideos_keeps_good pageUrl st : keeps_good st (snd (getPageVideos W pageUrl st)).
Proof.
  destruct (CACHE_pages st !! pageUrl) as [l|] eqn:Hc.
  { unfold getPageVideos. rewrite Hc. apply keeps_good_refl. }
  destruct (getPageVideos W pageUrl st) as [[l|e] st'] eqn:E.
  - rewrite (getPageVideos_miss W _ _ Hc) in E.
    apply bind_Ok in E as (doc & st1 & Hr & E).
    rewrite request_eq in Hr. injection Hr as _ <-.
    assert (Hk : forall (m : M Page), only_logs m ->
              (page <- m;; store pageUrl page) (logged [GET pageUrl] st) = (Ok l, st') ->
              keeps_good st st').
    { intros m Hm H. apply bind_Ok in H as (page & st2 & H1 & H2).
      destruct (Hm (logged [GET pageUrl] st)) as [rs Hrs]. rewrite H1 in Hrs. simpl in Hrs.
      subst st2. replace st' with (snd (store pageUrl page (logged rs (logged [GET pageUrl] st))))
        by now rewrite H2.
      eapply keeps_good_trans; [|apply store_keeps_good]. now apply keeps_good_heap. }
    destruct (doc_iframes doc) as [|iframeUrl [|? ?]].
    + destruct (doc_jwVideo doc) as [|jwSrc [|? ?]]; try discriminate.
      eapply Hk; [apply getVideosFromJWPlayer_only_logs | exact E].
    + eapply Hk; [apply getVideosFromIframe_only_logs | exact E].
    + discriminate.
  - apply getPageVideos_Err in E as [rs ->]. now apply keeps_good_heap.
Qed.

End Heap.

Lemma preserves_bind {A B : Type} (m : M A) (f : A -> M B) :
  preserves m -> (forall a, preserves (f a)) -> preserves (bind m f).
Proof.
  intros Hm Hf st. unfold bind. specialize (Hm st).
  destruct (m st) as [[a|e] st1]; simpl in Hm; [|exact Hm].
  eapply keeps_good_trans; [exact Hm | apply Hf].
Qed.

Lemma same_heap_preserves {A : Type} (m : M A) : same_heap m -> preserves m.
Proof. intros H st. apply keeps_good_heap, H. Qed.

Lemma good_set_show k p : good p -> good (set_show k p).
Proof. intros H. exact H. Qed.

Lemma good_set_renamed r p :
  is_Some (get_video (best_quality p) (videos p)) -> good (set_renamed r p).
Proof. intros H. split; [now exists r | exact H]. Qed.

Lemma update_page_preserves l f :
  (forall p, good p -> good (f p)) -> preserves (update_page l f).
Proof.
  intros Hf st. unfold update_page. destruct (heap st !! l) as [p0|] eqn:E.
  - intros l' p H Hg. simpl. destruct (decide (l = l')) as [<-|Hne].
    + exists (f p0). split.
      * apply list_lookup_insert_eq. now apply lookup_lt_Some in E.
      * apply Hf. congruence.
    + exists p. split; [|exact Hg]. now rewrite list_lookup_insert_ne.
  - apply keeps_good_refl.
Qed.

Lemma read_page_same_heap l : same_heap (read_page l).
Proof. intros st. unfold read_page. now destruct (heap st !! l). Qed.

Section Links.
Variable W : World.
Variable showName : string.

Lemma crawlLink_preserves link : preserves (crawlLink W showName link).
Proof.
  unfold crawlLink.
  apply preserves_bind; [intros st; apply getPageVideos_keeps_good|intros l].
  apply preserves_bind; [apply update_page_preserves, good_set_show|intros _].
  apply preserves_bind; [apply same_heap_preserves, read_page_same_heap|intros page].
  apply preserves_bind; [apply same_heap_preserves, renameEpisode_same_heap|intros r].
  apply preserves_bind.
  { apply update_page_preserves. intros p [_ Hp]. now apply good_set_renamed. }
  intros _.
  apply preserves_bind; [apply same_heap_preserves, only_logs_same_heap, only_logs_lift|].
  intros video.
  apply preserves_bind; [apply same_heap_preserves, same_heap_console_log|intros _].
  apply same_heap_preserves, same_heap_ret.
Qed.

Lemma crawlLink_good link st l sz st' :
  crawlLink W showName link st = (Ok (l, sz), st') ->
  exists p, heap st' !! l = Some p /\ good p.
Proof.
  unfold crawlLink. intros H.
  apply bind_Ok in H as (l0 & st1 & _ & H).
  apply bind_Ok in H as ([] & st2 & _ & H).
  apply bind_Ok in H as (page & st3 & Hread & H).
  apply bind_Ok in H as (r & st4 & Hren & H).
  apply bind_Ok in H as ([] & st5 & Hupd & H).
  apply bind_Ok in H as (video & st6 & Hvid & H).
  apply bind_Ok in H as ([] & st7 & Hlog & H).
  injection H as <- _ <-.
  unfold console_log in Hlog. injection Hlog as <-.
  unfold lift in Hvid. injection Hvid as Hvid <-.
  unfold read_page in Hread. destruct (heap st2 !! l0) as [p0|] eqn:E2; [|discriminate].
  injection Hread as -> <-.
  assert (E4 : heap st4 = heap st2).
  { replace st4 with (snd (renameEpisode W page st2)) by now rewrite Hren.
    apply renameEpisode_same_heap. }
  unfold update_page in Hupd. rewrite E4, E2 in Hupd. injection Hupd as <-.
  exists (set_renamed r page). simpl. split.
  - apply list_lookup_insert_eq. now apply lookup_lt_Some in E2.
  - apply good_set_renamed. unfold best_video in Hvid.
    destruct (get_video (best_quality page) (videos page)); [eauto | discriminate].
Qed.

Lemma crawl_inv_keeps c st st' : keeps_good st st' -> crawl_inv c st -> crawl_inv c st'.
Proof.
  intros Hk H. unfold crawl_inv in *. eapply Forall_impl; [exact H|].
  intros l (p & Hl & Hg). eauto.
Qed.

Lemma crawlLinks_inv links : forall c st r c' st',
  crawl_inv c st ->
  crawlLinks W showName links c st = (r, c', st') ->
  crawl_inv c' st'.
Proof.
  induction links as [|link rest IH]; intros c st r c' st' Hinv; simpl.
  - now intros [= _ <- <-].
  - assert (Hp := crawlLink_preserves link st).
    destruct (crawlLink W showName link st) as [[[l sz]|e] st1] eqn:E; simpl in Hp.
    + apply IH. unfold crawl_inv. simpl. apply Forall_app. split.
      * exact (crawl_inv_keeps _ _ _ Hp Hinv).
      * constructor; [|constructor]. exact (crawlLink_good _ _ _ _ _ E).
    + intros [= _ <- <-]. exact (crawl_inv_keeps _ _ _ Hp Hinv).
Qed.

Lemma getFeedPageLinks_heap n st r st' :
  getFeedPageLinks W showName n st = Some (r, st') -> heap st' = heap st.
Proof.
  unfold getFeedPageLinks. destruct (SHOWS !! showName); [|now intros [= _ <-]].
  destruct (runFeed _ _); [now intros [= _ <-] | discriminate].
Qed.

Lemma crawlLoop_inv fuel : forall n c st e c' st',
  crawl_inv c st ->
  crawlLoop W fuel showName n c st = Some (e, c', st') ->
  crawl_inv c' st'.
Proof.
  induction fuel as [|fuel IH]; intros n c st e c' st' Hinv; [discriminate|].
  cbn [crawlLoop].
  destruct (getFeedPageLinks W showName n _) as [[[links|e0] st2]|] eqn:E; [| |discriminate].
  - apply getFeedPageLinks_heap in E.
    assert (Hinv2 : crawl_inv c st2) by (apply (crawl_inv_keeps c st); [now apply keeps_good_heap | exact Hinv]).
    destruct (crawlLinks W showName links c st2) as [[[e1|] c1] st3] eqn:E3.
    + intros [= _ <- <-]. exact (crawlLinks_inv _ _ _ _ _ _ Hinv2 E3).
    + apply IH. exact (crawlLinks_inv _ _ _ _ _ _ Hinv2 E3).
  - apply getFeedPageLinks_heap in E. intros [= _ <- <-].
    apply (crawl_inv_keeps c st); [now apply keeps_good_heap | exact Hinv].
Qed.

End Links.

(** ** The manifest *)

Lemma mapM_cons {A B : Type} (f : A -> M B) a l st :
  mapM f (a :: l) st =
  match f a st with
  | (Ok b, st1) =>
      match mapM f l st1 with
      | (Ok bs, st2) => (Ok (b :: bs), st2)
      | (Err e, st2) => (Err e, st2)
      end
  | (Err e, st1) => (Err e, st1)
  end.
Proof.
  cbn [mapM]. unfold bind at 1. destruct (f a st) as [[b|e] st1]; [|reflexivity].
  unfold bind. now destruct (mapM f l st1) as [[bs|e] st2].
Qed.

Lemma read_named_eq l st :
  read_named l st =
  match heap st !! l with
  | None => (Err TypeError, st)
  | Some p =>
      match renamed p with
      | None => (Err TypeError, st)
      | Some r => (Ok (r, p), st)
      end
  end.
Proof.
  unfold read_named, bind, read_page, lift, renamed_of, ret.
  destruct (heap st !! l) as [p|]; [|reflexivity]. now destruct (renamed p).
Qed.

Lemma mapM_named ls st : mapM read_named ls st = (named_of (heap st) ls, st).
Proof.
  induction ls as [|l ls IH]; [reflexivity|].
  rewrite mapM_cons, read_named_eq. cbn [named_of].
  destruct (heap st !! l) as [p|]; [|reflexivity].
  destruct (renamed p) as [r|]; [|reflexivity].
  rewrite IH. now destruct (named_of (heap st) ls).
Qed.

Section Manifest.
Variable W : World.

Lemma finishCrawl_eq showName e c st :
  finishCrawl W showName e c st =
  match named_of (heap st) (crawled c) with
  | Err x => (Err x, flushed W e c st)
  | Ok named =>
      let videos := map snd (sort (compareRenamed W) named) in
      match manifest W (length videos) 0 videos with
      | Err x => (Err x, flushed W e c st)
      | Ok commands =>
          (Ok tt,
           set_files (<[scriptName showName := ScriptFile ("set -e" :: commands)]>
                        (files (flushed W e c st))) (flushed W e c st))
      end
  end.
Proof.
  unfold finishCrawl. unfold bind at 1.
  assert (H1 : (if is_page_not_found e then console_log "Reached the end of the feed."
                else console_error e) st = (Ok tt, caught e st)).
  { unfold caught. now destruct (is_page_not_found e). }
  rewrite H1. unfold bind at 1. unfold writeFile at 1. unfold bind at 1.
  unfold console_log at 1. unfold bind at 1. fold read_named. rewrite mapM_named.
  change (heap (set_console _ _)) with (heap (caught e st)).
  replace (heap (caught e st)) with (heap st)
    by (unfold caught; now destruct (is_page_not_found e)).
  destruct (named_of (heap st) (crawled c)) as [named|x]; [|reflexivity].
  cbv zeta. unfold bind at 1. unfold lift.
  destruct (manifest W _ 0 _); reflexivity.
Qed.

Lemma insert_sorted_Forall {A : Type} (P : A -> Prop) cmp x l :
  P x -> Forall P l -> Forall P (insert_sorted cmp x l).
Proof.
  intros Hx Hl. induction Hl as [|y l Hy Hl IH]; simpl.
  - now constructor.
  - destruct (cmp x y <? 0)%Z; repeat constructor; auto.
Qed.

Lemma sort_Forall {A : Type} (P : A -> Prop) cmp l : Forall P l -> Forall P (sort cmp l).
Proof.
  unfold sort. intros Hl.
  assert (H : forall acc, Forall P acc ->
            Forall P (fold_left (fun acc x => insert_sorted cmp x acc) l acc)).
  { induction Hl as [|x l Hx Hl IH]; intros acc Hacc; simpl; [exact Hacc|].
    apply IH. now apply insert_sorted_Forall. }
  apply H. constructor.
Qed.

Lemma named_of_good h ls :
  Forall (fun l => exists p, h !! l = Some p /\ good p) ls ->
  exists named, named_of h ls = Ok named /\ Forall (fun rp => good (snd rp)) named.
Proof.
  induction 1 as [|l ls (p & Hl & Hg) _ (named & Hnamed & Hn)]; simpl.
  - exists []. split; [reflexivity | constructor].
  - rewrite Hl. destruct Hg as [[r Hr] Hv]. rewrite Hr, Hnamed.
    exists ((r, p) :: named). split; [reflexivity|].
    constructor; [split; [now exists r | exact Hv] | exact Hn].
Qed.

Lemma pageCommands_good total index page :
  good page -> exists cs, pageCommands W total index page = Ok cs.
Proof.
  intros [[r Hr] [v Hv]]. unfold pageCommands, formatCurlParameters, renamed_of, best_video.
  rewrite Hr, Hv. destruct (truthy (subtitles page)); eauto.
Qed.

Lemma manifest_good total pages : forall index,
  Forall good pages -> exists cs, manifest W total index pages = Ok cs.
Proof.
  induction pages as [|page rest IH]; intros index Hg; simpl; [eauto|].
  inversion Hg as [|? ? Hp Hrest]; subst.
  destruct (pageCommands_good total index page Hp) as [cs ->].
  destruct (IH (S index) Hrest) as [more ->]. eauto.
Qed.

(** Once the loop has ended, [crawlCategory] returns: whatever ended the
    loop was caught, and the manifest of the crawled pages is written. *)
Lemma finishCrawl_returns showName e c st :
  crawl_inv c st ->
  exists commands,
    finishCrawl W showName e c st
    = (Ok tt,
       set_files (<[scriptName showName := ScriptFile ("set -e" :: commands)]>
                    (files (flushed W e c st))) (flushed W e c st)).
Proof.
  intros Hinv. rewrite finishCrawl_eq.
  destruct (named_of_good _ _ Hinv) as (named & -> & Hn). cbv zeta.
  destruct (manifest_good (length (map snd (sort (compareRenamed W) named)))
              (map snd (sort (compareRenamed W) named)) 0) as [cs ->]; [|eauto].
  apply Forall_fmap. apply sort_Forall. exact Hn.
Qed.

End Manifest.

Lemma paged_app showName n k j st :
  paged showName (n + k) j (paged showName n k st) = paged showName n (k + j) st.
Proof.
  unfold paged. rewrite said_logged, said_app, <- said_logged, logged_app.
  now rewrite !seq_app, !map_app.
Qed.

(** C6.  For a show of [SHOWS]: a feed page whose meta title starts with
    "Page not found" ends the loop there and then, with no further request;
    a feed page without links does not, the loop goes on with the next page
    number; whatever ends the loop is caught, and [crawlCategory] returns
    normally.  So a crawl of [k] pages without links followed by the marker
    asks for the pages 1 to [k + 1] and no other, logs no error and returns;
    and with pages without links for ever, no number of rounds ends it. *)
Theorem crawlCategory_end_of_feed (W : World) (showName : string) (s : Show) :
  SHOWS !! showName = Some s ->
  (forall fuel n c st pre t post,
     fetchFeed W (length (requests st)) (feedPage showName n) = pre ++ EvMeta t :: post ->
     forallb quiet pre = true ->
     startsWith t "Page not found" = true ->
     crawlLoop W (S fuel) showName n c st
     = Some (Thrown "Page not found", c, paged showName n 1 st)) /\
  (forall fuel n c st,
     runFeed (fetchFeed W (length (requests st)) (feedPage showName n)) [] = Some (Ok []) ->
     crawlLoop W (S fuel) showName n c st
     = crawlLoop W fuel showName (S n) c (paged showName n 1 st)) /\
  (forall fuel st e c st1,
     crawlLoop W fuel showName 1 fresh_crawl st = Some (e, c, st1) ->
     exists st',
       crawlCategory W fuel showName st = Some (Ok tt, st') /\
       requests st' = requests st1 /\
       (is_page_not_found e = true ->
        console_errors st' = console_errors st1 /\
        In "Reached the end of the feed." (console st'))) /\
  (forall k fuel st,
     k < fuel ->
     (forall i m, 1 <= i <= k ->
        runFeed (fetchFeed W m (feedPage showName i)) [] = Some (Ok [])) ->
     (forall m, exists pre t post,
        fetchFeed W m (feedPage showName (S k)) = pre ++ EvMeta t :: post /\
        forallb quiet pre = true /\ startsWith t "Page not found" = true) ->
     exists st',
       crawlCategory W fuel showName st = Some (Ok tt, st') /\
       requests st'
       = requests st ++ map (fun i => FEED (feedPage showName i)) (seq 1 (S k)) /\
       console_errors st' = console_errors st /\
       files st' !! scriptName showName = Some (ScriptFile ["set -e"])) /\
  ((forall i m, runFeed (fetchFeed W m (feedPage showName i)) [] = Some (Ok [])) ->
   forall fuel st, crawlCategory W fuel showName st = None).
Proof.
  intros Hs. split; [|split; [|split; [|split]]].
  - intros fuel n c st pre t post. now apply (crawlLoop_not_found W showName s Hs).
  - intros fuel n c st. now apply (crawlLoop_empty_page W showName s Hs).
  - intros fuel st e c st1 Hloop. unfold crawlCategory. fold fresh_crawl. rewrite Hloop.
    assert (Hinv : crawl_inv c st1).
    { apply (crawlLoop_inv W showName fuel 1 fresh_crawl st e c st1); [constructor | exact Hloop]. }
    destruct (finishCrawl_returns W showName e c st1 Hinv) as [commands ->].
    eexists. split; [reflexivity|]. unfold flushed, caught.
    destruct (is_page_not_found e); split; try reflexivity; try discriminate.
    intros _. split; [reflexivity|]. simpl. apply in_or_app. left. apply in_or_app. right. now left.
  - intros k fuel st Hk Hempty Hend.
    replace fuel with (k + S (fuel - S k)) by lia.
    unfold crawlCategory. fold fresh_crawl.
    rewrite (crawlLoop_empty_pages W showName s Hs k)
      by (intros i m Hi; apply Hempty; lia).
    destruct (Hend (length (requests (paged showName 1 k st)))) as (pre & t & post & Hev & Hq & Ht).
    rewrite (crawlLoop_not_found W showName s Hs _ _ _ _ pre t post Hev Hq Ht).
    change (S k) with (1 + k) at 1. rewrite paged_app, finishCrawl_eq. simpl named_of. cbv zeta.
    replace (k + 1) with (S k) by lia.
    eexists. split; [reflexivity|]. split; [reflexivity|]. split; [reflexivity|].
    simpl files. apply lookup_insert_eq.
  - intros Hempty fuel st. unfold crawlCategory.
    now rewrite (crawlLoop_unbounded W showName s Hs fuel).
Qed.

Lemma crawlCategory_end_of_feed_witness :
  exists st',
    crawlCategory short_world 5 "downtown" Sample.start = Some (Ok tt, st') /\
    requests st'
    = [FEED "https://blogs.chapman.edu/huell-howser-archives/category/downtown/feed/atom/?paged=1";
       FEED "https://blogs.chapman.edu/huell-howser-archives/category/downtown/feed/atom/?paged=2"] /\
    console_errors st' = [] /\
    files st' !! "download-downtown.sh" = Some (ScriptFile ["set -e"]).
Proof.
  apply (proj1 (proj2 (proj2 (proj2
           (crawlCategory_end_of_feed short_world "downtown"
              {| name := "Downtown"; tvdb_id := None |} eq_refl)))) 1 5 Sample.start).
  - lia.
  - intros i m Hi. replace i with 1 by lia. reflexivity.
  - intros m. exists [], "Page not found", [EvEnd]. repeat split.
Defined.

(** ** The order of the manifest *)

Lemma insert_sorted_Permutation {A : Type} (cmp : A -> A -> Z) x l :
  Permutation (insert_sorted cmp x l) (x :: l).
Proof.
  induction l as [|y l IH]; simpl; [reflexivity|].
  destruct (cmp x y <? 0)%Z; [reflexivity|].
  rewrite IH. apply perm_swap.
Qed.

Lemma sort_Permutation {A : Type} (cmp : A -> A -> Z) l : Permutation (sort cmp l) l.
Proof.
  unfold sort.
  assert (H : forall acc,
            Permutation (fold_left (fun acc x => insert_sorted cmp x acc) l acc) (acc ++ l)).
  { induction l as [|x l IH]; intros acc; simpl.
    - now rewrite app_nil_r.
    - rewrite IH, insert_sorted_Permutation. apply Permutation_middle. }
  apply (H []).
Qed.

Section Sorting.
Context {A : Type} (cmp : A -> A -> Z).
Hypothesis asym : forall a b, (cmp a b < 0)%Z -> (0 <= cmp b a)%Z.

Lemma insert_sorted_HdRel y x l :
  not_after cmp y x -> HdRel (not_after cmp) y l -> HdRel (not_after cmp) y (insert_sorted cmp x l).
Proof.
  intros Hyx Hl. destruct l as [|z l]; simpl; [now constructor|].
  destruct (cmp x z <? 0)%Z; constructor; [exact Hyx|]. now inversion Hl.
Qed.

Lemma insert_sorted_Sorted x l :
  Sorted (not_after cmp) l -> Sorted (not_after cmp) (insert_sorted cmp x l).
Proof.
  induction 1 as [|y l Hl IH Hy]; simpl; [repeat constructor|].
  destruct (Z.ltb_spec (cmp x y) 0) as [Hlt|Hge].
  - constructor; [now constructor|]. constructor. now apply asym.
  - constructor; [exact IH|]. now apply insert_sorted_HdRel.
Qed.

Lemma sort_Sorted l : Sorted (not_after cmp) (sort cmp l).
Proof.
  unfold sort.
  assert (H : forall acc, Sorted (not_after cmp) acc ->
            Sorted (not_after cmp) (fold_left (fun acc x => insert_sorted cmp x acc) l acc)).
  { induction l as [|x l IH]; intros acc Hacc; simpl; [exact Hacc|].
    apply IH. now apply insert_sorted_Sorted. }
  apply H. constructor.
Qed.

End Sorting.

Lemma Permutation_3 {A : Type} (a b c : A) l :
  Permutation [a; b; c] l ->
  l = [a; b; c] \/ l = [a; c; b] \/ l = [b; a; c] \/
  l = [b; c; a] \/ l = [c; a; b] \/ l = [c; b; a].
Proof.
  intros H. apply permutations_Permutation in H. simpl in H.
  repeat (apply elem_of_cons in H as [->|H]; [tauto|]).
  now apply elem_of_nil in H.
Qed.

(** C7, for the script with the resolver.  The manifest lists the crawled
    pages in the order [sort] gives them by [renamed] under [localeCompare]:
    a rearrangement of the crawled pages in which no page is followed by one
    that compares before it.  So when three pages were crawled, in whatever
    order, and [localeCompare] puts their names in the order A, B, C, the
    script has the commands of A, then of B, then of C. *)
Theorem crawlCategory_sorted (W : World) (showName : string) (fuel : nat) (st : State)
    (e : exn) (c : Crawl) (st1 : State)
    (la lb lc : nat) (pa pb pc : Page) (na nb nc : string) (ca cb cc : list string) :
  crawlLoop W fuel showName 1 fresh_crawl st = Some (e, c, st1) ->
  Permutation [la; lb; lc] (crawled c) ->
  heap st1 !! la = Some pa -> heap st1 !! lb = Some pb -> heap st1 !! lc = Some pc ->
  renamed pa = Some na -> renamed pb = Some nb -> renamed pc = Some nc ->
  (localeCompare W na nb < 0)%Z -> (0 <= localeCompare W nb na)%Z ->
  (localeCompare W nb nc < 0)%Z -> (0 <= localeCompare W nc nb)%Z ->
  (localeCompare W na nc < 0)%Z -> (0 <= localeCompare W nc na)%Z ->
  pageCommands W 3 0 pa = Ok ca ->
  pageCommands W 3 1 pb = Ok cb ->
  pageCommands W 3 2 pc = Ok cc ->
  (exists st',
     crawlCategory W fuel showName st = Some (Ok tt, st') /\
     files st' !! scriptName showName = Some (ScriptFile ("set -e" :: ca ++ cb ++ cc))) /\
  (forall named,
     Permutation (sort (compareRenamed W) named) named /\
     ((forall a b, (localeCompare W a b < 0)%Z -> (0 <= localeCompare W b a)%Z) ->
      Sorted (not_after (compareRenamed W)) (sort (compareRenamed W) named))).
Proof.
  intros Hloop Hperm Hla Hlb Hlc Hna Hnb Hnc Hab Hba Hbc Hcb Hac Hca Hpa Hpb Hpc.
  split.
  2:{ intros named. split; [apply sort_Permutation|].
      intros asym. apply sort_Sorted. intros a b. apply asym. }
  apply Z.ltb_lt in Hab, Hbc, Hac. apply Z.ltb_ge in Hba, Hcb, Hca.
  assert (Hsorted : exists named,
            named_of (heap st1) (crawled c) = Ok named /\
            map snd (sort (compareRenamed W) named) = [pa; pb; pc]).
  { apply Permutation_3 in Hperm.
    destruct Hperm as [-> | [-> | [-> | [-> | [-> | ->]]]]];
      cbn [named_of]; rewrite Hla, Hlb, Hlc, Hna, Hnb, Hnc;
      eexists; (split; [reflexivity|]);
      unfold sort, compareRenamed;
      repeat (cbn [fold_left insert_sorted fst];
              rewrite ?Hab, ?Hba, ?Hbc, ?Hcb, ?Hac, ?Hca);
      reflexivity. }
  destruct Hsorted as (named & Hnamed & Hsort).
  unfold crawlCategory. fold fresh_crawl. rewrite Hloop, finishCrawl_eq, Hnamed.
  cbv zeta. rewrite Hsort. cbn [length manifest]. rewrite Hpa, Hpb, Hpc, app_nil_r.
  eexists. split; [reflexivity|]. simpl files. apply lookup_insert_eq.
Qed.

Lemma crawlCategory_sorted_witness :
  exists st',
    crawlCategory downtown_world 5 "downtown" Sample.start = Some (Ok tt, st') /\
    files st' !! "download-downtown.sh" = Some (ScriptFile downtown_script).
Proof.
  refine (proj1 (crawlCategory_sorted downtown_world "downtown" 5 Sample.start
            (Thrown "Page not found") {| totalSize := Num 3072; crawled := [0; 1; 2] |}
            downtown_end 1 0 2
            (downtown_page_of "Alpha") (downtown_page_of "Bravo") (downtown_page_of "Charlie")
            "videos/downtown/Downtown.Alpha.mp4" "videos/downtown/Downtown.Bravo.mp4"
            "videos/downtown/Downtown.Charlie.mp4"
            [echo_line "1" "Downtown.Alpha.mp4";
             "curl https://vhost.chapman.edu/embed/Alpha.mp4 --create-dirs -k -o videos/downtown/Downtown.Alpha.mp4"]
            [echo_line "2" "Downtown.Bravo.mp4";
             "curl https://vhost.chapman.edu/embed/Bravo.mp4 --create-dirs -k -o videos/downtown/Downtown.Bravo.mp4"]
            [echo_line "3" "Downtown.Charlie.mp4";
             "curl https://vhost.chapman.edu/embed/Charlie.mp4 --create-dirs -k -o videos/downtown/Downtown.Charlie.mp4"]
            _ _ _ _ _ _ _ _ _ _ _ _ _ _ _ _ _)).
  - vm_compute. reflexivity.
  - apply perm_swap.
  - vm_compute. reflexivity.
  - vm_compute. reflexivity.
  - vm_compute. reflexivity.
  - reflexivity.
  - reflexivity.
  - reflexivity.
  - vm_compute. reflexivity.
  - vm_compute. discriminate.
  - vm_compute. reflexivity.
  - vm_compute. discriminate.
  - vm_compute. reflexivity.
  - vm_compute. discriminate.
  - vm_compute. reflexivity.
  - vm_compute. reflexivity.
  - vm_compute. reflexivity.
Defined.

(** The script without the resolver on the same three posts, titled
    "Bravo (3)", "Alpha (2)" and "Charlie (1)": the file names start with
    B, A and C, and the manifest lists them in the order of the episode
    numbers: C, then A, then B. *)
Lemma Legacy_crawlCategory_order_counterexample :
  exists st',
    Legacy.crawlCategory (three_world numbered) 5 "downtown" Sample.start = Some (Ok tt, st') /\
    files st' !! "download-downtown.sh"
    = Some (ScriptFile
        ["wget https://vhost.chapman.edu/embed/Charlie.mp4 --no-check-certificate -nc -O videos/Charlie (1).mp4";
         "wget https://vhost.chapman.edu/embed/Alpha.mp4 --no-check-certificate -nc -O videos/Alpha (2).mp4";
         "wget https://vhost.chapman.edu/embed/Bravo.mp4 --no-check-certificate -nc -O videos/Bravo (3).mp4"]).
Proof.
  eexists. split; [vm_compute; reflexivity|]. vm_compute. reflexivity.
Qed.

(** * Further properties *)

(** ** The catalog cache *)

(** X1.  [getTVDBEpisodes] asks the catalog at most once for a series: a
    successful call leaves the episode list in [CACHE.tvdb] under the series
    and the lists of the other series as they were, and a second call
    returns the same list without a request.  A failed call changes nothing
    but the request log, so that the next call asks again. *)
Theorem getTVDBEpisodes_memo (W : World) (seasonId : Z) (st : State) :
  (forall episodes st1,
     getTVDBEpisodes W seasonId st = (Ok episodes, st1) ->
     CACHE_tvdb st1 !! seasonId = Some episodes /\
     (forall other, other <> seasonId -> CACHE_tvdb st1 !! other = CACHE_tvdb st !! other) /\
     getTVDBEpisodes W seasonId st1 = (Ok episodes, st1)) /\
  (forall e st1,
     getTVDBEpisodes W seasonId st = (Err e, st1) ->
     e = RequestError /\ st1 = logged [TVDB seasonId] st /\
     CACHE_tvdb st1 !! seasonId = None).
Proof.
  assert (Hhit : forall st0 eps, CACHE_tvdb st0 !! seasonId = Some eps ->
            getTVDBEpisodes W seasonId st0 = (Ok eps, st0)).
  { intros st0 eps H. unfold getTVDBEpisodes. now rewrite H. }
  destruct (CACHE_tvdb st !! seasonId) as [cached|] eqn:Hc.
  - rewrite (Hhit _ _ Hc). split; [|discriminate]. intros episodes st1 [= <- <-].
    split; [exact Hc|]. split; [reflexivity|]. now apply Hhit.
  - assert (Hmiss : getTVDBEpisodes W seasonId st =
              match getEpisodesBySeriesId W (length (requests st)) seasonId with
              | Some response =>
                  (Ok response,
                   set_CACHE_tvdb (<[seasonId := response]> (CACHE_tvdb (logged [TVDB seasonId] st)))
                     (logged [TVDB seasonId] st))
              | None => (Err RequestError, logged [TVDB seasonId] st)
              end).
    { unfold getTVDBEpisodes. rewrite Hc. unfold bind at 1. rewrite request_eq.
      now destruct (getEpisodesBySeriesId W (length (requests st)) seasonId). }
    rewrite Hmiss.
    destruct (getEpisodesBySeriesId W (length (requests st)) seasonId) as [response|].
    + split; [|discriminate]. intros episodes st1 [= <- <-].
      assert (Hin : CACHE_tvdb (set_CACHE_tvdb (<[seasonId := response]>
                       (CACHE_tvdb (logged [TVDB seasonId] st))) (logged [TVDB seasonId] st))
                    !! seasonId = Some response) by apply lookup_insert_eq.
      split; [exact Hin|]. split.
      * intros other Hne. simpl. now apply lookup_insert_ne.
      * now apply Hhit.
    + split; [discriminate|]. intros e st1 [= <- <-]. repeat split. exact Hc.
Qed.

Lemma getTVDBEpisodes_memo_witness :
  CACHE_tvdb (snd (getTVDBEpisodes (catalog_world confidence) 279999 Sample.start)) !! 279999%Z
  = Some gold_catalog /\
  getTVDBEpisodes (catalog_world confidence) 279999
    (snd (getTVDBEpisodes (catalog_world confidence) 279999 Sample.start))
  = (Ok gold_catalog, snd (getTVDBEpisodes (catalog_world confidence) 279999 Sample.start)).
Proof.
  destruct (proj1 (getTVDBEpisodes_memo (catalog_world confidence) 279999 Sample.start)
              gold_catalog
              (snd (getTVDBEpisodes (catalog_world confidence) 279999 Sample.start))
              eq_refl) as (H1 & _ & H2).
  split; [exact H1 | exact H2].
Defined.

(** ** The feed *)

Lemma runFeed_quiet pre rest links :
  forallb quiet pre = true ->
  runFeed (pre ++ rest) links = runFeed rest (links ++ links_of pre).
Proof.
  revert links; induction pre as [|ev pre IH]; intros links Hq; simpl.
  - unfold links_of. simpl. now rewrite app_nil_r.
  - simpl in Hq. apply andb_prop in Hq as [Hev Hq].
    destruct ev as [msg|t|items|]; simpl in Hev; try discriminate.
    + apply negb_true_iff in Hev. rewrite Hev. now rewrite IH.
    + rewrite IH by exact Hq. unfold links_of. simpl. now rewrite app_assoc.
Qed.

(** X2.  For a show of [SHOWS], [getFeedPageLinks] makes one request and its
    promise is settled by the first event that is not a readable event or a
    meta event with another title: an end event resolves it with the links
    read so far, in feed order; an error event rejects it with that error;
    whatever the stream emits afterwards is ignored.  A stream that only
    ever emits such quiet events leaves it pending. *)
Theorem getFeedPageLinks_first_settlement (W : World) (showName : string) (s : Show)
    (n : nat) (st : State) (pre post : list FeedEvent) :
  SHOWS !! showName = Some s ->
  forallb quiet pre = true ->
  (fetchFeed W (length (requests st)) (feedPage showName n) = pre ++ EvEnd :: post ->
   getFeedPageLinks W showName n st
   = Some (Ok (links_of pre), logged [FEED (feedPage showName n)] st)) /\
  (forall msg,
     fetchFeed W (length (requests st)) (feedPage showName n) = pre ++ EvError msg :: post ->
     getFeedPageLinks W showName n st
     = Some (Err (FeedError msg), logged [FEED (feedPage showName n)] st)) /\
  (fetchFeed W (length (requests st)) (feedPage showName n) = pre ->
   getFeedPageLinks W showName n st = None).
Proof.
  intros Hs Hq. rewrite (getFeedPageLinks_eq W showName s Hs).
  split; [|split].
  - intros ->. now rewrite runFeed_quiet.
  - intros msg ->. now rewrite runFeed_quiet.
  - intros ->. rewrite <- (app_nil_r pre), runFeed_quiet by exact Hq. reflexivity.
Qed.

Lemma getFeedPageLinks_first_settlement_witness :
  getFeedPageLinks downtown_world "downtown" 1 Sample.start
  = Some (Ok [post "bravo"; post "alpha"; post "charlie"],
          logged [FEED (feedPage "downtown" 1)] Sample.start).
Proof.
  apply (proj1 (getFeedPageLinks_first_settlement downtown_world "downtown"
                  {| name := "Downtown"; tvdb_id := None |} 1 Sample.start
                  [EvMeta "Downtown"; EvReadable [post "bravo"; post "alpha"];
                   EvReadable [post "charlie"]] []
                  eq_refl eq_refl)).
  reflexivity.
Defined.

(** ** The text of the player configuration *)

Lemma occurs_cons pat c s : occurs pat s -> occurs pat (String c s).
Proof. intros (a & b & ->). exists (String c a), b. reflexivity. Qed.

Lemma find_first_leftmost pat s r :
  pat <> "" ->
  find_first pat s = Some r ->
  exists pre, s = pre +:+ pat +:+ r /\ ~ occurs pat pre.
Proof.
  intros Hpat. induction s as [|c s IH]; rewrite find_first_eq.
  - destruct (strip_prefix pat "") as [rest|] eqn:E; [|discriminate].
    intros [= ->]. apply strip_prefix_Some in E. exists "". split; [exact E|].
    intros (a & b & H). destruct a; [|discriminate].
    destruct pat; [congruence | discriminate].
  - destruct (strip_prefix pat (String c s)) as [rest|] eqn:E.
    + intros [= ->]. apply strip_prefix_Some in E. exists "". split; [exact E|].
      intros (a & b & H). destruct a; [|discriminate].
      destruct pat; [congruence | discriminate].
    + intros H. destruct (IH H) as (pre & -> & Hno). exists (String c pre).
      split; [reflexivity|]. intros (a & b & Hab). destruct a as [|x a].
      * rewrite app_nil_s in Hab.
        assert (Hs : String c (pre +:+ pat +:+ r) = pat +:+ (b +:+ pat +:+ r)).
        { rewrite <- app_cons_s, Hab. now rewrite !app_assoc_s. }
        apply strip_prefix_Some in Hs. congruence.
      * rewrite app_cons_s in Hab. injection Hab as _ Hab. apply Hno. now exists a, b.
Qed.

Lemma startsWith_empty pat : pat <> "" -> startsWith "" pat = false.
Proof. intros H. now destruct pat. Qed.

Lemma find_last_rightmost pat s b :
  pat <> "" ->
  find_last pat s = Some b ->
  exists post, s = b +:+ pat +:+ post /\ ~ occurs pat post.
Proof.
  intros Hpat. revert b; induction s as [|c s IH]; intros b; simpl.
  - now rewrite (startsWith_empty _ Hpat).
  - destruct (find_last pat s) as [b'|] eqn:E.
    + intros [= <-]. destruct (IH b' eq_refl) as (post & -> & Hno). now exists post.
    + destruct (startsWith (String c s) pat) eqn:Hst; [|discriminate].
      intros [= <-]. apply startsWith_true in Hst as [post Hpost].
      exists post. split; [exact Hpost|]. intros (x & y & ->).
      destruct pat as [|k pat']; [congruence|].
      rewrite app_cons_s in Hpost. injection Hpost as _ ->.
      apply (find_last_complete (String k pat') (pat' +:+ x) y).
      now rewrite app_assoc_s.
Qed.

(** X3.  The text [getJWConfig] hands to [JSON.parse] is the brace-delimited
    text between the first opening marker ["var jwConfig = {"] of the script
    and the last closing marker ["}; // end config"] after it: when
    [getJWConfig] returns a configuration, the script is some [pre], the
    opening marker, [inner], the closing marker and some [post], with no
    opening marker in [pre] and no closing marker in [post], and the
    configuration is the parse of ["{" + inner + "}"].  When it fails with a
    syntax error the markers are there and that text does not parse. *)
Theorem getJWConfig_framed (W : World) (content : string) :
  (forall config,
     getJWConfig W content = Ok config ->
     exists pre inner post,
       content = pre +:+ jw_open +:+ inner +:+ jw_close +:+ post /\
       ~ occurs jw_open pre /\ ~ occurs jw_close post /\
       JSON_parse W ("{" +:+ inner +:+ "}") = Some config) /\
  (getJWConfig W content = Err SyntaxError ->
   exists pre inner post,
     content = pre +:+ jw_open +:+ inner +:+ jw_close +:+ post /\
     ~ occurs jw_open pre /\ ~ occurs jw_close post /\
     JSON_parse W ("{" +:+ inner +:+ "}") = None).
Proof.
  assert (Hframe : forall text, configMatch content = Some text ->
            exists pre inner post,
              content = pre +:+ jw_open +:+ inner +:+ jw_close +:+ post /\
              ~ occurs jw_open pre /\ ~ occurs jw_close post /\
              text = "{" +:+ inner +:+ "}").
  { intros text. unfold configMatch.
    destruct (find_first jw_open content) as [body|] eqn:E1; [|discriminate].
    destruct (find_last jw_close body) as [inner|] eqn:E2; [|discriminate].
    intros [= <-].
    apply find_first_leftmost in E1 as (pre & -> & Hpre); [|discriminate].
    apply find_last_rightmost in E2 as (post & -> & Hpost); [|discriminate].
    now exists pre, inner, post. }
  unfold getJWConfig. destruct (configMatch content) as [text|]; [|split; discriminate].
  destruct (Hframe text eq_refl) as (pre & inner & post & Hc & Hpre & Hpost & ->).
  destruct (JSON_parse W ("{" +:+ inner +:+ "}")) as [config|] eqn:Hp.
  - split; [|discriminate]. intros ? [= <-]. now exists pre, inner, post.
  - split; [discriminate|]. intros _. now exists pre, inner, post.
Qed.

Lemma getJWConfig_framed_witness :
  exists pre inner post,
    "x = 1; var jwConfig = {}; // end config {}; // end config y"
    = pre +:+ jw_open +:+ inner +:+ jw_close +:+ post /\
    ~ occurs jw_open pre /\ ~ occurs jw_close post /\
    JSON_parse (player_world [source_480]) ("{" +:+ inner +:+ "}")
    = Some {| playlist := PlaylistItems [{| sources := Some [source_480] |}] |}.
Proof.
  apply (proj1 (getJWConfig_framed (player_world [source_480])
                  "x = 1; var jwConfig = {}; // end config {}; // end config y")).
  reflexivity.
Defined.

(** ** Where the videos of a page come from *)

Lemma videos_from_refl l vs : videos_from l vs vs.
Proof. intros q v H. now left. Qed.

Lemma videos_from_cons s l vs vs' : videos_from l vs vs' -> videos_from (s :: l) vs vs'.
Proof.
  intros H q v Hv. destruct (H q v Hv) as [?|(s' & Hin & Hm)]; [now left|].
  right. exists s'. split; [now right | exact Hm].
Qed.

Lemma scanSources_sound W l : forall vs st vs' st',
  scanSources W l vs st = (Ok vs', st') -> videos_from l vs vs'.
Proof.
  induction l as [|s rest IH]; intros vs st vs' st'; simpl.
  - intros [= <- _]. apply videos_from_refl.
  - destruct (is_hls s) eqn:Hh.
    { intros H. apply videos_from_cons. exact (IH _ _ _ _ H). }
    intros H. apply bind_Ok in H as (sz & st1 & _ & H).
    destruct (has_width 720 s) eqn:H7.
    + apply IH in H. intros q v Hv. destruct (H q v Hv) as [Hold|(s' & Hin & Hm)].
      * destruct q; simpl in Hold.
        -- right. exists s. split; [now left|]. injection Hold as <-.
           repeat split; assumption.
        -- now left.
      * right. exists s'. split; [now right | exact Hm].
    + destruct (has_width 480 s) eqn:H4.
      * injection H as <- _. intros q v Hv. destruct q; simpl in Hv.
        -- now left.
        -- right. exists s. split; [now left|]. injection Hv as <-.
           repeat split; assumption.
      * apply videos_from_cons. exact (IH _ _ _ _ H).
Qed.

(** X4.  A page returned by [getVideosFromJWPlayer] carries the title, the
    page URL and the script URL it was called with, and no subtitles, show
    or file name.  Its configuration had a playlist whose first entry has
    sources, and each of its videos was made from one of them: the HD video
    from a source that is not hls and is 720 wide, the SD video from one
    that is not hls and is 480 wide, with the URL ["https:" + file] of that
    source. *)
Theorem getVideosFromJWPlayer_sound (W : World) (aTitle aPageUrl aSourceUrl : string)
    (st st' : State) (page : Page) :
  getVideosFromJWPlayer W aTitle aPageUrl aSourceUrl st = (Ok page, st') ->
  pageUrl page = aPageUrl /\ sourceUrl page = aSourceUrl /\
  title page = aTitle /\
  subtitles page = None /\ show page = None /\ renamed page = None /\
  exists content config first items srcs,
    fetchScript W (length (requests st)) aSourceUrl = Some content /\
    getJWConfig W content = Ok config /\
    playlist config = PlaylistItems (first :: items) /\
    sources first = Some srcs /\
    forall q v, get_video q (videos page) = Some v ->
      exists s, In s srcs /\ made_from q s v.
Proof.
  unfold getVideosFromJWPlayer. intros H.
  apply bind_Ok in H as (content & st1 & Hreq & H).
  rewrite request_eq in Hreq.
  destruct (fetchScript W (length (requests st)) aSourceUrl) as [content'|] eqn:Hs;
    [|discriminate].
  injection Hreq as -> <-.
  apply bind_Ok in H as (config & st2 & Hcfg & H).
  unfold lift in Hcfg. injection Hcfg as Hcfg <-.
  destruct (playlist config) as [| |[|first items]] eqn:Hp; try discriminate.
  destruct (sources first) as [srcs|] eqn:Hsrc; [|discriminate].
  apply bind_Ok in H as (vs & st3 & Hscan & H).
  injection H as <- _. repeat (split; [reflexivity|]).
  exists content, config, first, items, srcs. split; [reflexivity|].
  repeat (split; [assumption|]). simpl videos.
  intros q v Hv. apply scanSources_sound in Hscan.
  destruct (Hscan q v Hv) as [Hold|(s & Hin & Hm)].
  - destruct q; discriminate.
  - exists s. split; [|exact Hm]. now apply in_rev.
Qed.


Lemma getVideosFromJWPlayer_sound_witness :
  title player_page = "Old Faithful" /\
  forall q v, get_video q (videos player_page) = Some v ->
    exists s, In s [source_hls; source_320; source_480; source_720] /\ made_from q s v.
Proof.
  destruct (getVideosFromJWPlayer_sound
              (player_world [source_hls; source_320; source_480; source_720])
              "Old Faithful" "https://blogs.chapman.edu/old-faithful/"
              "https://content.jwplatform.com/players/abc.js"
              Sample.start player_state player_page)
    as (_ & _ & Ht & _ & _ & _ & content & config & first & items & srcs & Hf & Hc & Hp & Hs & Hv).
  - vm_compute. reflexivity.
  - split; [exact Ht|]. injection Hf as <-. injection Hc as <-.
    injection Hp as <- _. injection Hs as <-. exact Hv.
Defined.

Lemma getIframeVideosOfQuality_Ok W attrs s vs q st vs' st' :
  getIframeVideosOfQuality W attrs s vs q st = (Ok vs', st') ->
  (List.filter (has_label q) attrs = [] /\ vs' = vs /\ st' = st) \/
  (exists a sz,
     List.filter (has_label q) attrs = [a] /\
     vs' = set_video q {| src := attr_src a; label := quality_label q; size := sz |} vs /\
     st' = logged [HEAD (attr_src a)] st).
Proof.
  unfold getIframeVideosOfQuality.
  destruct (List.filter (has_label q) attrs) as [|a [|a' l]]; [| |discriminate].
  - intros [= <- <-]. now left.
  - intros H. apply bind_Ok in H as (sz & st1 & Hsz & H). injection H as <- <-.
    right. exists a, sz. repeat split.
    replace st1 with (snd (getFileSize W (attr_src a) st)) by now rewrite Hsz.
    apply getFileSize_logs.
Qed.

Lemma iframe_videos_of W attrs s st vs1 st1 vs2 st2 :
  getIframeVideosOfQuality W attrs s no_videos SD st = (Ok vs1, st1) ->
  getIframeVideosOfQuality W attrs s vs1 HD st1 = (Ok vs2, st2) ->
  videos_of attrs vs2.
Proof.
  intros H1 H2.
  apply getIframeVideosOfQuality_Ok in H1 as [(F1 & -> & _)|(a1 & sz1 & F1 & -> & _)];
    apply getIframeVideosOfQuality_Ok in H2 as [(F2 & -> & _)|(a2 & sz2 & F2 & -> & _)];
    intros [|]; simpl; eauto.
Qed.

(** X5.  A page returned by [getVideosFromIframe] carries the title, the
    page URL and the iframe URL it was called with; its subtitles are the
    first [video > track] of the iframe document, if any; and for each of
    the qualities SD and HD it has the only source labelled with it, or
    none when no source has that label.  When two or more sources are
    labelled SD it throws "More than one SD video found" before any probe.
    The script without subtitles agrees on the videos. *)
Theorem getVideosFromIframe_sound (W : World) (aTitle aPageUrl aSourceUrl : string)
    (st : State) (doc : IframeDocument) :
  fetchIframe W (length (requests st)) aSourceUrl = Some doc ->
  (forall page st',
     getVideosFromIframe W aTitle aPageUrl aSourceUrl st = (Ok page, st') ->
     pageUrl page = aPageUrl /\ sourceUrl page = aSourceUrl /\ title page = aTitle /\
     show page = None /\ renamed page = None /\
     subtitles page = head (doc_tracks doc) /\
     videos_of (doc_sources doc) (videos page)) /\
  (forall page st',
     Legacy.getVideosFromIframe W aTitle aPageUrl aSourceUrl st = (Ok page, st') ->
     subtitles page = None /\ videos_of (doc_sources doc) (videos page)) /\
  (2 <= length (List.filter (has_label SD) (doc_sources doc)) ->
   getVideosFromIframe W aTitle aPageUrl aSourceUrl st
   = (Err (Thrown ("More than one SD video found: " +:+ aSourceUrl)),
      logged [GET aSourceUrl] st) /\
   Legacy.getVideosFromIframe W aTitle aPageUrl aSourceUrl st
   = getVideosFromIframe W aTitle aPageUrl aSourceUrl st).
Proof.
  intros Hdoc. split; [|split].
  - intros page st'. unfold getVideosFromIframe. intros H.
    apply bind_Ok in H as (doc' & st1 & Hreq & H).
    rewrite request_eq, Hdoc in Hreq. injection Hreq as <- <-.
    apply bind_Ok in H as (vs1 & st2 & H1 & H).
    apply bind_Ok in H as (vs2 & st3 & H2 & H).
    injection H as <- _. repeat (split; [reflexivity|]).
    exact (iframe_videos_of _ _ _ _ _ _ _ _ H1 H2).
  - intros page st'. unfold Legacy.getVideosFromIframe. intros H.
    apply bind_Ok in H as (doc' & st1 & Hreq & H).
    rewrite request_eq, Hdoc in Hreq. injection Hreq as <- <-.
    apply bind_Ok in H as (vs1 & st2 & H1 & H).
    apply bind_Ok in H as (vs2 & st3 & H2 & H).
    injection H as <- _. split; [reflexivity|].
    exact (iframe_videos_of _ _ _ _ _ _ _ _ H1 H2).
  - intros Hlen.
    assert (Hsd : forall vs st0,
              getIframeVideosOfQuality W (doc_sources doc) aSourceUrl vs SD st0
              = (Err (Thrown ("More than one SD video found: " +:+ aSourceUrl)), st0)).
    { intros vs st0. unfold getIframeVideosOfQuality.
      destruct (List.filter (has_label SD) (doc_sources doc)) as [|a [|a' l]];
        simpl in Hlen; try lia. reflexivity. }
    assert (Hmain : getVideosFromIframe W aTitle aPageUrl aSourceUrl st
                    = (Err (Thrown ("More than one SD video found: " +:+ aSourceUrl)),
                       logged [GET aSourceUrl] st)).
    { unfold getVideosFromIframe. unfold bind at 1. rewrite request_eq, Hdoc.
      unfold bind at 1. now rewrite Hsd. }
    split; [exact Hmain|]. rewrite Hmain.
    unfold Legacy.getVideosFromIframe. unfold bind at 1. rewrite request_eq, Hdoc.
    unfold bind at 1. now rewrite Hsd.
Qed.

Lemma getVideosFromIframe_sound_witness :
  title both_markers_page = "Old Faithful" /\ subtitles both_markers_page = None /\
  videos_of [{| attr_src := "https://vhost.chapman.edu/112_sd.mp4";
                attr_label := Some "SD" |}] (videos both_markers_page).
Proof.
  assert (H : getVideosFromIframe both_markers_world "Old Faithful"
                "https://blogs.chapman.edu/old-faithful/" "https://vhost.chapman.edu/embed/112"
                Sample.start
              = (Ok both_markers_page,
                 logged [GET "https://vhost.chapman.edu/embed/112";
                         HEAD "https://vhost.chapman.edu/112_sd.mp4"] Sample.start))
    by (vm_compute; reflexivity).
  destruct (proj1 (getVideosFromIframe_sound both_markers_world "Old Faithful"
                     "https://blogs.chapman.edu/old-faithful/"
                     "https://vhost.chapman.edu/embed/112" Sample.start
                     {| doc_sources := [{| attr_src := "https://vhost.chapman.edu/112_sd.mp4";
                                           attr_label := Some "SD" |}];
                        doc_tracks := [] |} eq_refl) _ _ H)
    as (_ & _ & Ht & _ & _ & Hsub & Hv).
  split; [exact Ht|]. split; [exact Hsub | exact Hv].
Defined.

(** ** The store only grows *)

Lemma same_content_refl p : same_content p p.
Proof. repeat split. Qed.

Lemma same_content_trans p1 p2 p3 :
  same_content p1 p2 -> same_content p2 p3 -> same_content p1 p3.
Proof.
  intros (A1 & A2 & A3 & A4 & A5) (B1 & B2 & B3 & B4 & B5).
  repeat split; congruence.
Qed.

Lemma extends_refl st : extends st st.
Proof.
  repeat split; auto. intros l p H. exists p. split; [exact H | apply same_content_refl].
Qed.

Lemma extends_trans st1 st2 st3 : extends st1 st2 -> extends st2 st3 -> extends st1 st3.
Proof.
  intros (A1 & A2 & A3) (B1 & B2 & B3). repeat split; auto.
  intros l p H. destruct (A3 l p H) as (p' & H' & Hc).
  destruct (B3 l p' H') as (p'' & H'' & Hc'). exists p''.
  split; [exact H'' | exact (same_content_trans _ _ _ Hc Hc')].
Qed.

Lemma grows_refl st : grows st st.
Proof. split; [apply extends_refl | auto]. Qed.

Lemma grows_trans st1 st2 st3 : grows st1 st2 -> grows st2 st3 -> grows st1 st3.
Proof.
  intros [A1 A2] [B1 B2]. split; [exact (extends_trans _ _ _ A1 B1) | auto].
Qed.

(** Nothing grows less than a state with the same heap and caches. *)
Lemma grows_same st st' :
  heap st' = heap st -> CACHE_pages st' = CACHE_pages st ->
  (forall id episodes, CACHE_tvdb st !! id = Some episodes ->
     CACHE_tvdb st' !! id = Some episodes) ->
  grows st st'.
Proof.
  intros Hh Hc Ht. split.
  - repeat split.
    + intros url l. now rewrite Hc.
    + exact Ht.
    + intros l p H. exists p. rewrite Hh. split; [exact H | apply same_content_refl].
  - intros Hwf url l. rewrite Hc, Hh. apply Hwf.
Qed.

Lemma growing_bind {A B : Type} (m : M A) (f : A -> M B) :
  growing m -> (forall a, growing (f a)) -> growing (bind m f).
Proof.
  intros Hm Hf st. unfold bind. specialize (Hm st).
  destruct (m st) as [[a|e] st1]; simpl in Hm; [|exact Hm].
  eapply grows_trans; [exact Hm | apply Hf].
Qed.

Lemma only_logs_growing {A : Type} (m : M A) : only_logs m -> growing m.
Proof. intros H st. destruct (H st) as [rs ->]. now apply grows_same. Qed.

Lemma growing_ret {A : Type} (a : A) : growing (ret a).
Proof. intros st. apply grows_refl. Qed.

Lemma growing_throw {A : Type} (e : exn) : growing (@throw A e).
Proof. intros st. apply grows_refl. Qed.

Lemma growing_lift {A : Type} (r : Result A) : growing (lift r).
Proof. intros st. apply grows_refl. Qed.

Lemma growing_console_log line : growing (console_log line).
Proof. intros st. now apply grows_same. Qed.

Lemma growing_console_error e : growing (console_error e).
Proof. intros st. now apply grows_same. Qed.

Lemma growing_writeFile path data : growing (writeFile path data).
Proof. intros st. now apply grows_same. Qed.

Lemma growing_read_page l : growing (read_page l).
Proof. intros st. unfold read_page. destruct (heap st !! l); apply grows_refl. Qed.

Lemma growing_fuzzyset k names : growing (fuzzyset k names).
Proof.
  intros st. unfold fuzzyset. destruct (fuzzysets st !! k); [apply grows_refl|].
  now apply grows_same.
Qed.

Lemma growing_getTVDBEpisodes W id : growing (getTVDBEpisodes W id).
Proof.
  intros st. unfold getTVDBEpisodes.
  destruct (CACHE_tvdb st !! id) as [cached|] eqn:Hc; [apply grows_refl|].
  unfold bind at 1. rewrite request_eq.
  destruct (getEpisodesBySeriesId W (length (requests st)) id) as [response|];
    [|now apply grows_same].
  apply grows_same; try reflexivity.
  intros id' eps H. simpl. destruct (decide (id = id')) as [<-|Hne]; [congruence|].
  now rewrite lookup_insert_ne.
Qed.

Lemma growing_update_page l f :
  (forall p, same_content p (f p)) -> growing (update_page l f).
Proof.
  intros Hf st. unfold update_page. destruct (heap st !! l) as [p0|] eqn:E;
    [|apply grows_refl].
  assert (Hl : l < length (heap st)) by (now apply lookup_lt_Some in E).
  split.
  - repeat split; auto. intros l' p H. simpl.
    destruct (decide (l = l')) as [<-|Hne].
    + exists (f p0). split; [now apply list_lookup_insert_eq|]. replace p with p0 by congruence.
      apply Hf.
    + exists p. split; [now rewrite list_lookup_insert_ne | apply same_content_refl].
  - intros Hwf url l' Hc. simpl in *. destruct (Hwf url l' Hc) as (p & Hp & Hu).
    destruct (decide (l = l')) as [<-|Hne].
    + exists (f p0). split; [now apply list_lookup_insert_eq|].
      replace p with p0 in Hu by congruence. now rewrite (proj1 (Hf p0)).
    + exists p. split; [now rewrite list_lookup_insert_ne | exact Hu].
Qed.

Lemma store_grows url page st :
  CACHE_pages st !! url = None -> pageUrl page = url ->
  grows st (snd (store url page st)).
Proof.
  intros Hmiss Hurl. rewrite store_eq. split.
  - repeat split; simpl; auto.
    + intros url' l H. destruct (decide (url = url')) as [<-|Hne]; [congruence|].
      now rewrite lookup_insert_ne.
    + intros l p H. exists p. split; [now apply lookup_app_l_Some | apply same_content_refl].
  - intros Hwf url' l. simpl. destruct (decide (url = url')) as [<-|Hne].
    + rewrite lookup_insert_eq. intros [= <-]. exists page. split; [|exact Hurl].
      rewrite lookup_app_r by lia. now rewrite Nat.sub_diag.
    + rewrite lookup_insert_ne by exact Hne. intros H.
      destruct (Hwf url' l H) as (p & Hp & Hu). exists p.
      split; [now apply lookup_app_l_Some | exact Hu].
Qed.

Lemma getVideosFromIframe_pageUrl W t p s st page st' :
  getVideosFromIframe W t p s st = (Ok page, st') -> pageUrl page = p.
Proof.
  unfold getVideosFromIframe. intros H.
  apply bind_Ok in H as (doc & st1 & _ & H).
  apply bind_Ok in H as (vs1 & st2 & _ & H).
  apply bind_Ok in H as (vs2 & st3 & _ & H). now injection H as <- _.
Qed.

Lemma Legacy_getVideosFromIframe_pageUrl W t p s st page st' :
  Legacy.getVideosFromIframe W t p s st = (Ok page, st') -> pageUrl page = p.
Proof.
  unfold Legacy.getVideosFromIframe. intros H.
  apply bind_Ok in H as (doc & st1 & _ & H).
  apply bind_Ok in H as (vs1 & st2 & _ & H).
  apply bind_Ok in H as (vs2 & st3 & _ & H). now injection H as <- _.
Qed.

Lemma getVideosFromJWPlayer_pageUrl W t p s st page st' :
  getVideosFromJWPlayer W t p s st = (Ok page, st') -> pageUrl page = p.
Proof.
  unfold getVideosFromJWPlayer. intros H.
  apply bind_Ok in H as (content & st1 & _ & H).
  apply bind_Ok in H as (config & st2 & _ & H).
  destruct (playlist config) as [| |[|first items]]; try discriminate.
  destruct (sources first); [|discriminate].
  apply bind_Ok in H as (vs & st3 & _ & H). now injection H as <- _.
Qed.

(** An extraction followed by [store], from a state where the URL is not
    cached. *)
Lemma extract_store_grows (m : M Page) url st :
  only_logs m ->
  (forall st0 page st1, m st0 = (Ok page, st1) -> pageUrl page = url) ->
  CACHE_pages st !! url = None ->
  grows st (snd ((page <- m;; store url page) st)).
Proof.
  intros Hm Hurl Hmiss. unfold bind. destruct (Hm st) as [rs Hrs].
  destruct (m st) as [[page|e] st1] eqn:E; simpl in Hrs; subst st1.
  - apply (grows_trans st (logged rs st)); [now apply grows_same|].
    apply store_grows; [exact Hmiss | exact (Hurl _ _ _ E)].
  - now apply grows_same.
Qed.

Lemma growing_getPageVideos W url : growing (getPageVideos W url).
Proof.
  intros st. destruct (CACHE_pages st !! url) as [l|] eqn:Hc.
  { unfold getPageVideos. rewrite Hc. apply grows_refl. }
  rewrite (getPageVideos_miss W _ _ Hc). unfold bind at 1. rewrite request_eq.
  destruct (fetchPage W (length (requests st)) url) as [doc|]; [|now apply grows_same].
  eapply grows_trans; [apply (grows_same st (logged [GET url] st)); auto|].
  destruct (doc_iframes doc) as [|iframeUrl [|? ?]].
  - destruct (doc_jwVideo doc) as [|jwSrc [|? ?]]; try apply grows_refl.
    apply extract_store_grows; [apply getVideosFromJWPlayer_only_logs| |exact Hc].
    intros st0 page st1. apply getVideosFromJWPlayer_pageUrl.
  - apply extract_store_grows; [apply getVideosFromIframe_only_logs| |exact Hc].
    intros st0 page st1. apply getVideosFromIframe_pageUrl.
  - apply grows_refl.
Qed.

Lemma growing_Legacy_getPageVideos W url : growing (Legacy.getPageVideos W url).
Proof.
  intros st. destruct (CACHE_pages st !! url) as [l|] eqn:Hc.
  { unfold Legacy.getPageVideos. rewrite Hc. apply grows_refl. }
  rewrite (Legacy_getPageVideos_miss W _ _ Hc). unfold bind at 1. rewrite request_eq.
  destruct (fetchPage W (length (requests st)) url) as [doc|]; [|now apply grows_same].
  eapply grows_trans; [apply (grows_same st (logged [GET url] st)); auto|].
  destruct (doc_iframes doc) as [|iframeUrl [|? ?]].
  - destruct (doc_jwVideo doc) as [|jwSrc [|? ?]]; try apply grows_refl.
    apply extract_store_grows; [apply getVideosFromJWPlayer_only_logs| |exact Hc].
    intros st0 page st1. apply getVideosFromJWPlayer_pageUrl.
  - apply extract_store_grows; [apply Legacy_getVideosFromIframe_only_logs| |exact Hc].
    intros st0 page st1. apply Legacy_getVideosFromIframe_pageUrl.
  - apply grows_refl.
Qed.

Lemma growing_renameEpisode W page : growing (renameEpisode W page).
Proof.
  unfold renameEpisode. destruct (show page) as [showKey|]; [|apply growing_throw].
  destruct (SHOWS !! showKey) as [s|]; [|apply growing_throw].
  destruct (tvdb_id s) as [id|]; [|apply growing_ret].
  apply growing_bind; [apply growing_getTVDBEpisodes|]. intros episodes.
  apply growing_bind; [apply growing_fuzzyset|]. intros names.
  destruct (FuzzySet_get W names _) as [[|firstMatch rest]|].
  - apply growing_throw.
  - apply growing_bind.
    + destruct (Qlt_bool _ _); [|apply growing_ret].
      apply growing_bind; [apply growing_console_log | intros; apply growing_ret].
    + intros [e|]; (apply growing_bind; [apply growing_console_log | intros; apply growing_ret]).
  - apply growing_bind; [apply growing_console_log | intros; apply growing_ret].
Qed.

Lemma same_content_set_show k p : same_content p (set_show k p).
Proof. destruct p. repeat split. Qed.

Lemma same_content_set_renamed r p : same_content p (set_renamed r p).
Proof. destruct p. repeat split. Qed.

Lemma growing_crawlLink W showName link : growing (crawlLink W showName link).
Proof.
  unfold crawlLink.
  apply growing_bind; [apply growing_getPageVideos|]. intros l.
  apply growing_bind; [apply growing_update_page, same_content_set_show|]. intros _.
  apply growing_bind; [apply growing_read_page|]. intros page.
  apply growing_bind; [apply growing_renameEpisode|]. intros r.
  apply growing_bind; [apply growing_update_page, same_content_set_renamed|]. intros _.
  apply growing_bind; [apply growing_lift|]. intros video.
  apply growing_bind; [apply growing_console_log | intros; apply growing_ret].
Qed.

Lemma growing_Legacy_crawlLink W link : growing (Legacy.crawlLink W link).
Proof.
  unfold Legacy.crawlLink.
  apply growing_bind; [apply growing_Legacy_getPageVideos|]. intros l.
  apply growing_bind; [apply growing_read_page|]. intros page.
  apply growing_bind; [apply growing_lift|]. intros video.
  apply growing_bind; [apply growing_console_log | intros; apply growing_ret].
Qed.

Lemma crawlLinks_grows W showName links : forall c st,
  grows st (snd (crawlLinks W showName links c st)).
Proof.
  induction links as [|link rest IH]; intros c st; simpl; [apply grows_refl|].
  pose proof (growing_crawlLink W showName link st) as H.
  destruct (crawlLink W showName link st) as [[[l sz]|e] st1]; simpl in *; [|exact H].
  eapply grows_trans; [exact H | apply IH].
Qed.

Lemma Legacy_crawlLinks_grows W links : forall c st,
  grows st (snd (Legacy.crawlLinks W links c st)).
Proof.
  induction links as [|link rest IH]; intros c st; simpl; [apply grows_refl|].
  pose proof (growing_Legacy_crawlLink W link st) as H.
  destruct (Legacy.crawlLink W link st) as [[[l sz]|e] st1]; simpl in *; [|exact H].
  eapply grows_trans; [exact H | apply IH].
Qed.

Lemma getFeedPageLinks_grows W showName n st r st' :
  getFeedPageLinks W showName n st = Some (r, st') -> grows st st'.
Proof.
  unfold getFeedPageLinks. destruct (SHOWS !! showName).
  - destruct (runFeed _ _); [|discriminate]. intros [= _ <-]. now apply grows_same.
  - intros [= _ <-]. apply grows_refl.
Qed.

Lemma Legacy_getFeedPageLinks_grows W showName n st r st' :
  Legacy.getFeedPageLinks W showName n st = Some (r, st') -> grows st st'.
Proof.
  unfold Legacy.getFeedPageLinks.
  destruct (runFeed _ _); [|discriminate]. intros [= _ <-]. now apply grows_same.
Qed.

Lemma crawlLoop_grows W showName fuel : forall n c st e c' st',
  crawlLoop W fuel showName n c st = Some (e, c', st') -> grows st st'.
Proof.
  induction fuel as [|fuel IH]; intros n c st e c' st'; [discriminate|].
  rewrite (crawlLoop_S W showName).
  set (st1 := said [pageLine n] st).
  assert (H1 : grows st st1) by (now apply grows_same).
  destruct (getFeedPageLinks W showName n st1) as [[[links|e0] st2]|] eqn:Hf;
    [| |discriminate].
  - pose proof (getFeedPageLinks_grows _ _ _ _ _ _ Hf) as H2.
    pose proof (crawlLinks_grows W showName links c st2) as H3.
    destruct (crawlLinks W showName links c st2) as [[[e1|] c1] st3]; simpl in H3.
    + intros [= _ _ <-]. eauto using grows_trans.
    + intros H. apply IH in H. eauto using grows_trans.
  - intros [= _ _ <-]. pose proof (getFeedPageLinks_grows _ _ _ _ _ _ Hf). eauto using grows_trans.
Qed.

Lemma growing_mapM {A B : Type} (f : A -> M B) (l : list A) :
  (forall a, growing (f a)) -> growing (mapM f l).
Proof.
  intros Hf. induction l as [|a l IH]; simpl; [apply growing_ret|].
  apply growing_bind; [apply Hf|]. intros b.
  apply growing_bind; [exact IH | intros; apply growing_ret].
Qed.

Lemma growing_finishCrawl W showName e c : growing (finishCrawl W showName e c).
Proof.
  unfold finishCrawl.
  apply growing_bind.
  { destruct (is_page_not_found e); [apply growing_console_log | apply growing_console_error]. }
  intros _. apply growing_bind.
  { intros st. apply growing_writeFile. }
  intros _. apply growing_bind; [apply growing_console_log|]. intros _.
  apply growing_bind.
  { apply growing_mapM. intros l. apply growing_bind; [apply growing_read_page|].
    intros page. apply growing_bind; [apply growing_lift | intros; apply growing_ret]. }
  intros named. apply growing_bind; [apply growing_lift | intros; apply growing_writeFile].
Qed.

Lemma growing_Legacy_finishCrawl W showName e c : growing (Legacy.finishCrawl W showName e c).
Proof.
  unfold Legacy.finishCrawl.
  apply growing_bind.
  { destruct (is_page_not_found e); [apply growing_console_log | apply growing_console_error]. }
  intros _. apply growing_bind; [apply growing_console_log|]. intros _.
  apply growing_bind; [apply growing_mapM, growing_read_page|].
  intros pages. apply growing_bind; [apply growing_lift | intros; apply growing_writeFile].
Qed.

Lemma Legacy_crawlLoop_grows W showName fuel : forall n c st e c' st',
  Legacy.crawlLoop W fuel showName n c st = Some (e, c', st') -> grows st st'.
Proof.
  induction fuel as [|fuel IH]; intros n c st e c' st'; [discriminate|].
  cbn [Legacy.crawlLoop].
  set (st1 := set_console _ st).
  assert (H1 : grows st st1) by (now apply grows_same).
  destruct (Legacy.getFeedPageLinks W showName n st1) as [[[links|e0] st2]|] eqn:Hf;
    [| |discriminate].
  - pose proof (Legacy_getFeedPageLinks_grows _ _ _ _ _ _ Hf) as H2.
    pose proof (Legacy_crawlLinks_grows W links c st2) as H3.
    destruct (Legacy.crawlLinks W links c st2) as [[[e1|] c1] st3]; simpl in H3.
    + intros [= _ _ <-]. eauto using grows_trans.
    + intros H. apply IH in H. eauto using grows_trans.
  - intros [= _ _ <-]. pose proof (Legacy_getFeedPageLinks_grows _ _ _ _ _ _ Hf).
    eauto using grows_trans.
Qed.

(** X6.  A crawl never forgets: however [crawlCategory] ends (end of the
    feed or a failure, manifest written or not), every page and every catalog
    that was cached before is cached after, under the same key and as the
    same object; every page object keeps its URL, source, title, videos and
    subtitles (the crawl writes only [show] and [renamed]); and if every
    cache entry was a page object with its key as [pageUrl], that is still
    so, the new entries included.  The earlier script does the same. *)
Theorem crawlCategory_grows (W : World) (fuel : nat) (showName : string) (st : State) :
  (forall r st', crawlCategory W fuel showName st = Some (r, st') ->
     extends st st' /\ (cache_wf st -> cache_wf st')) /\
  (forall r st', Legacy.crawlCategory W fuel showName st = Some (r, st') ->
     extends st st' /\ (cache_wf st -> cache_wf st')).
Proof.
  split; intros r st'.
  - unfold crawlCategory.
    destruct (crawlLoop W fuel showName 1 _ st) as [[[e c] st1]|] eqn:E; [|discriminate].
    intros [= H]. apply crawlLoop_grows in E.
    pose proof (growing_finishCrawl W showName e c st1) as H2. rewrite H in H2.
    exact (grows_trans _ _ _ E H2).
  - unfold Legacy.crawlCategory.
    destruct (Legacy.crawlLoop W fuel showName 1 _ st) as [[[e c] st1]|] eqn:E; [|discriminate].
    intros [= H]. apply Legacy_crawlLoop_grows in E.
    pose proof (growing_Legacy_finishCrawl W showName e c st1) as H2. rewrite H in H2.
    exact (grows_trans _ _ _ E H2).
Qed.

Lemma crawlCategory_grows_witness :
  extends Sample.start downtown_done /\ (cache_wf Sample.start -> cache_wf downtown_done).
Proof.
  apply (proj1 (crawlCategory_grows downtown_world 5 "downtown" Sample.start) (Ok tt)).
  vm_compute. reflexivity.
Defined.

(** ** The cache file *)

Lemma scriptName_not_cache showName : scriptName showName <> "cache.json".
Proof. unfold scriptName. rewrite !app_cons_s. discriminate. Qed.

Lemma heap_caught e st : heap (caught e st) = heap st.
Proof. unfold caught. now destruct (is_page_not_found e). Qed.

Lemma CACHE_pages_caught e st : CACHE_pages (caught e st) = CACHE_pages st.
Proof. unfold caught. now destruct (is_page_not_found e). Qed.

Lemma CACHE_tvdb_caught e st : CACHE_tvdb (caught e st) = CACHE_tvdb st.
Proof. unfold caught. now destruct (is_page_not_found e). Qed.

(** X7.  Whenever the loop of [crawlCategory] ends, by the end of the feed
    or by any failure, and whether or not the manifest can then be written,
    [cache.json] is written with the cache as it is at the return: under each
    cached URL the page object with the [show] and [renamed] the crawl gave
    it, and the catalogs; the manifest is another file. *)
Theorem crawlCategory_writes_cache (W : World) (fuel : nat) (showName : string)
    (st : State) (r : Result unit) (st' : State) :
  crawlCategory W fuel showName st = Some (r, st') ->
  exists pages,
    files st' !! "cache.json" = Some (CacheFile pages (CACHE_tvdb st')) /\
    (forall url, pages !! url = CACHE_pages st' !! url ≫= (fun l => heap st' !! l)) /\
    scriptName showName <> "cache.json".
Proof.
  unfold crawlCategory.
  destruct (crawlLoop W fuel showName 1 _ st) as [[[e c] st1]|]; [|discriminate].
  intros [= H]. rewrite finishCrawl_eq in H.
  exists (omap (fun l => heap st1 !! l) (CACHE_pages st1)).
  assert (Hfl : files (flushed W e c st1) !! "cache.json"
                = Some (CacheFile (omap (fun l => heap st1 !! l) (CACHE_pages st1))
                          (CACHE_tvdb st1)) /\
                heap (flushed W e c st1) = heap st1 /\
                CACHE_pages (flushed W e c st1) = CACHE_pages st1 /\
                CACHE_tvdb (flushed W e c st1) = CACHE_tvdb st1).
  { unfold flushed. simpl. rewrite lookup_insert_eq. unfold cacheContents.
    now rewrite heap_caught, CACHE_pages_caught, CACHE_tvdb_caught. }
  destruct Hfl as (Hf & Hh & Hc & Ht).
  assert (Hst : files st' !! "cache.json"
                = Some (CacheFile (omap (fun l => heap st1 !! l) (CACHE_pages st1))
                          (CACHE_tvdb st1)) /\
                heap st' = heap st1 /\ CACHE_pages st' = CACHE_pages st1 /\
                CACHE_tvdb st' = CACHE_tvdb st1).
  { destruct (named_of (heap st1) (crawled c)) as [named|x].
    - cbv zeta in H. destruct (manifest W _ 0 _) as [commands|x].
      + injection H as _ <-. simpl.
        rewrite lookup_insert_ne by apply scriptName_not_cache. auto.
      + injection H as _ <-. auto.
    - injection H as _ <-. auto. }
  destruct Hst as (-> & -> & -> & ->). split; [reflexivity|].
  split; [|apply scriptName_not_cache]. intros url. apply lookup_omap.
Qed.

Lemma crawlCategory_writes_cache_witness :
  exists pages,
    files downtown_done !! "cache.json" = Some (CacheFile pages (CACHE_tvdb downtown_done)) /\
    (forall url, pages !! url
                 = CACHE_pages downtown_done !! url ≫= (fun l => heap downtown_done !! l)) /\
    scriptName "downtown" <> "cache.json".
Proof.
  apply (crawlCategory_writes_cache downtown_world 5 "downtown" Sample.start (Ok tt)).
  vm_compute. reflexivity.
Defined.

(** ** One feed page of links *)

Lemma crawlLink_Ok W showName link st l sz st' :
  crawlLink W showName link st = (Ok (l, sz), st') ->
  CACHE_pages st' !! link = Some l /\
  exists p v, heap st' !! l = Some p /\ show p = Some showName /\
              is_Some (renamed p) /\ best_video p = Ok v /\ sz = size v.
Proof.
  unfold crawlLink. intros H.
  apply bind_Ok in H as (l0 & st1 & Hget & H).
  assert (Hc : CACHE_pages st' !! link = Some l0).
  { apply getPageVideos_Ok in Hget.
    match type of H with ?m st1 = _ => assert (Hg : growing m) end.
    { apply growing_bind; [apply growing_update_page, same_content_set_show|]. intros _.
      apply growing_bind; [apply growing_read_page|]. intros page.
      apply growing_bind; [apply growing_renameEpisode|]. intros r.
      apply growing_bind; [apply growing_update_page, same_content_set_renamed|]. intros _.
      apply growing_bind; [apply growing_lift|]. intros video.
      apply growing_bind; [apply growing_console_log | intros; apply growing_ret]. }
    specialize (Hg st1). rewrite H in Hg. now apply (proj1 (proj1 Hg)). }
  apply bind_Ok in H as ([] & st2 & Hset & H).
  apply bind_Ok in H as (page & st3 & Hread & H).
  apply bind_Ok in H as (r & st4 & Hren & H).
  apply bind_Ok in H as ([] & st5 & Hupd & H).
  apply bind_Ok in H as (video & st6 & Hvid & H).
  apply bind_Ok in H as ([] & st7 & Hlog & H).
  injection H as <- <- <-. split; [exact Hc|].
  unfold console_log in Hlog. injection Hlog as <-.
  unfold lift in Hvid. injection Hvid as Hvid <-.
  unfold update_page in Hset. destruct (heap st1 !! l0) as [p1|] eqn:E1; [|discriminate].
  injection Hset as <-.
  unfold read_page in Hread. simpl in Hread.
  rewrite list_lookup_insert_eq in Hread by (now apply lookup_lt_Some in E1).
  injection Hread as <- <-.
  assert (E4 : heap st4 = <[l0 := set_show showName p1]> (heap st1)).
  { replace st4 with (snd (renameEpisode W (set_show showName p1)
                             (set_heap (<[l0 := set_show showName p1]> (heap st1)) st1)))
      by now rewrite Hren.
    now rewrite renameEpisode_same_heap. }
  unfold update_page in Hupd. rewrite E4 in Hupd.
  rewrite list_lookup_insert_eq in Hupd by (now apply lookup_lt_Some in E1).
  injection Hupd as <-.
  exists (set_renamed r (set_show showName p1)), video. simpl.
  split; [|auto].
  apply list_lookup_insert_eq. rewrite length_insert.
  now apply lookup_lt_Some in E1.
Qed.

(** X8.  The links of one feed page are crawled in the order of the feed
    and the first failure ends the crawl: when [crawlLinks] returns, the
    pages added to the manifest are the cached objects of an initial segment
    of the links, one per link and in their order (a link that occurs twice
    is added twice); without an error the segment is the whole list, and
    with an error [e] it stops just before the link whose [crawlLink] failed
    with [e], the state being the one that failure left: no later link is
    looked at. *)
Theorem crawlLinks_feed_order (W : World) (showName : string) (links : list string) :
  forall (c : Crawl) (st : State) (r : option exn) (c' : Crawl) (st' : State),
  crawlLinks W showName links c st = (r, c', st') ->
  exists done ls,
    crawled c' = crawled c ++ ls /\
    Forall2 (fun link l => CACHE_pages st' !! link = Some l) done ls /\
    match r with
    | None => done = links
    | Some e => exists link rest st0,
        links = done ++ link :: rest /\ crawlLink W showName link st0 = (Err e, st')
    end.
Proof.
  induction links as [|link rest IH]; intros c st r c' st'; simpl.
  - intros [= <- <- <-]. exists [], []. rewrite app_nil_r. repeat split. constructor.
  - destruct (crawlLink W showName link st) as [[[l sz]|e] st1] eqn:E.
    + intros H.
      pose proof (crawlLinks_grows W showName rest
                    {| totalSize := number_add (totalSize c) sz;
                       crawled := crawled c ++ [l] |} st1) as Hg.
      rewrite H in Hg.
      apply IH in H as (done & ls & Hc & Hall & Hr). simpl in Hc, Hg.
      exists (link :: done), (l :: ls). split; [now rewrite Hc, <- app_assoc|].
      split.
      * constructor; [|exact Hall].
        apply (proj1 (proj1 Hg)). exact (proj1 (crawlLink_Ok _ _ _ _ _ _ _ E)).
      * destruct r as [e|]; [|now subst].
        destruct Hr as (link' & rest' & st0 & -> & Hfail). now exists link', rest', st0.
    + intros [= <- <- <-]. exists [], []. rewrite app_nil_r. repeat split; [constructor|].
      now exists link, rest, st.
Qed.

Lemma crawlLinks_feed_order_witness :
  exists done ls,
    crawled {| totalSize := Num 3072; crawled := [0; 1; 2] |} = crawled fresh_crawl ++ ls /\
    Forall2 (fun link l => CACHE_pages downtown_links_done !! link = Some l) done ls /\
    done = [post "bravo"; post "alpha"; post "charlie"].
Proof.
  apply (crawlLinks_feed_order downtown_world "downtown"
           [post "bravo"; post "alpha"; post "charlie"] fresh_crawl
           downtown_links_read None).
  vm_compute. reflexivity.
Defined.

(** ** The total size *)

Lemma same_content_best_video p p' : same_content p p' -> best_video p' = best_video p.
Proof.
  intros (_ & _ & _ & Hv & _). unfold best_video, best_quality. now rewrite Hv.
Qed.

Lemma size_at_extends st st' l :
  extends st st' -> is_Some (heap st !! l) -> size_at st' l = size_at st l.
Proof.
  intros (_ & _ & Hh) [p Hp]. destruct (Hh l p Hp) as (p' & Hp' & Hc).
  unfold size_at. now rewrite Hp, Hp', (same_content_best_video _ _ Hc).
Qed.

Lemma total_inv_extends c st st' : extends st st' -> total_inv c st -> total_inv c st'.
Proof.
  intros He [Ht Hall]. split.
  - rewrite Ht. f_equal. apply map_ext_in. intros l Hl.
    symmetry. apply size_at_extends; [exact He|].
    rewrite List.Forall_forall in Hall. now apply Hall.
  - eapply Forall_impl; [exact Hall|]. intros l [p Hp].
    destruct (proj2 (proj2 He) l p Hp) as (p' & Hp' & _). now exists p'.
Qed.

Lemma crawlLinks_total W showName links : forall c st r c' st',
  total_inv c st ->
  crawlLinks W showName links c st = (r, c', st') ->
  total_inv c' st'.
Proof.
  induction links as [|link rest IH]; intros c st r c' st' Hinv; simpl.
  - now intros [= _ <- <-].
  - pose proof (growing_crawlLink W showName link st) as Hg.
    destruct (crawlLink W showName link st) as [[[l sz]|e] st1] eqn:E; simpl in Hg.
    + apply IH. destruct (total_inv_extends _ _ _ (proj1 Hg) Hinv) as [Ht Hall].
      destruct (crawlLink_Ok _ _ _ _ _ _ _ E) as (_ & p & v & Hp & _ & _ & Hv & ->).
      split; simpl.
      * rewrite map_app. unfold sum_sizes. rewrite fold_left_app. simpl.
        fold (sum_sizes (map (size_at st1) (crawled c))). rewrite <- Ht.
        unfold size_at. now rewrite Hp, Hv.
      * apply Forall_app. split; [exact Hall|]. constructor; [now exists p | constructor].
    + intros [= _ <- <-]. exact (total_inv_extends _ _ _ (proj1 Hg) Hinv).
Qed.

Lemma crawlLoop_total W showName fuel : forall n c st e c' st',
  total_inv c st ->
  crawlLoop W fuel showName n c st = Some (e, c', st') ->
  total_inv c' st'.
Proof.
  induction fuel as [|fuel IH]; intros n c st e c' st' Hinv; [discriminate|].
  rewrite (crawlLoop_S W showName).
  destruct (getFeedPageLinks W showName n _) as [[[links|e0] st2]|] eqn:Hf; [| |discriminate].
  - apply getFeedPageLinks_grows in Hf.
    assert (H1 : grows st st2).
    { eapply grows_trans; [|exact Hf]. now apply grows_same. }
    apply (total_inv_extends _ _ _ (proj1 H1)) in Hinv.
    destruct (crawlLinks W showName links c st2) as [[[e1|] c1] st3] eqn:E3.
    + intros [= _ <- <-]. exact (crawlLinks_total _ _ _ _ _ _ _ _ Hinv E3).
    + apply IH. exact (crawlLinks_total _ _ _ _ _ _ _ _ Hinv E3).
  - apply getFeedPageLinks_grows in Hf. intros [= _ <- <-].
    assert (H1 : grows st st2).
    { eapply grows_trans; [|exact Hf]. now apply grows_same. }
    exact (total_inv_extends _ _ _ (proj1 H1) Hinv).
Qed.

Lemma number_add_NaN_l n : number_add NaN n = NaN.
Proof. reflexivity. Qed.

Lemma fold_NaN sizes : fold_left number_add sizes NaN = NaN.
Proof. induction sizes as [|n sizes IH]; simpl; [reflexivity | exact IH]. Qed.

Lemma sum_sizes_NaN sizes : In NaN sizes -> sum_sizes sizes = NaN.
Proof.
  unfold sum_sizes. generalize (Num 0).
  induction sizes as [|n sizes IH]; intros acc; [intros []|].
  intros [->|Hin]; simpl.
  - destruct acc; apply fold_NaN.
  - now apply IH.
Qed.

(** X9.  The total that [crawlCategory] logs is the sum of the sizes of the
    videos its manifest downloads: when the loop ends, [totalSize] is the
    sum, from [0] and in crawl order, of the size of the better video of
    every crawled page, a page crawled twice counted twice; the line
    [Total size: ...] with that sum is on the console at the return; and one
    size that is not a number (a [content-length] that [parseInt] cannot
    read) makes the whole total [NaN]. *)
Theorem crawlCategory_total_size (W : World) (fuel : nat) (showName : string)
    (st : State) (e : exn) (c : Crawl) (st1 : State) :
  crawlLoop W fuel showName 1 fresh_crawl st = Some (e, c, st1) ->
  totalSize c = sum_sizes (map (size_at st1) (crawled c)) /\
  (forall l, In l (crawled c) -> size_at st1 l = NaN -> totalSize c = NaN) /\
  exists r st',
    crawlCategory W fuel showName st = Some (r, st') /\
    (forall l, size_at st' l = size_at st1 l) /\
    In ("Total size: "
        +:+ humanize_fileSize W (sum_sizes (map (size_at st') (crawled c)))) (console st').
Proof.
  intros Hloop.
  assert (Hinv : total_inv c st1).
  { apply (crawlLoop_total W showName fuel 1 fresh_crawl st e c st1); [|exact Hloop].
    split; [reflexivity | constructor]. }
  destruct Hinv as [Ht Hall]. split; [exact Ht|]. split.
  { intros l Hl Hnan. rewrite Ht. apply sum_sizes_NaN. rewrite <- Hnan. now apply in_map. }
  unfold crawlCategory. fold fresh_crawl. rewrite Hloop.
  destruct (finishCrawl W showName e c st1) as [r st'] eqn:Hfin.
  exists r, st'. split; [reflexivity|].
  rewrite finishCrawl_eq in Hfin.
  assert (Hfl : heap (flushed W e c st1) = heap st1 /\
                In ("Total size: " +:+ humanize_fileSize W (totalSize c))
                   (console (flushed W e c st1))).
  { unfold flushed. simpl. split; [apply heap_caught|]. apply in_or_app. right. now left. }
  destruct Hfl as [Hh Hin].
  assert (Hst : heap st' = heap st1 /\
                In ("Total size: " +:+ humanize_fileSize W (totalSize c)) (console st')).
  { destruct (named_of (heap st1) (crawled c)) as [named|x].
    - cbv zeta in Hfin. destruct (manifest W _ 0 _) as [commands|x];
        injection Hfin as _ <-; auto.
    - injection Hfin as _ <-. auto. }
  destruct Hst as [Hh' Hin'].
  assert (Hsz : forall l, size_at st' l = size_at st1 l).
  { intros l. unfold size_at. now rewrite Hh'. }
  split; [exact Hsz|].
  replace (map (size_at st') (crawled c)) with (map (size_at st1) (crawled c))
    by (apply map_ext; intros l; symmetry; apply Hsz).
  now rewrite <- Ht.
Qed.

Lemma crawlCategory_total_size_witness :
  totalSize {| totalSize := Num 3072; crawled := [0; 1; 2] |}
  = sum_sizes (map (size_at downtown_end) [0; 1; 2]).
Proof.
  apply (crawlCategory_total_size downtown_world 5 "downtown" Sample.start
           (Thrown "Page not found") {| totalSize := Num 3072; crawled := [0; 1; 2] |}
           downtown_end).
  vm_compute. reflexivity.
Defined.

(** ** A page without a video *)

Lemma best_video_no_videos p : videos p = no_videos -> best_video p = Err TypeError.
Proof. intros H. unfold best_video, best_quality. now rewrite H. Qed.

(** X10.  A page whose player document has no source labelled [SD] or [HD]
    is extracted without an error, in two requests, and cached as a page
    without videos; and for a link that is cached as a page without videos
    [crawlLink] fails whatever else happens, leaving the page cached and
    without videos: that link ends every later crawl too. *)
Theorem crawlLink_without_video (W : World) (showName link : string) (st : State) :
  (forall doc iframeUrl idoc,
     CACHE_pages st !! link = None ->
     fetchPage W (length (requests st)) link = Some doc ->
     doc_iframes doc = [iframeUrl] ->
     fetchIframe W (S (length (requests st))) iframeUrl = Some idoc ->
     List.filter (has_label SD) (doc_sources idoc) = [] ->
     List.filter (has_label HD) (doc_sources idoc) = [] ->
     exists st1 p,
       getPageVideos W link st = (Ok (length (heap st)), st1) /\
       requests st1 = requests st ++ [GET link; GET iframeUrl] /\
       CACHE_pages st1 !! link = Some (length (heap st)) /\
       heap st1 !! length (heap st) = Some p /\ videos p = no_videos) /\
  (forall l p,
     CACHE_pages st !! link = Some l ->
     heap st !! l = Some p ->
     videos p = no_videos ->
     exists e st' p',
       crawlLink W showName link st = (Err e, st') /\
       CACHE_pages st' !! link = Some l /\
       heap st' !! l = Some p' /\ videos p' = no_videos).
Proof.
  split.
  - intros doc iframeUrl idoc Hmiss Hdoc Hif Hidoc Hsd Hhd.
    rewrite (getPageVideos_miss W _ _ Hmiss). unfold bind at 1. rewrite request_eq, Hdoc, Hif.
    unfold bind at 1. unfold getVideosFromIframe. unfold bind at 1.
    rewrite request_eq. rewrite length_requests_logged. simpl length.
    replace (length (requests st) + 1) with (S (length (requests st))) by lia.
    rewrite Hidoc. cbv zeta. unfold getIframeVideosOfQuality. rewrite Hsd, Hhd.
    unfold bind, ret. rewrite store_eq.
    eexists. eexists. split; [reflexivity|]. simpl.
    split; [now rewrite <- app_assoc|]. split; [apply lookup_insert_eq|].
    split.
    + rewrite lookup_app_r by lia. rewrite Nat.sub_diag. reflexivity.
    + reflexivity.
  - intros l p Hc Hp Hv.
    pose proof (growing_crawlLink W showName link st) as [(Hcache & _ & Hheap) _].
    destruct (crawlLink W showName link st) as [[[l' sz]|e] st'] eqn:E; simpl in *.
    + exfalso. destruct (crawlLink_Ok _ _ _ _ _ _ _ E) as (Hc' & p' & v & Hp' & _ & _ & Hbv & _).
      rewrite (Hcache _ _ Hc) in Hc'. injection Hc' as <-.
      destruct (Hheap _ _ Hp) as (p'' & Hp'' & Hsame).
      rewrite Hp' in Hp''. injection Hp'' as <-.
      rewrite (same_content_best_video _ _ Hsame), (best_video_no_videos _ Hv) in Hbv.
      discriminate.
    + destruct (Hheap _ _ Hp) as (p' & Hp' & Hsame).
      exists e, st', p'. repeat split; auto.
      destruct Hsame as (_ & _ & _ & -> & _). exact Hv.
Qed.

Lemma crawlLink_without_video_witness :
  exists e st' p',
    crawlLink bare_world "downtown" (post "alpha") bare_state = (Err e, st') /\
    CACHE_pages st' !! post "alpha" = Some 0 /\
    heap st' !! 0 = Some p' /\ videos p' = no_videos.
Proof.
  apply (proj2 (crawlLink_without_video bare_world "downtown" (post "alpha") bare_state) 0
           {| pageUrl := post "alpha"; sourceUrl := "https://vhost.chapman.edu/embed/Alpha";
              title := "Alpha"; videos := no_videos; subtitles := None;
              show := None; renamed := None |}).
  - vm_compute. reflexivity.
  - vm_compute. reflexivity.
  - reflexivity.
Defined.

(** ** The show name in a title *)

Lemma strip_dash_plain c t :
  Ascii.eqb c "-" = false -> Ascii.eqb c "226" = false -> strip_dash (String c t) = None.
Proof.
  intros H1 H2.
  destruct c as [[|] [|] [|] [|] [|] [|] [|] [|]];
    try reflexivity; vm_compute in H1, H2; discriminate.
Qed.

Lemma dashed_at_plain lit e s :
  plain_name e = true -> e <> "" -> dashed_at lit (e +:+ s) = None.
Proof.
  destruct e as [|c t]; [congruence|]. intros Hp _. simpl in Hp.
  apply andb_prop in Hp as [Hp Ht]. apply andb_prop in Hp as [Hp Hs].
  apply andb_prop in Hp as [H1 H2].
  apply negb_true_iff in H1, H2. rewrite app_cons_s.
  destruct (Ascii.eqb c " ") eqn:Hc.
  - apply Ascii.eqb_eq in Hc. subst c. simpl in Hs.
    destruct t as [|c2 t2]; [discriminate|]. simpl in Ht.
    apply andb_prop in Ht as [Ht _]. apply andb_prop in Ht as [Ht _].
    apply andb_prop in Ht as [H3 H4]. apply negb_true_iff in H3, H4.
    rewrite app_cons_s. unfold dashed_at, opt_space, first_some. simpl fold_right.
    now rewrite (strip_dash_plain c2 _ H3 H4).
  - unfold dashed_at.
    assert (Ho : opt_space (String c (t +:+ s)) = [String c (t +:+ s)]).
    { unfold opt_space. destruct c as [[|] [|] [|] [|] [|] [|] [|] [|]]; try reflexivity.
      discriminate. }
    rewrite Ho. unfold first_some. simpl fold_right.
    now rewrite (strip_dash_plain c _ H1 H2).
Qed.

Lemma plain_name_tail c t : plain_name (String c t) = true -> plain_name t = true.
Proof. simpl. intros H. now apply andb_prop in H as [_ H]. Qed.

Lemma replaceLeftmost_plain lit e s :
  plain_name e = true ->
  replaceLeftmost (showNamePattern_at lit) "" (e +:+ s)
  = e +:+ replaceLeftmost (showNamePattern_at lit) "" s.
Proof.
  induction e as [|c t IH]; intros Hp; [now rewrite !app_nil_s|].
  assert (Hd : showNamePattern_at lit (String c t +:+ s) = None).
  { unfold showNamePattern_at. now rewrite dashed_at_plain. }
  rewrite app_cons_s in *. rewrite app_cons_s. cbn [replaceLeftmost]. rewrite Hd.
  f_equal. apply IH. exact (plain_name_tail _ _ Hp).
Qed.

Lemma opt_space_nospace c r :
  Ascii.eqb c " " = false -> opt_space (String c r) = [String c r].
Proof.
  intros H. unfold opt_space.
  destruct c as [[|] [|] [|] [|] [|] [|] [|] [|]]; try reflexivity.
  vm_compute in H. discriminate.
Qed.

Lemma dashed_at_here lit c r sp1 dash sp2 tail :
  lit = String c r -> Ascii.eqb c " " = false ->
  In sp1 [""; " "] -> In dash ["-"; en_dash; em_dash] -> In sp2 [""; " "] ->
  dashed_at lit (sp1 +:+ dash +:+ sp2 +:+ lit +:+ tail) = Some tail.
Proof.
  intros Hlit Hc H1 Hd H2.
  assert (Hafter : first_some (fun s3 => strip_prefix lit s3) (opt_space (sp2 +:+ lit +:+ tail))
                   = Some tail).
  { destruct H2 as [<-|[<-|[]]].
    - rewrite app_nil_s. rewrite Hlit at 1. rewrite app_cons_s, (opt_space_nospace _ _ Hc).
      rewrite <- app_cons_s, <- Hlit. unfold first_some. simpl fold_right.
      now rewrite strip_prefix_app.
    - rewrite app_cons_s, app_nil_s. unfold opt_space, first_some. simpl fold_right.
      now rewrite strip_prefix_app. }
  assert (Hdash : forall rest, strip_dash (dash +:+ rest) = Some rest).
  { intros rest. destruct Hd as [<-|[<-|[<-|[]]]]; reflexivity. }
  assert (Hns : opt_space (dash +:+ sp2 +:+ lit +:+ tail) = [dash +:+ sp2 +:+ lit +:+ tail]).
  { destruct Hd as [<-|[<-|[<-|[]]]]; reflexivity. }
  unfold dashed_at. destruct H1 as [<-|[<-|[]]].
  - rewrite app_nil_s, Hns. unfold first_some at 1. cbn [fold_right].
    now rewrite Hdash, Hafter.
  - rewrite app_cons_s, app_nil_s. cbn [opt_space]. unfold first_some at 1.
    cbn [fold_right]. now rewrite Hdash, Hafter.
Qed.

Lemma app_s_nil (s : string) : s +:+ "" = s.
Proof. induction s as [|c s IH]; [reflexivity|]. now rewrite app_cons_s, IH. Qed.

Lemma strip_digits_all ds rest :
  all_digits ds = true -> strip_digits (ds +:+ ")" +:+ rest) = ")" +:+ rest.
Proof.
  induction ds as [|d ds IH]; intros H; [reflexivity|].
  simpl in H. apply andb_prop in H as [Hd H]. rewrite app_cons_s. simpl. rewrite Hd.
  now apply IH.
Qed.

Lemma strip_number_suffix_number ds rest :
  ds <> "" -> all_digits ds = true ->
  strip_number_suffix (" (" +:+ ds +:+ ")" +:+ rest) = rest.
Proof.
  intros Hne Hds. destruct ds as [|d ds]; [congruence|].
  simpl in Hds. apply andb_prop in Hds as [Hd Hds].
  assert (E : strip_prefix " (" (" (" +:+ String d ds +:+ ")" +:+ rest)
              = Some (String d (ds +:+ ")" +:+ rest))) by reflexivity.
  unfold strip_number_suffix. rewrite E, Hd, (strip_digits_all _ _ Hds). reflexivity.
Qed.

(** X11.  What [renameEpisode] cuts from a title: for an episode name
    without a dash that does not end in a space, and a show name that does
    not start with one, the title made of the name, an optional space, a
    hyphen or en dash or em dash, an optional space and the show name,
    followed by anything, loses exactly the separator and the show name; a
    number in parentheses right after the show name goes with them (the
    title [Old Faithful - Visiting (1204)] becomes [Old Faithful]); and
    such a name alone stays as it is. *)
Theorem removeShowName_title (showName : string) (c : ascii) (r e sp1 dash sp2 : string) :
  showName = String c r -> c <> " "%char ->
  plain_name e = true ->
  In sp1 [""; " "] -> In dash ["-"; en_dash; em_dash] -> In sp2 [""; " "] ->
  (forall tail,
     removeShowName showName (e +:+ sp1 +:+ dash +:+ sp2 +:+ showName +:+ tail)
     = e +:+ strip_number_suffix tail) /\
  (forall ds tail, ds <> "" -> all_digits ds = true ->
     removeShowName showName
       (e +:+ sp1 +:+ dash +:+ sp2 +:+ showName +:+ " (" +:+ ds +:+ ")" +:+ tail)
     = e +:+ tail) /\
  removeShowName showName e = e.
Proof.
  intros Hlit Hc Hp H1 Hd H2.
  assert (Hcb : Ascii.eqb c " " = false) by (now apply Ascii.eqb_neq).
  assert (Hcut : forall tail,
            removeShowName showName (e +:+ sp1 +:+ dash +:+ sp2 +:+ showName +:+ tail)
            = e +:+ strip_number_suffix tail).
  { intros tail. unfold removeShowName. rewrite (replaceLeftmost_plain _ _ _ Hp).
    f_equal.
    assert (Hm : showNamePattern_at showName (sp1 +:+ dash +:+ sp2 +:+ showName +:+ tail)
                 = Some (strip_number_suffix tail)).
    { unfold showNamePattern_at.
      now rewrite (dashed_at_here showName c r sp1 dash sp2 tail Hlit Hcb H1 Hd H2). }
    destruct (sp1 +:+ dash +:+ sp2 +:+ showName +:+ tail) as [|x xs];
      cbn [replaceLeftmost]; rewrite Hm; now rewrite app_nil_s. }
  split; [exact Hcut|]. split.
  - intros ds tail Hne Hds. rewrite Hcut. f_equal.
    now apply strip_number_suffix_number.
  - unfold removeShowName. rewrite <- (app_s_nil e) at 1.
    rewrite (replaceLeftmost_plain _ _ _ Hp). now rewrite app_s_nil.
Qed.

Lemma removeShowName_title_witness :
  removeShowName "Visiting" ("Old Faithful" +:+ " " +:+ en_dash +:+ " " +:+ "Visiting"
                             +:+ " (" +:+ "1204" +:+ ")" +:+ "")
  = "Old Faithful" +:+ "".
Proof.
  apply (proj1 (proj2 (removeShowName_title "Visiting" "V" "isiting" "Old Faithful"
                         " " en_dash " " eq_refl ltac:(discriminate) eq_refl
                         ltac:(simpl; auto) ltac:(simpl; auto) ltac:(simpl; auto)))
           "1204" "" ltac:(discriminate) eq_refl).
Defined.

(** ** The episode number of the earlier script *)

Lemma length_app_string (a b : string) :
  String.length (a +:+ b) = String.length a + String.length b.
Proof. induction a as [|c a IH]; [reflexivity|]. rewrite app_cons_s. simpl. now rewrite IH. Qed.

Lemma strip_digits_paren a b :
  S (String.length b) <= String.length (strip_digits (a +:+ "(" +:+ b)).
Proof.
  induction a as [|c a IH].
  - change ("" +:+ "(" +:+ b) with (String "(" b). simpl. lia.
  - rewrite app_cons_s. simpl. destruct (is_digit c); [exact IH|].
    simpl. rewrite !length_app_string. simpl. lia.
Qed.

Lemma close_paren_only {A : Type} (x : string) (a b : A) :
  2 <= String.length x ->
  match x with ")" => a | _ => b end = b.
Proof.
  destruct x as [|c1 [|c2 x]]; simpl; try lia. intros _.
  destruct c1 as [[|] [|] [|] [|] [|] [|] [|] [|]]; reflexivity.
Qed.

Lemma episodeNumber_at_inner c t ds :
  episodeNumber_at (String c (t +:+ "(" +:+ ds +:+ ")")) = None.
Proof.
  unfold episodeNumber_at.
  destruct (Ascii.eqb c "(") eqn:Hc.
  - apply Ascii.eqb_eq in Hc. subst c.
    destruct t as [|c' t'].
    + reflexivity.
    + rewrite app_cons_s.
      destruct (is_digit c') eqn:Hd; [|reflexivity].
      apply close_paren_only.
      pose proof (strip_digits_paren (String c' t') (ds +:+ ")")) as H.
      rewrite app_cons_s in H. rewrite length_app_string in H. simpl in H. simpl. lia.
  - destruct c as [[|] [|] [|] [|] [|] [|] [|] [|]]; try reflexivity.
    vm_compute in Hc. discriminate.
Qed.

Lemma substring_prefix a b : substring 0 (String.length a) (a +:+ b) = a.
Proof.
  induction a as [|c a IH].
  - rewrite app_nil_s. now destruct b.
  - rewrite app_cons_s. simpl. now rewrite IH.
Qed.

Lemma episodeNumber_at_last ds :
  ds <> "" -> all_digits ds = true ->
  episodeNumber_at ("(" +:+ ds +:+ ")") = Some (ds +:+ ")").
Proof.
  intros Hne Hds. destruct ds as [|d ds]; [congruence|].
  pose proof (strip_digits_all (String d ds) "" Hds) as Hs.
  simpl in Hds. apply andb_prop in Hds as [Hd _].
  change ("(" +:+ String d ds +:+ ")") with (String "(" (String d (ds +:+ ")"))).
  change (String d ds +:+ ")" +:+ "") with (String d (ds +:+ ")")) in Hs.
  change (")" +:+ "") with ")" in Hs.
  unfold episodeNumber_at. rewrite Hd, Hs. unfold take_digits. rewrite Hs.
  f_equal. f_equal.
  change (String d (ds +:+ ")")) with (String d ds +:+ ")").
  rewrite length_app_string.
  replace (String.length (String d ds) + String.length ")" - String.length ")")
    with (String.length (String d ds)) by (simpl; lia).
  apply substring_prefix.
Qed.

Lemma episodeNumberMatch_eq s :
  episodeNumberMatch s =
  match episodeNumber_at s with
  | Some g => Some g
  | None => match s with
            | EmptyString => None
            | String _ t => episodeNumberMatch t
            end
  end.
Proof. destruct s; reflexivity. Qed.

Lemma episodeNumberMatch_last t ds :
  ds <> "" -> all_digits ds = true ->
  episodeNumberMatch (t +:+ "(" +:+ ds +:+ ")") = Some (ds +:+ ")").
Proof.
  intros Hne Hds. induction t as [|c t IH].
  - rewrite app_nil_s, episodeNumberMatch_eq. now rewrite episodeNumber_at_last.
  - rewrite app_cons_s, episodeNumberMatch_eq. now rewrite episodeNumber_at_inner.
Qed.

Lemma episodeNumberMatch_no_paren t :
  ~ occurs "(" t -> episodeNumberMatch t = None.
Proof.
  induction t as [|c t IH]; intros Hno; [reflexivity|].
  rewrite episodeNumberMatch_eq.
  assert (Hat : episodeNumber_at (String c t) = None).
  { unfold episodeNumber_at.
    destruct (Ascii.eqb c "(") eqn:Hc.
    - apply Ascii.eqb_eq in Hc. subst c. exfalso. apply Hno. now exists "", t.
    - destruct c as [[|] [|] [|] [|] [|] [|] [|] [|]]; try reflexivity.
      vm_compute in Hc. discriminate. }
  rewrite Hat. apply IH. intros H. apply Hno. now apply occurs_cons.
Qed.

(** X12.  How the earlier script orders the manifest: a title that ends in
    a number in parentheses has that number, whatever comes before it; a
    title without an opening parenthesis has none; two pages with numbers
    compare as their numbers; and a page without a number is put before the
    other page whatever that one is, so that of two pages without a number
    each is put before the other. *)
Theorem Legacy_compareEpisodes_numbers (W : World) (a b : Page) :
  (forall t ds, ds <> "" -> all_digits ds = true ->
     episodeNumberMatch (t +:+ "(" +:+ ds +:+ ")") = Some (ds +:+ ")")) /\
  (forall ta da tb db na nb,
     da <> "" -> all_digits da = true -> db <> "" -> all_digits db = true ->
     title a = ta +:+ "(" +:+ da +:+ ")" ->
     title b = tb +:+ "(" +:+ db +:+ ")" ->
     parseInt W (da +:+ ")") = Num na ->
     parseInt W (db +:+ ")") = Num nb ->
     Legacy.compareEpisodes W a b = (na - nb)%Z) /\
  (forall t, ~ occurs "(" t -> episodeNumberMatch t = None) /\
  (episodeNumberMatch (title a) = None -> Legacy.compareEpisodes W a b = (-1)%Z) /\
  (episodeNumberMatch (title a) = None -> episodeNumberMatch (title b) = None ->
   Legacy.compareEpisodes W a b = (-1)%Z /\ Legacy.compareEpisodes W b a = (-1)%Z).
Proof.
  split; [intros t ds; apply episodeNumberMatch_last|]. split; [|split; [|split]].
  - intros ta da tb db na nb Ha1 Ha2 Hb1 Hb2 Hta Htb Hna Hnb.
    unfold Legacy.compareEpisodes.
    rewrite Hta, Htb, !episodeNumberMatch_last by assumption.
    now rewrite Hna, Hnb.
  - apply episodeNumberMatch_no_paren.
  - intros Ha. unfold Legacy.compareEpisodes. now rewrite Ha.
  - intros Ha Hb. unfold Legacy.compareEpisodes. now rewrite Ha, Hb.
Qed.

Lemma Legacy_compareEpisodes_numbers_witness :
  Legacy.compareEpisodes downtown_world old_faithful_page
    (set_show "californias-gold" old_faithful_page) = (112 - 112)%Z.
Proof.
  apply (proj1 (proj2 (Legacy_compareEpisodes_numbers downtown_world old_faithful_page
                         (set_show "californias-gold" old_faithful_page)))
           ("Old Faithful " +:+ en_dash +:+ " California's Gold ") "112"
           ("Old Faithful " +:+ en_dash +:+ " California's Gold ") "112");
    try discriminate; reflexivity.
Defined.

(** ** The manifest *)

Lemma pageCommands_Ok W total index page cs :
  pageCommands W total index page = Ok cs ->
  exists r v,
    renamed page = Some r /\ best_video page = Ok v /\
    cs = ["echo " +:+ dquote +:+ "[" +:+ string_of_nat (index + 1) +:+ "/"
          +:+ string_of_nat total +:+ "]: " +:+ basename W r +:+ dquote;
          if truthy (subtitles page)
          then "ffmpeg " +:+ shellEscape W (ffmpegArguments v (default "" (subtitles page)) r)
          else "curl " +:+ shellEscape W [src v; "--create-dirs"; "-k"; "-o"; r]].
Proof.
  unfold pageCommands, formatCurlParameters, renamed_of.
  destruct (renamed page) as [r|]; [|discriminate].
  destruct (truthy (subtitles page)).
  - destruct (best_video page) as [v|e]; [|discriminate].
    intros [= <-]. now exists r, v.
  - destruct (best_video page) as [v|e]; [|discriminate].
    intros [= <-]. now exists r, v.
Qed.

(** X13.  The lines of the manifest: when the manifest can be written for a
    list of pages, it has two lines per page, in the order of the pages; the
    first is an [echo] of the position of the page, counted from one, out of
    the total, and of the base name of its file; the second is the download
    of its better video into that file, by [ffmpeg] with the subtitles when
    the page has non-empty subtitles and by [curl] otherwise. *)
Theorem manifest_lines (W : World) (total : nat) (pages : list Page) :
  forall (index : nat) (commands : list string),
  manifest W total index pages = Ok commands ->
  length commands = 2 * length pages /\
  forall i page, pages !! i = Some page ->
    exists r v,
      renamed page = Some r /\ best_video page = Ok v /\
      commands !! (2 * i)
      = Some ("echo " +:+ dquote +:+ "[" +:+ string_of_nat (index + i + 1) +:+ "/"
              +:+ string_of_nat total +:+ "]: " +:+ basename W r +:+ dquote) /\
      commands !! (2 * i + 1)
      = Some (if truthy (subtitles page)
              then "ffmpeg "
                   +:+ shellEscape W (ffmpegArguments v (default "" (subtitles page)) r)
              else "curl " +:+ shellEscape W [src v; "--create-dirs"; "-k"; "-o"; r]).
Proof.
  induction pages as [|page0 rest IH]; intros index commands; cbn [manifest].
  - intros [= <-]. split; [reflexivity|]. intros i page H. discriminate.
  - destruct (pageCommands W total index page0) as [cs|e] eqn:Hcs; [|discriminate].
    destruct (manifest W total (S index) rest) as [more|e] eqn:Hmore; [|discriminate].
    intros [= <-]. apply pageCommands_Ok in Hcs as (r & v & Hr & Hv & ->).
    destruct (IH _ _ Hmore) as [Hlen Hall]. split; [simpl in *; lia|].
    intros [|i] page Hi.
    + injection Hi as <-. exists r, v.
      replace (index + 0 + 1) with (index + 1) by lia.
      split; [exact Hr|]. split; [exact Hv|]. split; reflexivity.
    + destruct (Hall i page Hi) as (r' & v' & Hr' & Hv' & H1 & H2).
      exists r', v'. split; [exact Hr'|]. split; [exact Hv'|].
      replace (index + S i + 1) with (S index + i + 1) by lia.
      replace (2 * S i) with (S (S (2 * i))) by lia.
      replace (S (S (2 * i)) + 1) with (S (S (2 * i + 1))) by lia.
      split; [exact H1 | exact H2].
Qed.

Lemma manifest_lines_witness :
  length (tail downtown_script) = 2 * length [downtown_page_of "Alpha";
                                               downtown_page_of "Bravo";
                                               downtown_page_of "Charlie"].
Proof.
  apply (manifest_lines downtown_world 3
           [downtown_page_of "Alpha"; downtown_page_of "Bravo"; downtown_page_of "Charlie"]
           0 (tail downtown_script)).
  vm_compute. reflexivity.
Defined.

(** ** The characters of a file name *)

Lemma has_char_app d a b : has_char d (a +:+ b) = has_char d a || has_char d b.
Proof.
  induction a as [|c a IH]; [now rewrite app_nil_s|].
  rewrite app_cons_s. simpl. now rewrite IH, orb_assoc.
Qed.

Lemma has_char_strip_prefix d pat s rest :
  strip_prefix pat s = Some rest -> has_char d s = false -> has_char d rest = false.
Proof.
  intros H Hs. apply strip_prefix_Some in H. subst s. rewrite has_char_app in Hs.
  now apply orb_false_elim in Hs as [_ Hs].
Qed.

(** A replacement brings in no character that neither the text nor the
    replacement has. *)
Lemma replaceAll_go_keeps d pat repl fuel : forall s,
  has_char d s = false -> has_char d repl = false ->
  has_char d (replaceAll_go fuel pat repl s) = false.
Proof.
  induction fuel as [|fuel IH]; intros s Hs Hr; [exact Hs|].
  cbn [replaceAll_go]. destruct (strip_prefix pat s) as [rest|] eqn:E.
  - rewrite has_char_app, Hr. simpl. apply IH; [|exact Hr].
    exact (has_char_strip_prefix _ _ _ _ E Hs).
  - destruct s as [|c t]; [reflexivity|]. simpl in *.
    apply orb_false_elim in Hs as [Hc Ht]. rewrite Hc. simpl. now apply IH.
Qed.

Lemma replaceAll_keeps d pat repl s :
  has_char d s = false -> has_char d repl = false ->
  has_char d (replaceAll pat repl s) = false.
Proof. apply replaceAll_go_keeps. Qed.

(** Replacing every [c] leaves no [c], when the replacement has none. *)
Lemma replaceAll_go_removes c repl fuel : forall s,
  String.length s < fuel -> has_char c repl = false ->
  has_char c (replaceAll_go fuel (String c "") repl s) = false.
Proof.
  induction fuel as [|fuel IH]; intros s Hlen Hr; [lia|].
  cbn [replaceAll_go]. destruct s as [|c' t]; [reflexivity|].
  cbn [strip_prefix]. simpl in Hlen. rewrite Ascii.eqb_sym.
  destruct (Ascii.eqb c' c) eqn:Hc.
  - rewrite has_char_app, Hr. simpl. apply IH; [lia | exact Hr].
  - simpl. rewrite Hc. simpl. apply IH; [lia | exact Hr].
Qed.

Lemma replaceAll_removes c repl s :
  has_char c repl = false -> has_char c (replaceAll (String c "") repl s) = false.
Proof. intros Hr. apply replaceAll_go_removes; [lia | exact Hr]. Qed.

Lemma digit_neq c d : is_digit c = true -> is_digit d = false -> Ascii.eqb c d = false.
Proof. intros Hc Hd. apply Ascii.eqb_neq. intros ->. congruence. Qed.

Lemma has_char_uint d (u : Decimal.uint) :
  is_digit d = false -> has_char d (NilEmpty.string_of_uint u) = false.
Proof.
  intros Hd. induction u; cbn [NilEmpty.string_of_uint has_char]; try reflexivity;
    rewrite IHu, orb_false_r; now apply digit_neq.
Qed.

Lemma has_char_string_of_Z d z :
  is_digit d = false -> d <> "-"%char -> has_char d (string_of_Z z) = false.
Proof.
  intros Hd Hm. unfold string_of_Z, NilZero.string_of_int.
  assert (Hu : forall u, has_char d (NilZero.string_of_uint u) = false).
  { intros u. unfold NilZero.string_of_uint. destruct u; try apply has_char_uint; try exact Hd.
    cbn [has_char]. rewrite orb_false_r. now apply digit_neq. }
  destruct (Z.to_int z) as [u|u]; [apply Hu|].
  cbn [has_char]. rewrite Hu, orb_false_r. apply Ascii.eqb_neq. congruence.
Qed.

Lemma has_char_episodePadding d z :
  is_digit d = false -> d <> "-"%char -> has_char d (episodePadding z) = false.
Proof.
  intros Hd Hm. unfold episodePadding. destruct (z <? 10)%Z.
  - rewrite has_char_app, (has_char_string_of_Z _ _ Hd Hm). cbn [has_char].
    rewrite !orb_false_r. now apply digit_neq.
  - now apply has_char_string_of_Z.
Qed.

Lemma renameEpisode_assembled W page st r st' :
  renameEpisode W page st = (Ok r, st') ->
  exists showKey s token en,
    show page = Some showKey /\ SHOWS !! showKey = Some s /\
    r = assembleFileName W showKey (name s) token en /\
    (token = "." \/ exists e, token = episodeToken e).
Proof.
  unfold renameEpisode. destruct (show page) as [showKey|]; [|discriminate].
  destruct (SHOWS !! showKey) as [s|] eqn:Hs; [|discriminate].
  intros H. exists showKey, s.
  cut (exists token en,
         r = assembleFileName W showKey (name s) token en /\
         (token = "." \/ exists e, token = episodeToken e)).
  { intros (token & en & Hr & Ht). exists token, en. auto. }
  assert (Hdot : forall en st0,
            ret (assembleFileName W showKey (name s) "." en) st0 = (Ok r, st') ->
            exists token en0,
              r = assembleFileName W showKey (name s) token en0 /\
              (token = "." \/ exists e, token = episodeToken e)).
  { intros en st0 [= <- _]. exists ".", en. auto. }
  destruct (tvdb_id s) as [id|]; [|now apply Hdot in H].
  apply bind_Ok in H as (episodes & st1 & _ & H).
  apply bind_Ok in H as (names & st2 & _ & H).
  destruct (FuzzySet_get W names _) as [[|firstMatch rest]|].
  - discriminate.
  - apply bind_Ok in H as (found & st3 & _ & H).
    destruct found as [e|]; apply bind_Ok in H as ([] & st4 & _ & H).
    + injection H as <- _. exists (episodeToken e), (name_of e). eauto.
    + now apply Hdot in H.
  - apply bind_Ok in H as ([] & st3 & _ & H). now apply Hdot in H.
Qed.

(** X14.  The form of every file name [renameEpisode] returns: the
    directory [videos/] and the key of the show of the page, then what
    [sanitize] makes of a name, then [.mp4]; and the name handed to
    [sanitize] has no space and no apostrophe, whatever the title and the
    catalog are. *)
Theorem renameEpisode_file_name (W : World) (page : Page) (st : State)
    (r : string) (st' : State) :
  renameEpisode W page st = (Ok r, st') ->
  exists showKey f,
    show page = Some showKey /\
    r = "videos/" +:+ showKey +:+ "/" +:+ sanitize W f +:+ ".mp4" /\
    has_char " " f = false /\ has_char "'" f = false.
Proof.
  intros H. apply renameEpisode_assembled in H
    as (showKey & s & token & en & Hshow & _ & -> & Htoken).
  exists showKey. eexists. split; [exact Hshow|]. split.
  { unfold assembleFileName. cbv zeta. now rewrite <- !app_assoc_s. }
  assert (Ht : has_char " " token = false /\ has_char "'" token = false).
  { destruct Htoken as [->|[e ->]]; [now split|].
    unfold episodeToken. rewrite !has_char_app.
    rewrite !has_char_episodePadding by (reflexivity || discriminate). now split. }
  destruct Ht as [Ht1 Ht2]. rewrite !has_char_app, Ht1, Ht2. split.
  - rewrite replaceAll_keeps; [|now apply (replaceAll_removes " " ".")|reflexivity].
    rewrite replaceAll_keeps; [reflexivity| |reflexivity].
    apply replaceAll_keeps; [|reflexivity]. now apply (replaceAll_removes " " ".").
  - rewrite (replaceAll_removes "'" "") by reflexivity.
    rewrite replaceAll_keeps; [reflexivity| |reflexivity].
    now apply (replaceAll_removes "'" "").
Qed.

Lemma renameEpisode_file_name_witness :
  exists showKey f,
    show (downtown_page_of "Alpha") = Some showKey /\
    "videos/downtown/Downtown.Alpha.mp4"
    = "videos/" +:+ showKey +:+ "/" +:+ sanitize downtown_world f +:+ ".mp4" /\
    has_char " " f = false /\ has_char "'" f = false.
Proof.
  apply (renameEpisode_file_name downtown_world (downtown_page_of "Alpha") Sample.start
           "videos/downtown/Downtown.Alpha.mp4" Sample.start).
  vm_compute. reflexivity.
Defined.

(** ** The file name of the earlier script *)

Lemma replaceLeftmost_skip (match_at : string -> option string) repl e s :
  (forall e' s', plain_name e' = true -> e' <> "" -> match_at (e' +:+ s') = None) ->
  plain_name e = true ->
  replaceLeftmost match_at repl (e +:+ s) = e +:+ replaceLeftmost match_at repl s.
Proof.
  intros Hm. induction e as [|c t IH]; intros Hp; [now rewrite !app_nil_s|].
  assert (Hd : match_at (String c t +:+ s) = None) by (now apply Hm).
  rewrite app_cons_s in *. rewrite app_cons_s. cbn [replaceLeftmost]. rewrite Hd.
  f_equal. apply IH. exact (plain_name_tail _ _ Hp).
Qed.

Lemma replaceLeftmost_here (match_at : string -> option string) repl s rest :
  match_at s = Some rest -> replaceLeftmost match_at repl s = repl +:+ rest.
Proof. intros H. destruct s; cbn [replaceLeftmost]; now rewrite H. Qed.

Lemma replaceFirst_skip x s :
  has_char "226" x = false ->
  replaceFirst right_quote "'" (x +:+ s) = x +:+ replaceFirst right_quote "'" s.
Proof.
  unfold replaceFirst. induction x as [|c t IH]; intros Hx; [now rewrite !app_nil_s|].
  cbn [has_char] in Hx. apply orb_false_elim in Hx as [Hc Ht].
  rewrite app_cons_s. rewrite app_cons_s. cbn [replaceLeftmost].
  assert (Hn : strip_prefix right_quote (String c (t +:+ s)) = None).
  { unfold right_quote. cbn [strip_prefix]. now rewrite Ascii.eqb_sym, Hc. }
  rewrite Hn. f_equal. now apply IH.
Qed.

Lemma replaceFirst_none x :
  has_char "226" x = false -> replaceFirst right_quote "'" x = x.
Proof.
  intros Hx. rewrite <- (app_s_nil x) at 1. rewrite (replaceFirst_skip _ _ Hx).
  change (replaceFirst right_quote "'" "") with "". apply app_s_nil.
Qed.

Lemma plain_name_no_226 e : plain_name e = true -> has_char "226" e = false.
Proof.
  induction e as [|c t IH]; [reflexivity|]. cbn [plain_name has_char]. intros H.
  apply andb_prop in H as [H Ht]. apply andb_prop in H as [H _].
  apply andb_prop in H as [_ H2]. apply negb_true_iff in H2. now rewrite H2, IH.
Qed.

(** X15.  The file name the earlier script downloads to: for a title made
    of an episode name without a dash that does not end in a space, an
    optional space, a hyphen or en dash or em dash, an optional space and
    the show name with its typographic apostrophe, followed by anything, the
    name is [videos/], what [sanitize] makes of the episode name, the
    separator [ - ], the show name with a plain apostrophe and the rest with
    its first typographic apostrophe made plain, and [.mp4]: whichever dash
    and spaces the title has, the name has the same separator. *)
Theorem Legacy_fileName_title (W : World) (page : Page) (e sp1 dash sp2 tail : string) :
  plain_name e = true ->
  In sp1 [""; " "] -> In dash ["-"; en_dash; em_dash] -> In sp2 [""; " "] ->
  title page = e +:+ sp1 +:+ dash +:+ sp2 +:+ ("California" +:+ right_quote +:+ "s Gold")
               +:+ tail ->
  Legacy.fileName W page
  = "videos/" +:+ sanitize W (e +:+ " - California's Gold"
                              +:+ replaceFirst right_quote "'" tail) +:+ ".mp4" /\
  (has_char "226" tail = false ->
   Legacy.fileName W page
   = "videos/" +:+ sanitize W (e +:+ " - California's Gold" +:+ tail) +:+ ".mp4").
Proof.
  intros Hp H1 Hd H2 Ht.
  assert (Hname : Legacy.fileName W page
                  = "videos/" +:+ sanitize W (e +:+ " - California's Gold"
                                              +:+ replaceFirst right_quote "'" tail)
                    +:+ ".mp4").
  { unfold Legacy.fileName. cbv zeta. rewrite Ht.
    rewrite (replaceLeftmost_skip _ _ _ _
               (fun e' s' => dashed_at_plain _ e' s') Hp).
    rewrite (replaceLeftmost_here _ _ _ tail).
    - rewrite (replaceFirst_skip e _ (plain_name_no_226 _ Hp)).
      now rewrite (replaceFirst_skip " - California's Gold" tail eq_refl).
    - apply (dashed_at_here _ "C" ("alifornia" +:+ right_quote +:+ "s Gold"));
        auto. }
  split; [exact Hname|]. intros Htail. rewrite Hname. now rewrite (replaceFirst_none _ Htail).
Qed.

Lemma Legacy_fileName_title_witness :
  Legacy.fileName downtown_world old_faithful_site_page
  = "videos/" +:+ sanitize downtown_world ("Old Faithful" +:+ " - California's Gold"
                                           +:+ " (112)") +:+ ".mp4".
Proof.
  apply (proj2 (Legacy_fileName_title downtown_world old_faithful_site_page
                  "Old Faithful" " " en_dash " " " (112)"
                  eq_refl ltac:(simpl; auto) ltac:(simpl; auto) ltac:(simpl; auto) eq_refl)).
  reflexivity.
Defined.

(** ** A failed extraction *)

Lemma extract_store_fails (m : M Page) url r st e st' :
  only_logs m ->
  (page <- m;; store url page) (logged [r] st) = (Err e, st') ->
  exists rs, st' = logged (r :: rs) st.
Proof.
  intros Hm H. apply (extract_store_Err _ _ _ _ _ Hm) in H as [rs ->].
  exists rs. now rewrite logged_app.
Qed.

(** X16.  A failed [getPageVideos] caches nothing: when it fails, the URL
    was not cached, the page was asked for first, and the state differs from
    the one before only by the requests made, so that the cache and the page
    objects are as they were and a later call asks again.  The same holds
    for the script without the resolver. *)
Theorem getPageVideos_failure (W : World) (url : string) (st : State) (e : exn)
    (st' : State) :
  (getPageVideos W url st = (Err e, st') ->
   CACHE_pages st !! url = None /\
   (exists rs, st' = logged (GET url :: rs) st) /\
   CACHE_pages st' = CACHE_pages st /\ heap st' = heap st) /\
  (Legacy.getPageVideos W url st = (Err e, st') ->
   CACHE_pages st !! url = None /\
   (exists rs, st' = logged (GET url :: rs) st) /\
   CACHE_pages st' = CACHE_pages st /\ heap st' = heap st).
Proof.
  assert (Hend : CACHE_pages st !! url = None ->
                 (exists rs, st' = logged (GET url :: rs) st) ->
                 CACHE_pages st !! url = None /\
                 (exists rs, st' = logged (GET url :: rs) st) /\
                 CACHE_pages st' = CACHE_pages st /\ heap st' = heap st).
  { intros Hc [rs ->]. split; [exact Hc|]. split; [now exists rs|]. now split. }
  split; intros H.
  - destruct (CACHE_pages st !! url) as [l|] eqn:Hc.
    { unfold getPageVideos in H. now rewrite Hc in H. }
    apply Hend; [reflexivity|].
    rewrite (getPageVideos_miss W _ _ Hc) in H.
    apply bind_Err in H as [H | (doc & st1 & Hr & H)].
    + rewrite request_eq in H. injection H as _ <-. now exists [].
    + rewrite request_eq in Hr. injection Hr as _ <-.
      destruct (doc_iframes doc) as [|iframeUrl [|? ?]].
      * destruct (doc_jwVideo doc) as [|jwSrc [|? ?]].
        -- injection H as _ <-. now exists [].
        -- eapply extract_store_fails; [apply getVideosFromJWPlayer_only_logs | exact H].
        -- injection H as _ <-. now exists [].
      * eapply extract_store_fails; [apply getVideosFromIframe_only_logs | exact H].
      * injection H as _ <-. now exists [].
  - destruct (CACHE_pages st !! url) as [l|] eqn:Hc.
    { unfold Legacy.getPageVideos in H. now rewrite Hc in H. }
    apply Hend; [reflexivity|].
    rewrite (Legacy_getPageVideos_miss W _ _ Hc) in H.
    apply bind_Err in H as [H | (doc & st1 & Hr & H)].
    + rewrite request_eq in H. injection H as _ <-. now exists [].
    + rewrite request_eq in Hr. injection Hr as _ <-.
      destruct (doc_iframes doc) as [|iframeUrl [|? ?]].
      * destruct (doc_jwVideo doc) as [|jwSrc [|? ?]].
        -- injection H as _ <-. now exists [].
        -- eapply extract_store_fails; [apply getVideosFromJWPlayer_only_logs | exact H].
        -- injection H as _ <-. now exists [].
      * eapply extract_store_fails; [apply Legacy_getVideosFromIframe_only_logs | exact H].
      * injection H as _ <-. now exists [].
Qed.

Lemma getPageVideos_failure_witness :
  CACHE_pages Sample.start !! "https://blogs.chapman.edu/old-faithful/" = None /\
  (exists rs,
     logged [GET "https://blogs.chapman.edu/old-faithful/"] Sample.start
     = logged (GET "https://blogs.chapman.edu/old-faithful/" :: rs) Sample.start) /\
  CACHE_pages (logged [GET "https://blogs.chapman.edu/old-faithful/"] Sample.start)
  = CACHE_pages Sample.start /\
  heap (logged [GET "https://blogs.chapman.edu/old-faithful/"] Sample.start)
  = heap Sample.start.
Proof.
  apply (proj1 (getPageVideos_failure neither_world "https://blogs.chapman.edu/old-faithful/"
                  Sample.start
                  (Thrown "Couldn't find a JW Player <video> tag! https://blogs.chapman.edu/old-faithful/")
                  (logged [GET "https://blogs.chapman.edu/old-faithful/"] Sample.start))).
  vm_compute. reflexivity.
Defined.
